(** * scripts/with-timeout.py: the process supervisor

    A shallow embedding of [kill_tree], [run_with_timeouts] and [main] of
    scripts/with-timeout.py, and the properties of the supervisor that the
    specification states about them; then the functions of
    scripts/xcodebuild-test-with-env.py that prepare the two [xcodebuild]
    commands and patch the test run file, the choice of the rows that
    scripts/benchmarks.py reports, and properties X1 to X19 that the code of
    the scripts shows.

    Conventions of the embedding.
    - Python [int] is [Z]; [str] is [string], the bytes of its UTF-8
      encoding. The built-in [int] on a [str] is a parameter of [main];
      [Py.int] is the one of CPython 3.11 (Unicode 14.0, at most 4300
      digits).
    - [time.time()] returns a float number of seconds; the readings of the
      clock are rational numbers [Q], compared with [hard_sec] and [idle_sec]
      exactly as the source compares them.
    - The operating system is an oracle: every call the source makes to it
      ([sel.select], [readline], [proc.poll], [os.kill], [os.killpg],
      [subprocess.run], [proc.communicate], [os.environ.get]) takes its answer
      from a record that describes one run of the world. What the supervisor
      does to the world ([print], [write], [os.killpg], [time.sleep], the
      [sample] tool) is collected, in program order, in a trace.
    - Exceptions are values: a computation yields a value, raises, or is still
      in the monitoring loop when the described part of the run ends.
    - A [readline] of the loop returns a line, or the empty string at end of
      stream; or it does not return: it waits for the end of a line, or
      raises [UnicodeDecodeError]. [run_with_timeouts] is the run over
      cycles in which every [readline] returns; [run_with_timeouts_upto] is
      the run in which such cycles are followed by one that a [readline]
      interrupts.
    - Left out: the start of the child ([subprocess.Popen] and its errors),
      errors of [print] and [write], interrupts that are not subclasses of
      [Exception], and the buffers of the text streams: what [readline] and
      [proc.communicate] return comes from the world, with no relation
      between the two and what the child has written.

    The file has four parts: the embedding and the vocabulary of the
    properties; the lemmas about the loop, the escalation and the drain; the
    properties C1 to C10 of the specification, each with its theorem and the
    concrete runs that go with it; further properties of the code. *)

From Stdlib Require Import Ascii String QArith.
From stdpp Require Import base option list strings gmap.
From Stdlib Require Import Lia.

Local Open Scope Z_scope.

(** ** Python values *)

Module Py.

(** A [str] is kept as the bytes of its UTF-8 encoding. *)
Definition bytes (s : string) : list Z :=
  (λ c, Z.of_nat (nat_of_ascii c)) <$> list_ascii_of_string s.

Definition continuation (b : Z) : bool := (128 <=? b) && (b <=? 191).

(** The code points of a [str]. [None] when the bytes are not the encoding
    of code points: [os.environ] keeps such bytes as lone surrogates, which
    are neither digits nor white space. *)
Fixpoint decode (s : list Z) : option (list Z) :=
  match s with
  | [] => Some []
  | b :: s1 =>
      if b <? 128 then cons b <$> decode s1
      else if (194 <=? b) && (b <=? 223) then
        match s1 with
        | b1 :: s2 =>
            if continuation b1
            then cons ((b - 192) * 64 + (b1 - 128)) <$> decode s2
            else None
        | _ => None
        end
      else if (224 <=? b) && (b <=? 239) then
        match s1 with
        | b1 :: b2 :: s3 =>
            let cp := (b - 224) * 4096 + (b1 - 128) * 64 + (b2 - 128) in
            if continuation b1 && continuation b2 && (2048 <=? cp)
               && negb ((55296 <=? cp) && (cp <=? 57343))
            then cons cp <$> decode s3
            else None
        | _ => None
        end
      else if (240 <=? b) && (b <=? 244) then
        match s1 with
        | b1 :: b2 :: b3 :: s4 =>
            let cp := (b - 240) * 262144 + (b1 - 128) * 4096
                      + (b2 - 128) * 64 + (b3 - 128) in
            if continuation b1 && continuation b2 && continuation b3
               && (65536 <=? cp) && (cp <=? 1114111)
            then cons cp <$> decode s4
            else None
        | _ => None
        end
      else None
  end.

(** The white space of [str.isspace] outside ASCII, and the zero of every
    run of ten decimal digits outside ASCII (Unicode 14.0). *)
Definition unicode_spaces : list Z :=
  [133; 160; 5760; 8192; 8193; 8194; 8195; 8196; 8197; 8198; 8199; 8200;
   8201; 8202; 8232; 8233; 8239; 8287; 12288].

Definition decimal_zeros : list Z :=
  [1632; 1776; 1984; 2406; 2534; 2662; 2790; 2918; 3046; 3174; 3302; 3430;
   3558; 3664; 3792; 3872; 4160; 4240; 6112; 6160; 6470; 6608; 6784; 6800;
   6992; 7088; 7232; 7248; 42528; 43216; 43264; 43472; 43504; 43600; 44016;
   65296; 66720; 68912; 69734; 69872; 69942; 70096; 70384; 70736; 70864;
   71248; 71360; 71472; 71904; 72016; 72784; 73040; 73120; 92768; 92864;
   93008; 120782; 120792; 120802; 120812; 120822; 123200; 123632; 125264;
   130032].

Definition todecimal (cp : Z) : option Z :=
  (λ z, cp - z)
  <$> List.find (λ z, (z <=? cp) && (cp <=? z + 9)) decimal_zeros.

(** What [int] makes of a code point before it reads the literal: ASCII is
    kept, white space becomes a space, a decimal digit of any script the
    ASCII digit of its value; [None] for any other character. *)
Definition to_ascii (cp : Z) : option Z :=
  if cp <? 127 then Some cp
  else if bool_decide (cp ∈ unicode_spaces) then Some 32
  else (λ d, 48 + d) <$> todecimal cp.

(** The white space that [int] skips around the literal: TAB..CR and the
    space. *)
Definition is_space (c : Z) : bool := (9 <=? c) && (c <=? 13) || (c =? 32).

Definition is_decimal (c : Z) : bool := (48 <=? c) && (c <=? 57).

(** The ASCII digits. *)
Definition is_digit (c : ascii) : bool :=
  let n := nat_of_ascii c in ((48 <=? n) && (n <=? 57))%nat.

Fixpoint lstrip (s : list Z) : list Z :=
  match s with
  | c :: s' => if is_space c then lstrip s' else s
  | [] => []
  end.

Definition strip (s : list Z) : list Z :=
  rev (lstrip (rev (lstrip s))).

(** The digits of an [int] literal: a digit, then digits each preceded by at
    most one underscore. [after_digit] tells whether the previous character
    was a digit (an underscore is only allowed there, and not at the end). *)
Fixpoint int_digits (acc : Z) (after_digit : bool) (s : list Z) : option Z :=
  match s with
  | [] => if after_digit then Some acc else None
  | c :: s' =>
      if is_decimal c then int_digits (10 * acc + (c - 48)) true s'
      else if (c =? 95) && after_digit then
        match s' with
        | d :: _ => if is_decimal d then int_digits acc false s' else None
        | [] => None
        end
      else None
  end.

(** [sys.int_info.default_max_str_digits]: a literal with more digits is
    refused. *)
Definition max_str_digits : nat := 4300.

(** [int(s)] for a string in base 10: [None] is [ValueError]. *)
Definition int (s : string) : option Z :=
  cps ← decode (bytes s);
  cs ← mapM to_ascii cps;
  let '(negative, ds) :=
    match strip cs with
    | 45 :: ds => (true, ds)
    | 43 :: ds => (false, ds)
    | ds => (false, ds)
    end in
  if (length (List.filter is_decimal ds) <=? max_str_digits)%nat then
    (λ n, if negative : bool then - n else n) <$> int_digits 0 false ds
  else None.

(** Truth value of an [int] and of a [str]. *)
Definition truthy_int (n : Z) : bool := negb (n =? 0).
Definition truthy_str (s : string) : bool :=
  match s with EmptyString => false | _ => true end.

(** [x or 0] for [x : Optional[int]]. *)
Definition or_zero (x : option Z) : Z :=
  match x with Some n => if truthy_int n then n else 0 | None => 0 end.

End Py.

Arguments Py.truthy_int : simpl never.

(** ** The regular expressions of [re] that the pattern uses *)

Module Re.

Inductive regex : Type :=
| Empty
| Char (c : ascii)                (* an ordinary or an escaped character *)
| Digit                           (* \d *)
| Cat (r1 r2 : regex)
| Group (n : nat) (r : regex)     (* ( ... ), numbered by its opening paren *)
| Plus (r : regex).               (* greedy + *)

(** *** [re.compile] on the subset: literals, backslash escapes, \d,
    capturing groups and the postfix +. Anything else is refused. *)

Definition is_plain (c : ascii) : bool :=
  negb (existsb (Ascii.eqb c)
          (list_ascii_of_string ".^$*+?{}[]|()\")).

Definition is_alnum (c : ascii) : bool :=
  let n := nat_of_ascii c in
  ((48 <=? n) && (n <=? 57) || (65 <=? n) && (n <=? 90)
   || (97 <=? n) && (n <=? 122))%nat.

(** One atom was read; a following + applies to it. *)
Definition with_postfix (a : regex) (s : list ascii) : regex * list ascii :=
  match s with
  | "+"%char :: s' => (Plus a, s')
  | _ => (a, s)
  end.

(** [parse_seq fuel s g] reads atoms up to the end of [s] or an unmatched
    closing parenthesis; [g] is the number of groups opened so far. *)
Fixpoint parse_seq (fuel : nat) (s : list ascii) (g : nat)
  : option (regex * list ascii * nat) :=
  match fuel with
  | O => None
  | S fuel' =>
      match s with
      | [] => Some (Empty, [], g)
      | ")"%char :: _ => Some (Empty, s, g)
      | "("%char :: s1 =>
          '(body, s2, g1) ← parse_seq fuel' s1 (S g);
          match s2 with
          | ")"%char :: s3 =>
              let '(a, s4) := with_postfix (Group (S g) body) s3 in
              '(rest, s5, g2) ← parse_seq fuel' s4 g1;
              Some (Cat a rest, s5, g2)
          | _ => None
          end
      | "\"%char :: c :: s1 =>
          atom ← (if Ascii.eqb c "d" then Some Digit
                  else if is_alnum c then None
                  else Some (Char c));
          let '(a, s2) := with_postfix atom s1 in
          '(rest, s3, g1) ← parse_seq fuel' s2 g;
          Some (Cat a rest, s3, g1)
      | c :: s1 =>
          if is_plain c then
            let '(a, s2) := with_postfix (Char c) s1 in
            '(rest, s3, g1) ← parse_seq fuel' s2 g;
            Some (Cat a rest, s3, g1)
          else None
      end
  end.

Definition compile (pattern : string) : option regex :=
  let s := list_ascii_of_string pattern in
  match parse_seq (S (length s)) s 0 with
  | Some (r, [], _) => Some r
  | _ => None
  end.

(** *** Matching, by backtracking with a continuation, as [re] does:
    alternatives are tried in priority order and the first success wins. *)

Abbreviation groups := (gmap nat string).

Section Matcher.
Context {R : Type}.

Definition cont := list ascii → groups → option R.

(** The text consumed between the suffixes [s] and [s'] of one subject. *)
Definition consumed (s s' : list ascii) : string :=
  string_of_list_ascii (take (length s - length s') s).

Fixpoint match_at (r : regex) (s : list ascii) (caps : groups) (k : cont)
  : option R :=
  match r with
  | Empty => k s caps
  | Char c =>
      match s with
      | c' :: s' => if Ascii.eqb c c' then k s' caps else None
      | [] => None
      end
  | Digit =>
      match s with
      | c' :: s' => if Py.is_digit c' then k s' caps else None
      | [] => None
      end
  | Cat r1 r2 => match_at r1 s caps (λ s1 caps1, match_at r2 s1 caps1 k)
  | Group n r1 =>
      match_at r1 s caps (λ s1 caps1, k s1 (<[n := consumed s s1]> caps1))
  | Plus r1 =>
      (fix iter (n : nat) (s : list ascii) (caps : groups) : option R :=
         match_at r1 s caps (λ s1 caps1,
           match n with
           | S n' =>
               if (length s1 <? length s)%nat then
                 match iter n' s1 caps1 with
                 | Some x => Some x
                 | None => k s1 caps1
                 end
               else k s1 caps1
           | O => k s1 caps1
           end)) (length s) s caps
  end.
End Matcher.

(** [pattern.search(line)]: the leftmost position with a match; the result
    holds the groups of that match. *)
Fixpoint search_from (r : regex) (s : list ascii) : option groups :=
  match match_at r s ∅ (λ _ caps, Some caps) with
  | Some caps => Some caps
  | None =>
      match s with
      | _ :: s' => search_from r s'
      | [] => None
      end
  end.

Definition search (r : regex) (line : string) : option groups :=
  search_from r (list_ascii_of_string line).

(** [m.group(n)] of a group that took part in the match. *)
Definition group (m : groups) (n : nat) : string := default EmptyString (m !! n).

End Re.

(** ** The supervisor's view of the operating system *)

Inductive stream : Set := Stdout | Stderr.

Inductive signal : Set := SIGTERM | SIGKILL.

(** The exceptions that the calls of the supervisor raise. All of them are
    subclasses of [Exception]. *)
Inductive exn : Set :=
| ProcessLookupError        (* ESRCH: no such process or process group *)
| PermissionError           (* EPERM *)
| FileNotFoundError         (* the executable is not on PATH *)
| TimeoutExpired            (* proc.communicate(timeout=...) *)
| UnicodeDecodeError        (* bytes that are not text in the encoding *)
| OtherException.           (* any other subclass of Exception *)

#[global] Instance exn_eq_dec : EqDecision exn.
Proof. solve_decision. Defined.

(** The lines that the supervisor itself prints to [sys.stderr], one
    constructor per [print] of the source:
    - line 70:  TIMEOUT: hard limit exceeded, killing process
    - line 101: TIMEOUT: idle limit exceeded, killing process
    - line 132: TIMEOUT: sampling xctest pid=.. for ..s
    - line 135: TIMEOUT: sampling child pid=.. for ..s
    - line 121: TIMEOUT: `sample` not found on PATH
    - line 123: TIMEOUT: sample failed pid=.. err=..
    - line 191: Usage: with-timeout.py --idle <sec> --hard <sec> -- ... *)
Inductive message : Set :=
| HardLimitExceeded
| IdleLimitExceeded
| SamplingXctest (pid seconds : Z)
| SamplingChild (pid seconds : Z)
| SampleNotFound
| SampleFailed (pid : Z) (e : exn)
| Usage.

(** What the supervisor does to the world, in program order. An [os.killpg]
    or [os.kill] is recorded when it is called, whatever the call answers. *)
Inductive effect : Set :=
| Print (m : message)                    (* print(..., file=sys.stderr) *)
| Write (s : stream) (data : string)     (* sys.stdout / sys.stderr .write *)
| Probe (pid : Z)                        (* os.kill(pid, 0) *)
| RunSample (pid seconds : Z)            (* subprocess.run(["sample", ...]) *)
| Killpg (pgid : Z) (sig : signal)       (* os.killpg(pgid, sig) *)
| Sleep.                                 (* time.sleep(0.2) *)

Definition trace := list effect.

(** One file object that [sel.select] reported ready and on which
    [readline()] returns: the stream it is, what [readline()] returns on it
    (the empty string at end of stream) and the reading of [time.time()] on
    line 79. *)
Record event : Type := Event {
  ev_stream : stream;
  ev_line : string;
  ev_now : Q
}.

(** One cycle of the monitoring loop: the reading of the clock on line 68,
    the answer of [sel.select(timeout=1.0)], the reading of the clock on line
    99 and the answer of the system to [proc.poll()] on line 95 or 103. *)
Record cycle : Type := Cycle {
  cy_now : Q;
  cy_events : list event;
  cy_now_idle : Q;
  cy_poll : option Z
}.

(** A [readline()] (line 77) that does not return a string. On a line whose
    end has not come it waits for the rest, for as long as the child keeps
    the stream open and writes no end of line; on bytes that are not text in
    the encoding of the stream it raises [UnicodeDecodeError]. *)
Inductive fault : Set := Blocks | Undecodable.

(** The cycle of the loop in which that happens: the reading of the clock on
    line 68, the file objects on which [readline()] has returned before, in
    the order of [events], and what [readline()] does on the next one. *)
Record interruption : Type := Interruption {
  int_now : Q;
  int_events : list event;
  int_fault : fault
}.

(** The answer to [os.kill(pid, 0)]. *)
Inductive probe : Set := ProbeOk | ProbeNoProcess | ProbeNotPermitted.

(** The answer to [proc.communicate(timeout=3)]: what it has read from the
    two pipes and the status that its [wait()] collects, or an exception. *)
Inductive communicated : Type :=
| CommOk (out err : string) (status : Z)
| CommRaise (e : exn).

(** One run of the world, as the supervisor meets it. An answer of type
    [option exn] is [None] when the call returns. *)
Record world : Type := World {
  w_start : Q;                      (* time.time(), line 42 *)
  w_pid : Z;                        (* proc.pid *)
  w_script : list cycle;            (* the cycles of the loop, lines 67-104 *)
  w_poll_guard : option Z;          (* proc.poll(), line 125 *)
  w_kill0 : Z → probe;              (* os.kill(pid, 0), line 110 *)
  w_sample : option exn;            (* subprocess.run, line 119 *)
  w_killpg_term : option exn;       (* os.killpg(.., SIGTERM), line 140 *)
  w_grace_polls : nat → option Z;   (* proc.poll(), line 143, by iteration *)
  w_poll_after : option Z;          (* proc.poll(), line 146 *)
  w_killpg_kill : option exn;       (* os.killpg in kill_tree, line 147 *)
  w_killpg_handler : option exn;    (* os.killpg in kill_tree, line 149 *)
  w_communicate : communicated      (* proc.communicate, line 153 *)
}.

(** ** Computations: a trace and a value, an exception, or a loop that has
    not ended within the part of the run described (it is between two
    cycles, or in a [readline()] that waits) *)

Inductive result (A : Type) : Type :=
| Done (a : A)
| Raised (e : exn)
| Monitoring.
Arguments Done {A} a.
Arguments Raised {A} e.
Arguments Monitoring {A}.

Definition M (A : Type) : Type := trace * result A.

#[global] Instance M_ret : MRet M := λ A a, ([], Done a).

#[global] Instance M_bind : MBind M := λ A B f m,
  match m with
  | (t, Done a) => let '(t', r) := f a in (t ++ t', r)
  | (t, Raised e) => (t, Raised e)
  | (t, Monitoring) => (t, Monitoring)
  end.

Definition emit (e : effect) : M unit := ([e], Done tt).

Definition raise {A : Type} (e : exn) : M A := ([], Raised e).

(** A system call whose answer is [r]: it returns or raises. *)
Definition answer (r : option exn) : M unit :=
  match r with None => mret tt | Some e => raise e end.

(** [try: m  except Exception: h] *)
Definition try_except {A : Type} (m : M A) (h : exn → M A) : M A :=
  match m with
  | (t, Raised e) => let '(t', r) := h e in (t ++ t', r)
  | _ => m
  end.

Definition trace_of {A : Type} (m : M A) : trace := fst m.
Definition result_of {A : Type} (m : M A) : result A := snd m.

(** Comparison of clock readings: [x > y]. *)
Definition Qgtb (x y : Q) : bool := negb (Qle_bool x y).

(** ** scripts/with-timeout.py *)

(** The argument of [re.compile] on line 46, a raw string: the characters
    between its quotes, backslashes included. *)
Definition xctest_pid_pattern : string := "xctest \\((\\d+)\\)".

Definition xctest_pid_re : Re.regex :=
  default Re.Empty (Re.compile xctest_pid_pattern).

(** The variables of [run_with_timeouts] that change: [last], [xctest_pid],
    [timed_out] and the field [proc.returncode]. *)
Record state : Type := State {
  last : Q;
  xctest_pid : option Z;
  returncode : option Z;
  timed_out : bool
}.

Definition set_last (t : Q) (st : state) : state :=
  State t (xctest_pid st) (returncode st) (timed_out st).
Definition set_xctest_pid (p : option Z) (st : state) : state :=
  State (last st) p (returncode st) (timed_out st).
Definition set_returncode (rc : option Z) (st : state) : state :=
  State (last st) (xctest_pid st) rc (timed_out st).
Definition set_timed_out (st : state) : state :=
  State (last st) (xctest_pid st) (returncode st) true.

(** [proc.poll()]: the status once collected stays; otherwise the system is
    asked, and its answer is kept in [proc.returncode]. *)
Definition poll (os : option Z) (st : state) : state :=
  match returncode st with
  | Some _ => st
  | None => set_returncode os st
  end.

(** Lines 33-38. [r] is the answer of the system to [os.killpg]. *)
Definition kill_tree (pid : Z) (sig : signal) (r : option exn) : M unit :=
  try_except
    (_ ← emit (Killpg pid sig); answer r)
    (λ e, match e with
          | ProcessLookupError => mret tt
          | _ => raise e
          end).

(** Lines 81-86: the search of the pattern in one line, and [int] of its
    first group; a [ValueError] leaves the variable as it is. *)
Definition scan_pid (re : Re.regex) (line : string) (st : state) : state :=
  match Re.search re line with
  | Some m =>
      match Py.int (Re.group m 1) with
      | Some n => set_xctest_pid (Some n) st
      | None => st
      end
  | None => st
  end.

(** Lines 77-93, for one ready file object on which [readline()] returns;
    one on which it does not is an [interruption], see [interrupted]. *)
Definition read_event (re : Re.regex) (ev : event) (st : state) : M state :=
  if Py.truthy_str (ev_line ev) then
    let st := scan_pid re (ev_line ev) (set_last (ev_now ev) st) in
    _ ← emit (Write (ev_stream ev) (ev_line ev));
    mret st
  else mret st.

(** Lines 76-93: [for key, _ in events]. *)
Fixpoint read_events (re : Re.regex) (evs : list event) (st : state) : M state :=
  match evs with
  | [] => mret st
  | ev :: evs' => st' ← read_event re ev st; read_events re evs' st'
  end.

(** What one cycle of the loop decides. *)
Inductive control : Type := Break (st : state) | Continue (st : state).

Section Run.
Variables (idle_sec hard_sec : Z) (sample_on_timeout : bool)
          (sample_seconds : Z).

(** The conditions of lines 68 and 99, each on its own reading of the
    clock. *)
Definition hard_exceeded (start : Q) (c : cycle) : bool :=
  Py.truthy_int hard_sec && Qgtb (cy_now c - start) (inject_Z hard_sec).

Definition idle_exceeded (c : cycle) (st : state) : bool :=
  Py.truthy_int idle_sec
  && Qgtb (cy_now_idle c - last st) (inject_Z idle_sec).

(** Lines 68-104: the body of [while True]. *)
Definition cycle_body (start : Q) (c : cycle) (st : state) : M control :=
  if hard_exceeded start c then
    _ ← emit (Print HardLimitExceeded);
    mret (Break (set_timed_out st))
  else
    match cy_events c with
    | _ :: _ =>
        st ← read_events xctest_pid_re (cy_events c) st;
        let st := poll (cy_poll c) st in
        mret (if returncode st is Some _ then Break st else Continue st)
    | [] =>
        if idle_exceeded c st then
          _ ← emit (Print IdleLimitExceeded);
          mret (Break (set_timed_out st))
        else
          let st := poll (cy_poll c) st in
          mret (if returncode st is Some _ then Break st else Continue st)
    end.

(** Lines 67-104: the loop, over the cycles that the world describes. *)
Fixpoint monitor (start : Q) (script : list cycle) (st : state) : M state :=
  match script with
  | [] => ([], Monitoring)
  | c :: script' =>
      ctl ← cycle_body start c st;
      match ctl with
      | Break st' => mret st'
      | Continue st' => monitor start script' st'
      end
  end.

(** Lines 108-115. *)
Definition pid_exists (w : world) (pid : Z) : M bool :=
  _ ← emit (Probe pid);
  mret (match w_kill0 w pid with
        | ProbeOk => true
        | ProbeNoProcess => false
        | ProbeNotPermitted => true
        end).

(** Lines 117-123. *)
Definition sample_pid (w : world) (pid seconds : Z) : M unit :=
  try_except
    (_ ← emit (RunSample pid seconds); answer (w_sample w))
    (λ e, match e with
          | FileNotFoundError => emit (Print SampleNotFound)
          | _ => emit (Print (SampleFailed pid e))
          end).

(** Lines 133-135: the [elif] branch, the child itself. *)
Definition choose_child (w : world) : M (option Z) :=
  alive ← pid_exists w (w_pid w);
  if alive : bool then
    _ ← emit (Print (SamplingChild (w_pid w) sample_seconds));
    mret (Some (w_pid w))
  else mret None.

(** Lines 129-135: the choice of [sample_target]. [None] and [0] are false
    in [if xctest_pid and ...], and [pid_exists] is then not called. *)
Definition choose_target (w : world) (st : state) : M (option Z) :=
  match xctest_pid st with
  | Some p =>
      if Py.truthy_int p then
        alive ← pid_exists w p;
        if alive : bool then
          _ ← emit (Print (SamplingXctest p sample_seconds));
          mret (Some p)
        else choose_child w
      else choose_child w
  | None => choose_child w
  end.

(** Lines 128-137. *)
Definition sample_step (w : world) (st : state) : M unit :=
  if sample_on_timeout then
    sample_target ← choose_target w st;
    match sample_target with
    | Some p => if Py.truthy_int p then sample_pid w p sample_seconds
                else mret tt
    | None => mret tt
    end
  else mret tt.

(** Lines 142-145: [for _ in range(10)], from iteration [i], with [n]
    iterations left. *)
Fixpoint grace_wait (w : world) (n i : nat) (st : state) : M state :=
  match n with
  | O => mret st
  | S n' =>
      let st := poll (w_grace_polls w i) st in
      if returncode st is Some _ then mret st
      else _ ← emit Sleep; grace_wait w n' (S i) st
  end.

(** Lines 125-149. An exception leaves the [try] where [proc.returncode]
    is still [None], so the handler meets the state of line 125. *)
Definition terminate (w : world) (st : state) : M state :=
  if timed_out st then
    let st := poll (w_poll_guard w) st in
    if returncode st is None then
      try_except
        (_ ← sample_step w st;
         _ ← emit (Killpg (w_pid w) SIGTERM);
         _ ← answer (w_killpg_term w);
         st ← grace_wait w 10 0 st;
         let st := poll (w_poll_after w) st in
         if returncode st is None then
           _ ← kill_tree (w_pid w) SIGKILL (w_killpg_kill w);
           mret st
         else mret st)
        (λ _,
           _ ← kill_tree (w_pid w) SIGKILL (w_killpg_handler w);
           mret st)
    else mret st
  else mret st.

(** Lines 151-159. *)
Definition drain (w : world) (st : state) : M state :=
  try_except
    (match w_communicate w with
     | CommOk out err status =>
         let st := poll (Some status) st in
         _ ← (if Py.truthy_str out then emit (Write Stdout out) else mret tt);
         _ ← (if Py.truthy_str err then emit (Write Stderr err) else mret tt);
         mret st
     | CommRaise e => raise e
     end)
    (λ _, mret st).

(** Lines 161-163. *)
Definition exit_code (st : state) : Z :=
  if timed_out st then 124 else Py.or_zero (returncode st).

(** Lines 41-163. [cmd] is the command that [subprocess.Popen] starts; what
    the process it names does is in [w]. Every [readline()] of the cycles
    that [w] describes returns. *)
Definition run_with_timeouts (cmd : list string) (w : world) : M Z :=
  let start := w_start w in
  st ← monitor start (w_script w) (State start None None false);
  st ← terminate w st;
  st ← drain w st;
  mret (exit_code st).

(** Lines 68-93 of the cycle that a [readline()] interrupts. The hard limit
    is checked first. A [readline()] that waits leaves the run inside the
    loop, where neither limit is checked; the exception of one that raises
    is caught nowhere in [run_with_timeouts]. *)
Definition interrupted (start : Q) (i : interruption) (st : state) : M state :=
  if Py.truthy_int hard_sec
     && Qgtb (int_now i - start) (inject_Z hard_sec) then
    _ ← emit (Print HardLimitExceeded);
    mret (set_timed_out st)
  else
    _ ← read_events xctest_pid_re (int_events i) st;
    match int_fault i with
    | Blocks => ([], Monitoring)
    | Undecodable => raise UnicodeDecodeError
    end.

(** Lines 67-104: the loop over the cycles that the world describes, up to
    the interruption that follows them, when there is one. *)
Fixpoint monitor_upto (start : Q) (script : list cycle)
    (i : option interruption) (st : state) : M state :=
  match script with
  | [] =>
      match i with
      | Some i => interrupted start i st
      | None => ([], Monitoring)
      end
  | c :: script' =>
      ctl ← cycle_body start c st;
      match ctl with
      | Break st' => mret st'
      | Continue st' => monitor_upto start script' i st'
      end
  end.

(** Lines 41-163, for a run in which the cycles of [w] are followed by the
    interruption [i]; with [None] it is [run_with_timeouts cmd w]. *)
Definition run_with_timeouts_upto (cmd : list string) (w : world)
    (i : option interruption) : M Z :=
  let start := w_start w in
  st ← monitor_upto start (w_script w) i (State start None None false);
  st ← terminate w st;
  st ← drain w st;
  mret (exit_code st).

End Run.

(** ** [main] *)

(** What the command line gives for the options declared on lines 168-172:
    [None] and [false] when an option is absent. [cl_dashdash] is what
    argparse stores under [dashdash]. *)
Record cmdline : Type := Cmdline {
  cl_idle : option Z;
  cl_hard : option Z;
  cl_sample : bool;
  cl_sample_seconds : option Z;
  cl_dashdash : option (list string)
}.

(** The namespace that [ap.parse_known_args()] returns. *)
Record namespace : Type := Namespace {
  idle : Z;
  hard : Z;
  sample : bool;
  sample_seconds : Z;
  dashdash : option (list string)
}.

(** Lines 168-173: the defaults of the declarations. *)
Definition parse_known_args (cl : cmdline) : namespace :=
  Namespace (default 0 (cl_idle cl)) (default 0 (cl_hard cl)) (cl_sample cl)
            (default 8 (cl_sample_seconds cl)) (cl_dashdash cl).

(** [sys.argv[idx + 1 :]] for the first index of [--], when there is one. *)
Fixpoint after_dashdash (argv : list string) : option (list string) :=
  match argv with
  | [] => None
  | a :: argv' => if String.eqb a "--" then Some argv' else after_dashdash argv'
  end.

(** Lines 175-189: the command to run; [[]] and [None] are both false. *)
Definition command (args : namespace) (argv : list string) : list string :=
  let cmd :=
    match dashdash args with
    | Some (d :: dd) => if String.eqb d "--" then dd else d :: dd
    | _ => []
    end in
  match cmd with
  | [] => default [] (after_dashdash argv)
  | _ => cmd
  end.

(** Line 195. *)
Definition env_sample_on_timeout (environ : gmap string string) : bool :=
  Py.truthy_str
    (default EmptyString (environ !! "WITH_TIMEOUT_SAMPLE_ON_TIMEOUT")).

(** Lines 196-202. [int] is the built-in of the interpreter that runs the
    script, on a [str]: the integer, or [None] for [ValueError]. *)
Definition effective_sample_seconds (int : string → option Z)
    (args : namespace) (environ : gmap string string) : Z :=
  match environ !! "WITH_TIMEOUT_SAMPLE_SECONDS" with
  | Some v =>
      if Py.truthy_str v then
        match int v with
        | Some n => n
        | None => sample_seconds args
        end
      else sample_seconds args
  | None => sample_seconds args
  end.

(** How [main] ends: it returns (line 192) or calls [sys.exit] (line 211). *)
Inductive ending : Set := Returns (v : Z) | SysExit (rc : Z).

(** Lines 166-211. The run of the child is that of [w] and [i]. *)
Definition main (int : string → option Z) (cl : cmdline)
    (argv : list string) (environ : gmap string string) (w : world)
    (i : option interruption) : M ending :=
  let args := parse_known_args cl in
  match command args argv with
  | [] => _ ← emit (Print Usage); mret (Returns 2)
  | cmd =>
      rc ← run_with_timeouts_upto (idle args) (hard args)
             (sample args || env_sample_on_timeout environ)
             (effective_sample_seconds int args environ) cmd w i;
      mret (SysExit rc)
  end.

(** ** Vocabulary of the properties *)

Definition is_write (e : effect) : Prop :=
  match e with Write _ _ => True | _ => False end.

(** The time of the last line read (line 79): over the file objects of one
    [select], and over the cycles of a loop that has not ended. *)
Definition last_after_events (evs : list event) (l : Q) : Q :=
  fold_left (λ l ev, if Py.truthy_str (ev_line ev) then ev_now ev else l)
    evs l.

Definition last_output (pre : list cycle) (l : Q) : Q :=
  fold_left (λ l c, last_after_events (cy_events c) l) pre l.

Section Cycle.
Variables (idle_sec hard_sec : Z) (start : Q).

Local Abbreviation hard_exceeded := (hard_exceeded hard_sec start).
Local Abbreviation idle_exceeded := (idle_exceeded idle_sec).

(** A cycle that fires no timeout: it forwards what it read and polls. *)
Definition polled (c : cycle) (st : state) (t : trace) (st' : state) : Prop :=
  hard_exceeded c = false
  ∧ (cy_events c ≠ [] ∨ idle_exceeded c st = false)
  ∧ Forall is_write t
  ∧ (cy_events c = [] → t = [])
  ∧ timed_out st' = timed_out st
  ∧ returncode st'
    = match returncode st with Some x => Some x | None => cy_poll c end
  ∧ last st' = last_after_events (cy_events c) (last st).

(** What a cycle does, by the branch it takes. *)
Inductive cycle_spec (c : cycle) (st : state) : trace → control → Prop :=
| cycle_hard :
    hard_exceeded c = true →
    cycle_spec c st [Print HardLimitExceeded] (Break (set_timed_out st))
| cycle_idle :
    hard_exceeded c = false → cy_events c = [] →
    idle_exceeded c st = true →
    cycle_spec c st [Print IdleLimitExceeded] (Break (set_timed_out st))
| cycle_exited t st' code :
    polled c st t st' → returncode st' = Some code →
    cycle_spec c st t (Break st')
| cycle_continue t st' :
    polled c st t st' → returncode st' = None →
    cycle_spec c st t (Continue st').

(** The loop as a relation: the cycles it runs, the trace it leaves and how
    it ends. *)
Inductive monitor_spec : list cycle → state → trace → result state → Prop :=
| monitor_pending st :
    monitor_spec [] st [] Monitoring
| monitor_break c script st t st' :
    cycle_spec c st t (Break st') →
    monitor_spec (c :: script) st t (Done st')
| monitor_next c script st t st' t' r :
    cycle_spec c st t (Continue st') →
    monitor_spec script st' t' r →
    monitor_spec (c :: script) st (t ++ t') r.

End Cycle.

(** The outcomes of the data model. *)
Inductive outcome : Set :=
| NormalExit (code : Z)
| IdleTimeout
| HardTimeout.

(** A timeout is recorded where the loop sets [timed_out] and prints (lines
    69-70 and 100-101); a normal exit where [proc.poll()] stores a status. *)
Definition timeout_of (e : effect) : option outcome :=
  match e with
  | Print HardLimitExceeded => Some HardTimeout
  | Print IdleLimitExceeded => Some IdleTimeout
  | _ => None
  end.

Definition timeouts (t : trace) : list outcome := omap timeout_of t.

Definition exit_of (r : result state) : list outcome :=
  match r with
  | Done st => if returncode st is Some code then [NormalExit code] else []
  | _ => []
  end.

Definition recorded (m : M state) : list outcome :=
  timeouts (trace_of m) ++ exit_of (result_of m).

(** The signals sent to the process group, the processes probed and the
    processes sampled, in order. *)
Definition signal_of (e : effect) : option signal :=
  match e with Killpg _ sig => Some sig | _ => None end.
Definition signals (t : trace) : list signal := omap signal_of t.

(** [pid_exists], as a function of the world. *)
Definition alive (w : world) (pid : Z) : bool :=
  match w_kill0 w pid with ProbeNoProcess => false | _ => true end.

Definition sample_of (e : effect) : option (Z * Z) :=
  match e with RunSample pid seconds => Some (pid, seconds) | _ => None end.
Definition samples (t : trace) : list (Z * Z) := omap sample_of t.

(** The target of the sample in the words of the specification: the
    discovered process if it is still alive, otherwise the child if it is
    alive, otherwise none. *)
Definition preferred_target (w : world) (discovered : option Z) : option Z :=
  match discovered with
  | Some p =>
      if alive w p then Some p
      else if alive w (w_pid w) then Some (w_pid w) else None
  | None => if alive w (w_pid w) then Some (w_pid w) else None
  end.

Definition sleep_of (e : effect) : option unit :=
  match e with Sleep => Some tt | _ => None end.
Definition sleeps (t : trace) : nat := length (omap sleep_of t).

(** An answer to [os.killpg] that [kill_tree] lets pass. *)
Definition benign (r : option exn) : Prop :=
  r = None ∨ r = Some ProcessLookupError.

(** The child has not exited at any of the ten polls of the grace window, nor
    at the poll that follows it. *)
Definition alive_after_grace (w : world) : bool :=
  forallb (λ i, bool_decide (w_grace_polls w i = None)) (seq 0 10)
  && bool_decide (w_poll_after w = None).

(** The state on entry to the loop (lines 42-45 and 64). *)
Definition fresh (w : world) : state := State (w_start w) None None false.

(** The effects of the loop: what it forwards and the two timeout lines. *)
Definition loop_effect (e : effect) : Prop :=
  is_write e ∨ e = Print HardLimitExceeded ∨ e = Print IdleLimitExceeded.

(** How the loop can end, from a state with no timeout and no status. *)
Inductive ended (t : trace) (st' : state) : outcome → Prop :=
| ended_hard :
    timeouts t = [HardTimeout] → timed_out st' = true →
    returncode st' = None → ended t st' HardTimeout
| ended_idle :
    timeouts t = [IdleTimeout] → timed_out st' = true →
    returncode st' = None → ended t st' IdleTimeout
| ended_exit code :
    timeouts t = [] → timed_out st' = false →
    returncode st' = Some code → ended t st' (NormalExit code).

(** The handler of line 149, as a function of the answer to its signal. *)
Definition handler_result (w : world) (st : state) : result state :=
  match w_killpg_handler w with
  | None | Some ProcessLookupError => Done st
  | Some e => Raised e
  end.

Section EscalationSpec.
Variables (sample_on_timeout : bool) (sample_seconds : Z) (w : world).

(** The paths through lines 125-149: the trace each leaves and its end. *)
Inductive terminate_spec (st : state) : trace → result state → Prop :=
| term_no_timeout :
    timed_out st = false →
    terminate_spec st [] (Done st)
| term_exited code :
    timed_out st = true →
    returncode (poll (w_poll_guard w) st) = Some code →
    terminate_spec st [] (Done (poll (w_poll_guard w) st))
| term_sigterm_raises e :
    timed_out st = true → returncode st = None → w_poll_guard w = None →
    w_killpg_term w = Some e →
    terminate_spec st
      (trace_of (sample_step sample_on_timeout sample_seconds w st)
       ++ [Killpg (w_pid w) SIGTERM; Killpg (w_pid w) SIGKILL])
      (handler_result w st)
| term_graceful k st' code :
    timed_out st = true → returncode st = None → w_poll_guard w = None →
    w_killpg_term w = None →
    grace_wait w 10 0 st = (replicate k Sleep, Done st') →
    returncode (poll (w_poll_after w) st') = Some code →
    terminate_spec st
      (trace_of (sample_step sample_on_timeout sample_seconds w st)
       ++ Killpg (w_pid w) SIGTERM :: replicate k Sleep)
      (Done (poll (w_poll_after w) st'))
| term_killed st' :
    timed_out st = true → returncode st = None → w_poll_guard w = None →
    w_killpg_term w = None →
    grace_wait w 10 0 st = (replicate 10 Sleep, Done st') →
    returncode (poll (w_poll_after w) st') = None →
    benign (w_killpg_kill w) →
    terminate_spec st
      (trace_of (sample_step sample_on_timeout sample_seconds w st)
       ++ Killpg (w_pid w) SIGTERM :: replicate 10 Sleep
       ++ [Killpg (w_pid w) SIGKILL])
      (Done (poll (w_poll_after w) st'))
| term_kill_raises st' e :
    timed_out st = true → returncode st = None → w_poll_guard w = None →
    w_killpg_term w = None →
    grace_wait w 10 0 st = (replicate 10 Sleep, Done st') →
    returncode (poll (w_poll_after w) st') = None →
    w_killpg_kill w = Some e → e ≠ ProcessLookupError →
    terminate_spec st
      (trace_of (sample_step sample_on_timeout sample_seconds w st)
       ++ Killpg (w_pid w) SIGTERM :: replicate 10 Sleep
       ++ [Killpg (w_pid w) SIGKILL; Killpg (w_pid w) SIGKILL])
      (handler_result w st).

End EscalationSpec.

(** What the drain writes: what [communicate] returned for the standard
    output, then what it returned for the standard error, and nothing when
    [communicate] raises. *)
Definition forwarded (c : communicated) : trace :=
  match c with
  | CommOk out err _ =>
      (if Py.truthy_str out then [Write Stdout out] else [])
      ++ (if Py.truthy_str err then [Write Stderr err] else [])
  | CommRaise _ => []
  end.

Definition drained (w : world) : trace := forwarded (w_communicate w).

(** The state that the drain leaves. *)
Definition after_drain (w : world) (st : state) : state :=
  match w_communicate w with
  | CommOk _ _ status => poll (Some status) st
  | CommRaise _ => st
  end.

(** What the matcher accepts, as a relation between the text and groups
    before and after. *)
Inductive matches : Re.regex → list ascii → Re.groups →
                    list ascii → Re.groups → Prop :=
| matches_empty s g :
    matches Re.Empty s g s g
| matches_char c s g :
    matches (Re.Char c) (c :: s) g s g
| matches_digit c s g :
    Py.is_digit c = true → matches Re.Digit (c :: s) g s g
| matches_cat r1 r2 s g s1 g1 s2 g2 :
    matches r1 s g s1 g1 → matches r2 s1 g1 s2 g2 →
    matches (Re.Cat r1 r2) s g s2 g2
| matches_group n r s g s1 g1 :
    matches r s g s1 g1 →
    matches (Re.Group n r) s g s1 (<[n := Re.consumed s s1]> g1)
| matches_plus_one r s g s1 g1 :
    matches r s g s1 g1 → matches (Re.Plus r) s g s1 g1
| matches_plus_more r s g s1 g1 s2 g2 :
    matches r s g s1 g1 → matches (Re.Plus r) s1 g1 s2 g2 →
    matches (Re.Plus r) s g s2 g2.

(** ** Scenarios *)

(** A child with process id 700, started at time 0, that ends on SIGTERM
    (status -15) as soon as it is signalled; every call of the supervisor
    succeeds. *)
Definition base_world : world :=
  World 0 700 [] None (λ _, ProbeOk) None None (λ _, Some (-15))
        (Some (-15)) None None (CommOk "" "" (-15)).

Definition with_script (script : list cycle) (w : world) : world :=
  World (w_start w) (w_pid w) script (w_poll_guard w) (w_kill0 w)
        (w_sample w) (w_killpg_term w) (w_grace_polls w) (w_poll_after w)
        (w_killpg_kill w) (w_killpg_handler w) (w_communicate w).

Definition with_communicate (c : communicated) (w : world) : world :=
  World (w_start w) (w_pid w) (w_script w) (w_poll_guard w) (w_kill0 w)
        (w_sample w) (w_killpg_term w) (w_grace_polls w) (w_poll_after w)
        (w_killpg_kill w) (w_killpg_handler w) c.

Definition with_killpg (term kill handler : option exn) (w : world) : world :=
  World (w_start w) (w_pid w) (w_script w) (w_poll_guard w) (w_kill0 w)
        (w_sample w) term (w_grace_polls w) (w_poll_after w)
        kill handler (w_communicate w).

Definition with_grace (polls : nat → option Z) (after : option Z) (w : world)
  : world :=
  World (w_start w) (w_pid w) (w_script w) (w_poll_guard w) (w_kill0 w)
        (w_sample w) (w_killpg_term w) polls after
        (w_killpg_kill w) (w_killpg_handler w) (w_communicate w).

Definition with_kill0 (kill0 : Z → probe) (w : world) : world :=
  World (w_start w) (w_pid w) (w_script w) (w_poll_guard w) kill0
        (w_sample w) (w_killpg_term w) (w_grace_polls w) (w_poll_after w)
        (w_killpg_kill w) (w_killpg_handler w) (w_communicate w).

(** A cycle in which [select] times out after one second with nothing to
    read, and the child is still running. *)
Definition quiet_cycle (now : Q) : cycle := Cycle now [] (now + 1) None.

(** A cycle in which both streams are at end of stream: [select] reports them
    ready at once and [readline] returns the empty string. *)
Definition eof_cycle (now : Q) (status : option Z) : cycle :=
  Cycle now [Event Stdout "" now; Event Stderr "" now] now status.

(** A cycle in which the child writes one line to its standard output. *)
Definition line_cycle (now : Q) (line : string) (status : option Z) : cycle :=
  Cycle now [Event Stdout line now] now status.

(** The loop runs into the hard limit while the child is silent and both
    limits are three seconds: the cycle that starts at 3.001 s finds the hard
    limit exceeded, and the idle limit is exceeded too. *)
Definition both_limits_world : world :=
  with_script [quiet_cycle 0; quiet_cycle 1; quiet_cycle 2;
               quiet_cycle (3001 # 1000)] base_world.

(** A child that exits with status 124 at once, with no limit configured. *)
Definition exit_124_world : world :=
  with_communicate (CommOk "" "" 124)
    (with_script [eof_cycle 0 (Some 124)] base_world).

(** The child writes nothing and keeps its streams open: with an idle limit
    of two seconds, the limit is found exceeded in the third cycle. *)
Definition silent_world : world :=
  with_script [quiet_cycle 0; quiet_cycle 1; quiet_cycle 2] base_world.

(** The silent child ignores SIGTERM. *)
Definition stubborn_world : world :=
  with_grace (λ _, None) None silent_world.

(** For the silent child the SIGTERM call raises PermissionError, and the
    child then exits by itself with status 0 before any poll. *)
Definition sigterm_refused_world : world :=
  with_grace (λ _, Some 0) (Some 0)
    (with_killpg (Some PermissionError) None None silent_world).

(** The silent child has become a zombie when the signals are sent: both
    [os.killpg] calls raise PermissionError. *)
Definition signals_refused_world : world :=
  with_killpg (Some PermissionError) None (Some PermissionError) silent_world.

(** The group of the silent child is gone when the signals are sent: both
    calls raise ProcessLookupError. *)
Definition group_gone_world : world :=
  with_killpg (Some ProcessLookupError) None (Some ProcessLookupError)
    silent_world.

(** The child exits with status 0 at once; [proc.communicate] then fails to
    reach the end of the streams within its three seconds. *)
Definition drain_timeout_world : world :=
  with_communicate (CommRaise TimeoutExpired)
    (with_script [eof_cycle 0 (Some 0)] base_world).

(** The child closes its standard output and standard error at once, stays
    silent for ten seconds and exits with status 0; the idle limit is two
    seconds. Every half second (and in between) the loop finds both streams
    ready at end of stream. *)
Definition closed_streams_world : world :=
  with_communicate (CommOk "" "" 0)
    (with_script
       (map (λ k, eof_cycle (Z.of_nat k # 2) None) (seq 0 20)
        ++ [eof_cycle 10 (Some 0)])
       base_world).

(** The idle limit is five seconds and the hard limit ten. The child writes
    a line 4.6 s after the start and nothing more. The cycle that starts at
    9.6 s finds the hard limit not exceeded; its [select] waits a second for
    nothing, and line 99 reads the clock at 10.6 s. The child has become a
    zombie when the signals are sent: both [os.killpg] calls raise
    PermissionError. *)
Definition crossing_world : world :=
  with_killpg (Some PermissionError) None (Some PermissionError)
    (with_script
       [quiet_cycle 0; quiet_cycle 1; quiet_cycle 2; quiet_cycle 3;
        Cycle 4 [Event Stdout "Compiling" (46 # 10)] (46 # 10) None;
        quiet_cycle (46 # 10); quiet_cycle (56 # 10); quiet_cycle (66 # 10);
        quiet_cycle (76 # 10); quiet_cycle (86 # 10); quiet_cycle (96 # 10)]
       base_world).

(** The child writes a word without an end of line and nothing more:
    [select] reports its standard output ready, and [readline()] waits. *)
Definition partial_line : interruption := Interruption 0 [] Blocks.

(** The child writes a line to its standard error and then, to its standard
    output, bytes that are not text. *)
Definition bad_bytes : interruption :=
  Interruption 1 [Event Stderr "warning" 1] Undecodable.

(** The environment sets both variables, to [0] and to [eight]; the command
    line has no [--sample] and no [--sample-seconds]. *)
Definition sample_environ : gmap string string :=
  {[ "WITH_TIMEOUT_SAMPLE_ON_TIMEOUT" := "0";
     "WITH_TIMEOUT_SAMPLE_SECONDS" := "eight" ]}.

Definition plain_cmdline : cmdline :=
  Cmdline (Some 120) (Some 1800) false None (Some ["--"; "xcodebuild"; "test"]).

(** ** Further vocabulary: the output of the loop, the grace window, the
    effects of a run by their kind, and the end of the script *)

(** What lines 77-93 write for the file objects of one [select]: every line
    that is not empty, to the stream it was read from, in the order of the
    file objects. *)
Definition written (evs : list event) : trace :=
  omap (λ ev, if Py.truthy_str (ev_line ev)
              then Some (Write (ev_stream ev) (ev_line ev)) else None) evs.

(** The same over the cycles of a loop, in their order. *)
Definition loop_writes (script : list cycle) : trace :=
  concat (map (λ c, written (cy_events c)) script).

(** The polls of the grace window (line 143) that find the child running
    before the first one that finds it exited, from iteration [i] with [n]
    iterations left. *)
Fixpoint running_polls (w : world) (n i : nat) : nat :=
  match n with
  | O => O
  | S n' =>
      match w_grace_polls w i with
      | None => S (running_polls w n' (S i))
      | Some _ => O
      end
  end.

Definition with_sample (s : option exn) (w : world) : world :=
  World (w_start w) (w_pid w) (w_script w) (w_poll_guard w) (w_kill0 w)
        s (w_killpg_term w) (w_grace_polls w) (w_poll_after w)
        (w_killpg_kill w) (w_killpg_handler w) (w_communicate w).

(** What a run that meets the interruption [i] writes in the interrupted
    cycle, and where that leaves it: in the loop, or with the error of
    [readline()]. *)
Definition interrupted_writes (i : option interruption) : trace :=
  match i with Some i => written (int_events i) | None => [] end.

Definition interrupted_result {A : Type} (i : option interruption)
  : result A :=
  match i with
  | Some (Interruption _ _ Undecodable) => Raised UnicodeDecodeError
  | _ => Monitoring
  end.

(** The interrupted cycle as a cycle of the loop, for the case that its
    [readline()] is not reached. *)
Definition started (i : interruption) : cycle :=
  Cycle (int_now i) (int_events i) (int_now i) None.

(** How the module ends when it is run as a script: a [sys.exit] reaches
    the interpreter with its argument, or the last statement is done. *)
Inductive script_end : Set := Exits (rc : Z) | Ends.

(** Lines 214-215: [main()] is called as a statement, so what it returns is
    dropped. *)
Definition run_as_script (int : string → option Z) (cl : cmdline)
    (argv : list string) (environ : gmap string string) (w : world)
    (i : option interruption) : M script_end :=
  e ← main int cl argv environ w i;
  mret (match e with Returns _ => Ends | SysExit rc => Exits rc end).

(** The effects of the sampling step (lines 128-137): the probes, the run of
    the tool and the lines printed about it. *)
Definition sampling_effect (e : effect) : bool :=
  match e with
  | Probe _ | RunSample _ _ => true
  | Print (SamplingXctest _ _) | Print (SamplingChild _ _)
  | Print SampleNotFound | Print (SampleFailed _ _) => true
  | _ => false
  end.

(** The effects of the signals and of the grace window (lines 140-149). *)
Definition escalation_effect (e : effect) : Prop :=
  match e with Killpg _ _ | Sleep => True | _ => False end.

(** An effect that concerns no process but the child: a probe or a sample
    is of the child, and no sample of a discovered process is announced. *)
Definition only_child (w : world) (seconds : Z) (e : effect) : Prop :=
  match e with
  | Probe pid => pid = w_pid w
  | RunSample pid s => pid = w_pid w ∧ s = seconds
  | Print (SamplingXctest _ _) => False
  | Print (SampleFailed pid _) => pid = w_pid w
  | _ => True
  end.

(** What follows the sampling step in a run: signals, sleeps and the output
    of the drain. *)
Definition plain_effect (e : effect) : Prop :=
  is_write e ∨ escalation_effect e.

(** The child writes a line to its standard output, then one to its
    standard error, and exits with status 3; the drain finds one more line. *)
Definition chatty_world : world :=
  with_communicate (CommOk "done" "" 3)
    (with_script [line_cycle 0 "compiling" None;
                  Cycle 1 [Event Stderr "warning" 1] 1 (Some 3)] base_world).

(** The silent child exits at the fourth poll of the grace window. *)
Definition slow_exit_world : world :=
  with_grace (λ i, if (i <? 3)%nat then None else Some (-15)) (Some (-15))
    silent_world.

(** ** scripts/xcodebuild-test-with-env.py

    The functions on the command line are functions on lists of words; the
    environment is a finite map. Of [patch_xctestrun] the embedding has what
    it makes of the data it has loaded, on the values of a property list. In
    [main] the calls that reach the system ([run], [find_xctestrun],
    [patch_xctestrun], and the path that [pathlib] and [utc_now_id] build
    on line 195) take their answers from a record, as above, and what [main]
    does is collected in a trace. *)

Module XcodebuildTestWithEnv.

(** Line 43. *)
Definition DEFAULT_PREFIXES : list string :=
  ["LEXICAL_BENCH_"; "LEXICAL_FORCE_"].

(** [s.startswith(prefix)]. *)
Definition startswith (s prefix : string) : bool := String.prefix prefix s.

(** Lines 50-54. *)
Definition split_after_dashdash (argv : list string) : list string :=
  default argv (after_dashdash argv).

(** The messages of [SystemExit] (lines 61, 63 and 141). *)
Inductive system_exit : Set :=
| MissingRequired (key : string)
| MissingValueAfter (key : string)
| NoXctestrun (scheme : string).

(** Lines 57-64: [args.index(key)] is the first index of [key]. *)
Fixpoint require_arg_value (args : list string) (key : string)
  : system_exit + string :=
  match args with
  | [] => inl (MissingRequired key)
  | a :: args' =>
      if String.eqb a key then
        match args' with
        | [] => inl (MissingValueAfter key)
        | v :: _ => inr v
        end
      else require_arg_value args' key
  end.

(** Lines 68-75. *)
Definition actions : list string :=
  ["build"; "test"; "analyze"; "archive"; "build-for-testing";
   "test-without-building"].

(** Lines 67-76. *)
Definition strip_build_actions (args : list string) : list string :=
  filter (λ a, a ∉ actions) args.

(** Lines 83-94. *)
Definition test_only_flags : list string :=
  ["-only-testing"; "-skip-testing"; "-only-test-configuration";
   "-skip-test-configuration"; "-test-iterations"; "-testPlan";
   "-test-repetition-relaunch-enabled"; "-retry-tests-on-failure";
   "-run-tests-until-failure"; "-enumerate-tests"].

(** Lines 96-108: the loop from the word [a = args[i]], with [skip_next] as
    it stands on line 97; [rest] is [args[i + 1 :]]. *)
Fixpoint build_for_testing_loop (skip_next : bool) (args : list string)
  : list string :=
  match args with
  | [] => []
  | a :: rest =>
      if skip_next then build_for_testing_loop false rest
      else if bool_decide (a ∈ test_only_flags) then
        build_for_testing_loop
          (match rest with
           | next :: _ => negb (startswith next "-")
           | [] => false
           end) rest
      else if existsb (startswith a) ["-only-testing:"; "-skip-testing:"]
      then build_for_testing_loop false rest
      else a :: build_for_testing_loop false rest
  end.

(** Lines 79-109. *)
Definition filter_for_build_for_testing (args : list string) : list string :=
  build_for_testing_loop false args.

(** Line 115. *)
Definition skip_flags_with_value : list string :=
  ["-workspace"; "-project"; "-scheme"].

(** Lines 117-124. *)
Fixpoint test_without_building_loop (skip_next : bool) (args : list string)
  : list string :=
  match args with
  | [] => []
  | a :: rest =>
      if skip_next then test_without_building_loop false rest
      else if bool_decide (a ∈ skip_flags_with_value) then
        test_without_building_loop true rest
      else a :: test_without_building_loop false rest
  end.

(** Lines 112-125. *)
Definition filter_for_test_without_building (args : list string)
  : list string :=
  test_without_building_loop false args.

(** Lines 128-133, over [os.environ]. *)
Definition collect_env (prefixes : list string)
    (environ : gmap string string) : gmap string string :=
  filter (λ kv, existsb (startswith kv.1) prefixes = true) environ.

(** The values of a property list, as [plistlib.load] returns them. Of a
    real, a date or binary data the function only asks whether it is true. *)
#[local] Unset Elimination Schemes.
Inductive plist : Type :=
| PDict (d : gmap string plist)
| PArray (l : list plist)
| PString (s : string)
| PInteger (n : Z)
| PBool (b : bool)
| POther (truth : bool).
#[local] Set Elimination Schemes.

(** The truth of a value, as [or] tests it. *)
Definition truthy (v : plist) : bool :=
  match v with
  | PDict d => negb (bool_decide (d = ∅))
  | PArray l => negb (bool_decide (l = []))
  | PString s => Py.truthy_str s
  | PInteger n => Py.truthy_int n
  | PBool b => b
  | POther truth => truth
  end.

(** Lines 150-151 and 152-153: [for y in x.get(key) or []], with [f] for
    what the body makes of [y], which it changes in place. [None] is an
    exception that leaves the function: [x] or [y] has no [get], or the
    value is true and no list (a dictionary or a string hands its keys or
    its characters to the body, which find no [get] on them). *)
Definition for_items (f : plist → option plist) (x : plist) (key : string)
  : option plist :=
  match x with
  | PDict d =>
      match d !! key with
      | Some v =>
          if truthy v then
            match v with
            | PArray l =>
                l' ← mapM f l; Some (PDict (<[key := PArray l']> d))
            | _ => None
            end
          else Some x
      | None => Some x
      end
  | _ => None
  end.

(** Line 154. *)
Definition env_keys : list string :=
  ["EnvironmentVariables"; "TestingEnvironmentVariables"].

(** Lines 155-160, for one [key] of the target [t]. *)
Definition patch_key (env : gmap string string) (t : gmap string plist)
    (key : string) : gmap string plist :=
  let d := match t !! key with Some (PDict d) => d | _ => ∅ end in
  <[key := PDict (map_fold (λ ek ev d, <[ek := PString ev]> d) d env)]> t.

(** Lines 154-160. *)
Definition patch_target (env : gmap string string) (t : plist)
  : option plist :=
  match t with
  | PDict td => Some (PDict (foldl (patch_key env) td env_keys))
  | _ => None
  end.

(** Lines 150-160: what [patch_xctestrun] makes of the data it has loaded;
    the file is written when the loops have ended. *)
Definition patch_xctestrun (data : plist) (env : gmap string string)
  : option plist :=
  for_items (λ cfg, for_items (patch_target env) cfg "TestTargets")
    data "TestConfigurations".

(** Lines 185-186. *)
Definition build_cmd (cmd : list string) : list string :=
  "xcodebuild"
  :: filter_for_build_for_testing (strip_build_actions (tail cmd))
  ++ ["build-for-testing"].

(** Lines 199-200; [patched] is [str(patched)]. *)
Definition test_cmd (cmd : list string) (patched : string) : list string :=
  "xcodebuild" :: "-xctestrun" :: patched
  :: filter_for_test_without_building (strip_build_actions (tail cmd))
  ++ ["test-without-building"].

(** What [main] prints to [sys.stderr] (lines 175 and 178). *)
Inductive notice : Set := UsageNotice | NotXcodebuild.

(** What [main] does, in program order. *)
Inductive effect : Type :=
| Print (n : notice)
| Run (cmd : list string)                       (* subprocess.run(cmd) *)
| PatchXctestrun (in_path out_path : string)    (* patch_xctestrun *)
                 (env : gmap string string).

(** One run of the world, as [main] meets it. *)
Record world : Type := World {
  w_build : exn + Z;              (* run(build_cmd), line 187 *)
  w_xctestrun : exn + option string;
    (* find_xctestrun, line 192: the newest match, or none (line 141) *)
  w_patched : string;             (* str(patched), lines 195 and 200 *)
  w_patch : option exn;           (* patch_xctestrun, line 196: it returns
                                     or an exception leaves it *)
  w_test : exn + Z                (* run(test_cmd), line 201 *)
}.

(** How [main] ends: it returns, or [SystemExit] or another exception leaves
    it. *)
Inductive ending : Set :=
| Returns (rc : Z)
| Exits (e : system_exit)
| Raises (e : exn).

(** Lines 172-201; [argv] is [sys.argv]. *)
Definition main (argv : list string) (environ : gmap string string)
    (w : world) : list effect * ending :=
  let cmd := split_after_dashdash (tail argv) in
  match cmd with
  | [] => ([Print UsageNotice], Returns 2)
  | c :: _ =>
      if negb (String.eqb c "xcodebuild") then
        ([Print NotXcodebuild], Returns 2)
      else
        match require_arg_value cmd "-scheme" with
        | inl e => ([], Exits e)
        | inr scheme =>
            let env := collect_env DEFAULT_PREFIXES environ in
            match w_build w with
            | inl e => ([Run (build_cmd cmd)], Raises e)
            | inr rc =>
                if negb (rc =? 0) then ([Run (build_cmd cmd)], Returns rc)
                else
                  match w_xctestrun w with
                  | inl e => ([Run (build_cmd cmd)], Raises e)
                  | inr None =>
                      ([Run (build_cmd cmd)], Exits (NoXctestrun scheme))
                  | inr (Some xctestrun_path) =>
                      let patched := w_patched w in
                      let t := [Run (build_cmd cmd);
                                PatchXctestrun xctestrun_path patched env] in
                      match w_patch w with
                      | Some e => (t, Raises e)
                      | None =>
                          let t := t ++ [Run (test_cmd cmd patched)] in
                          match w_test w with
                          | inl e => (t, Raises e)
                          | inr rc => (t, Returns rc)
                          end
                      end
                  end
            end
        end
  end.

(** *** Vocabulary of the properties, and scenarios *)

(** A word that [filter_for_build_for_testing] takes for an option of the
    tests: one of the flags of lines 83-94 or a word with a prefix of line
    106. *)
Definition test_only (a : string) : bool :=
  bool_decide (a ∈ test_only_flags)
  || existsb (startswith a) ["-only-testing:"; "-skip-testing:"].

(** An option, by the look of it (line 103), that is not one of the tests. *)
Definition other_option (a : string) : bool :=
  startswith a "-" && negb (test_only a).

(** The list under [key], where there is one. *)
Definition items (x : plist) (key : string) : list plist :=
  match x with
  | PDict d => match d !! key with Some (PArray l) => l | _ => [] end
  | _ => []
  end.

(** The test targets of the configurations, in order. *)
Definition test_targets (data : plist) : list plist :=
  items data "TestConfigurations" ≫= λ cfg, items cfg "TestTargets".

(** The dictionary under [key], where there is one. *)
Definition dict_at (t : gmap string plist) (key : string)
  : gmap string plist :=
  match t !! key with Some (PDict d) => d | _ => ∅ end.

(** What a patched target is to the target it comes from: under both keys
    a dictionary that maps every variable of [env] to its value and is
    otherwise the dictionary that was there, and nothing else changed. *)
Definition patched_from (env : gmap string string) (t t' : plist)
  : Prop :=
  ∃ td td', t = PDict td ∧ t' = PDict td'
    ∧ (∀ key, key ∈ env_keys →
         ∃ d', td' !! key = Some (PDict d')
           ∧ ∀ ek, d' !! ek = match env !! ek with
                              | Some ev => Some (PString ev)
                              | None => dict_at td key !! ek
                              end)
    ∧ (∀ k, k ∉ env_keys → td' !! k = td !! k).

(** The variables of a benchmark run, and a test run file with one target
    that sets a variable of its own. *)
Definition bench_env : gmap string string :=
  {[ "LEXICAL_BENCH_BLOCKS" := "5000"; "LEXICAL_FORCE_DFS_ORDER_SORT" := "1" ]}.

(** An environment with variables of both prefixes and others. *)
Definition mixed_environ : gmap string string :=
  {[ "HOME" := "/Users/ci"; "LEXICAL_BENCH_BLOCKS" := "5000";
     "LEXICAL_FORCE_DFS_ORDER_SORT" := "1"; "LEXICAL" := "no" ]}.

Definition xctestrun_data : plist :=
  PDict
    {[ "TestConfigurations" :=
         PArray
           [PDict
              {[ "Name" := PString "Default";
                 "TestTargets" :=
                   PArray
                     [PDict
                        {[ "BlueprintName" := PString "LexicalTests";
                           "EnvironmentVariables" :=
                             PDict {[ "OS_ACTIVITY_MODE" := PString "disable" ]}
                        ]}] ]}] ]}.

(** The same file once patched with [bench_env]. *)
Definition xctestrun_patched : plist :=
  PDict
    {[ "TestConfigurations" :=
         PArray
           [PDict
              {[ "Name" := PString "Default";
                 "TestTargets" :=
                   PArray
                     [PDict
                        {[ "BlueprintName" := PString "LexicalTests";
                           "EnvironmentVariables" :=
                             PDict
                               {[ "OS_ACTIVITY_MODE" := PString "disable";
                                  "LEXICAL_BENCH_BLOCKS" := PString "5000";
                                  "LEXICAL_FORCE_DFS_ORDER_SORT" :=
                                    PString "1" ]};
                           "TestingEnvironmentVariables" :=
                             PDict
                               {[ "LEXICAL_BENCH_BLOCKS" := PString "5000";
                                  "LEXICAL_FORCE_DFS_ORDER_SORT" :=
                                    PString "1" ]}
                        ]}] ]}] ]}.

End XcodebuildTestWithEnv.

(** ** scripts/benchmarks.py: the rows that [report] shows

    Of this script the embedding has the step of [cmd_report] that keeps the
    last runs. The records that the script reads and writes are JSON, and
    the sums and averages of [Agg] are floats: they are left out. *)

Module Benchmarks.

(** Lines 146-150. *)
Record AggKey : Type := Build_AggKey {
  run_id : string;
  issue : string;
  scenario : string
}.

(** [l[start :]]: a negative [start] counts from the end, and a start
    outside the list is brought back to its nearest end. *)
Definition slice_from {A : Type} (start : Z) (l : list A) : list A :=
  drop (Z.to_nat (if start <? 0
                  then Z.max (Z.of_nat (length l) + start) 0
                  else start)) l.

(** Lines 237-240 of [cmd_report], on the rows that lines 230-235 have
    selected and sorted; [Agg] is the class of lines 153-178, of which these
    lines read nothing. *)
Definition keep_last_runs {Agg : Type} (last : Z)
    (rows : list (AggKey * Agg)) : list (AggKey * Agg) :=
  if Py.truthy_int last then
    let keep_ids := slice_from (- last) (map (λ kv, run_id kv.1) rows) in
    filter (λ kv, run_id kv.1 ∈ keep_ids) rows
  else rows.

(** The last [n] rows. *)
Definition recent {A : Type} (n : nat) (rows : list A) : list A :=
  drop (length rows - n) rows.

(** Three rows of two runs, the older run with one scenario and the newer
    with two. *)
Definition two_runs : list (AggKey * unit) :=
  [(Build_AggKey "run-1" "u7r.8" "mixed", tt);
   (Build_AggKey "run-2" "u7r.8" "mixed", tt);
   (Build_AggKey "run-2" "u7r.8" "live", tt)].

End Benchmarks.

(** * Lemmas *)

(** ** The monad *)

Lemma Qgtb_spec (x y : Q) : Qgtb x y = true ↔ (y < x)%Q.
Proof.
  unfold Qgtb. rewrite negb_true_iff, <- not_true_iff_false, Qle_bool_iff.
  split; [apply Qnot_le_lt | apply Qlt_not_le].
Qed.

Lemma bind_Done {A B : Type} (f : A → M B) (t : trace) (a : A) :
  (t, Done a) ≫= f = (t ++ trace_of (f a), result_of (f a)).
Proof. unfold mbind, M_bind. destruct (f a); reflexivity. Qed.

Lemma bind_Raised {A B : Type} (f : A → M B) (t : trace) (e : exn) :
  (t, Raised e) ≫= f = (t, Raised e).
Proof. reflexivity. Qed.

Lemma bind_Monitoring {A B : Type} (f : A → M B) (t : trace) :
  (t, Monitoring) ≫= f = (t, Monitoring).
Proof. reflexivity. Qed.

Lemma M_eta {A : Type} (m : M A) : (trace_of m, result_of m) = m.
Proof. destruct m; reflexivity. Qed.

Lemma emit_bind {B : Type} (e : effect) (f : unit → M B) :
  emit e ≫= f = (e :: trace_of (f tt), result_of (f tt)).
Proof. unfold emit. rewrite bind_Done. reflexivity. Qed.

Lemma mret_bind {A B : Type} (a : A) (f : A → M B) : mret a ≫= f = f a.
Proof. unfold mret, M_ret. rewrite bind_Done. apply M_eta. Qed.

Lemma answer_bind {B : Type} (r : option exn) (f : unit → M B) :
  answer r ≫= f = match r with None => f tt | Some e => ([], Raised e) end.
Proof. destruct r; [reflexivity | apply mret_bind]. Qed.

Lemma try_except_Done {A : Type} (t : trace) (a : A) (h : exn → M A) :
  try_except (t, Done a) h = (t, Done a).
Proof. reflexivity. Qed.

Lemma try_except_Raised {A : Type} (t : trace) (e : exn) (h : exn → M A) :
  try_except (t, Raised e) h = (t ++ trace_of (h e), result_of (h e)).
Proof. unfold try_except. destruct (h e); reflexivity. Qed.

(** [kill_tree] sends the signal and lets [ProcessLookupError] pass. *)
Lemma kill_tree_eq (pid : Z) (sig : signal) (r : option exn) :
  kill_tree pid sig r
  = ([Killpg pid sig],
     match r with
     | None | Some ProcessLookupError => Done tt
     | Some e => Raised e
     end).
Proof. unfold kill_tree. destruct r as [[]|]; reflexivity. Qed.

(** ** Reading output (lines 76-93) *)

Lemma scan_pid_keeps (re : Re.regex) (line : string) (st : state) :
  last (scan_pid re line st) = last st
  ∧ returncode (scan_pid re line st) = returncode st
  ∧ timed_out (scan_pid re line st) = timed_out st.
Proof.
  unfold scan_pid. destruct (Re.search re line) as [m|]; [|auto].
  destruct (Py.int (Re.group m 1)); auto.
Qed.

Lemma read_events_spec (re : Re.regex) (evs : list event) (st : state) :
  ∃ t st', read_events re evs st = (t, Done st')
    ∧ Forall is_write t
    ∧ returncode st' = returncode st
    ∧ timed_out st' = timed_out st
    ∧ last st' = last_after_events evs (last st).
Proof.
  revert st. induction evs as [|ev evs IH]; intros st;
    cbn [read_events last_after_events fold_left].
  - exists [], st. repeat split; auto.
  - unfold read_event. destruct (Py.truthy_str (ev_line ev)).
    + set (st1 := scan_pid re (ev_line ev) (set_last (ev_now ev) st)).
      destruct (scan_pid_keeps re (ev_line ev) (set_last (ev_now ev) st))
        as (Hl1 & Hrc1 & Hto1). fold st1 in Hl1, Hrc1, Hto1.
      destruct (IH st1) as (t & st' & E & Hw & Hrc & Hto & Hl).
      exists (Write (ev_stream ev) (ev_line ev) :: t), st'.
      rewrite emit_bind. cbn [mret M_ret trace_of result_of fst snd].
      rewrite bind_Done, E.
      split; [reflexivity|]. split; [constructor; [exact I | exact Hw]|].
      cbn [set_last returncode timed_out last] in Hl1, Hrc1, Hto1.
      split; [congruence|]. split; [congruence|].
      rewrite Hl, Hl1. reflexivity.
    + destruct (IH st) as (t & st' & E & Hw & Hrc & Hto & Hl).
      exists t, st'. rewrite mret_bind, E. auto.
Qed.

Lemma last_poll (os : option Z) (st : state) : last (poll os st) = last st.
Proof. unfold poll. destruct (returncode st); reflexivity. Qed.

(** ** One cycle of the monitoring loop (lines 68-104) *)

Lemma returncode_poll (os : option Z) (st : state) :
  returncode (poll os st)
  = match returncode st with Some c => Some c | None => os end.
Proof. unfold poll. destruct (returncode st) eqn:E; [rewrite E|]; reflexivity. Qed.

Lemma timed_out_poll (os : option Z) (st : state) :
  timed_out (poll os st) = timed_out st.
Proof. unfold poll. destruct (returncode st); reflexivity. Qed.

Section LoopFacts.
Variables (idle_sec hard_sec : Z) (start : Q).

Local Abbreviation hard_x := (hard_exceeded hard_sec start).
Local Abbreviation idle_x := (idle_exceeded idle_sec).
Local Abbreviation polled' := (polled idle_sec hard_sec start).
Local Abbreviation cycle_spec' := (cycle_spec idle_sec hard_sec start).
Local Abbreviation monitor_spec' := (monitor_spec idle_sec hard_sec start).
Local Abbreviation monitor' := (monitor idle_sec hard_sec start).

Lemma cycle_spec_polled (c : cycle) (st : state) (t : trace) (st' : state) :
  polled' c st t st' →
  cycle_spec' c st t
    (if returncode st' is Some _ then Break st' else Continue st').
Proof.
  intros H. destruct (returncode st') eqn:E.
  - eapply cycle_exited; eauto.
  - eapply cycle_continue; eauto.
Qed.

Lemma cycle_body_spec (c : cycle) (st : state) :
  ∃ t ctl, cycle_body idle_sec hard_sec start c st = (t, Done ctl)
           ∧ cycle_spec' c st t ctl.
Proof.
  unfold cycle_body.
  destruct (hard_x c) eqn:Hh.
  { eexists _, _. split; [reflexivity|]. now apply cycle_hard. }
  destruct (cy_events c) as [|ev evs] eqn:Hev.
  - destruct (idle_x c st) eqn:Hi.
    + eexists _, _. split; [reflexivity|]. now apply cycle_idle.
    + eexists _, _. split; [reflexivity|].
      apply cycle_spec_polled. unfold polled.
      rewrite Hh, Hev, Hi, timed_out_poll, returncode_poll, last_poll.
      auto 10.
  - destruct (read_events_spec xctest_pid_re (ev :: evs) st)
      as (t & st1 & E & Hw & Hrc & Hto & Hl).
    rewrite E, bind_Done. cbn [trace_of result_of fst snd mret M_ret].
    rewrite app_nil_r.
    eexists _, _. split; [reflexivity|].
    apply cycle_spec_polled. unfold polled.
    rewrite Hh, Hev, timed_out_poll, returncode_poll, last_poll, Hrc.
    repeat split; auto. discriminate.
Qed.

(** ** The monitoring loop (lines 67-104) *)

Lemma monitor_sound (script : list cycle) (st : state) :
  ∃ t r, monitor' script st = (t, r) ∧ monitor_spec' script st t r.
Proof.
  revert st. induction script as [|c script IH]; intros st; simpl.
  - eexists _, _. split; [reflexivity | constructor].
  - destruct (cycle_body_spec c st) as (t & ctl & E & Hc).
    rewrite E, bind_Done. destruct ctl as [st'|st'].
    + cbn. rewrite app_nil_r. eexists _, _. split; [reflexivity|].
      now apply monitor_break.
    + destruct (IH st') as (t' & r & E' & Hm). rewrite E'. cbn.
      eexists _, _. split; [reflexivity|].
      eapply monitor_next; eauto.
Qed.

End LoopFacts.

(** ** Outcomes of the loop *)

Lemma timeouts_writes (t : trace) : Forall is_write t → timeouts t = [].
Proof.
  induction 1 as [|e t He _ IH]; [reflexivity|].
  destruct e; try destruct He. exact IH.
Qed.

Lemma timeouts_app (t t' : trace) :
  timeouts (t ++ t') = timeouts t ++ timeouts t'.
Proof. apply omap_app. Qed.

Section OutcomeFacts.
Variables (idle_sec hard_sec : Z) (start : Q).

Local Abbreviation cycle_spec' := (cycle_spec idle_sec hard_sec start).
Local Abbreviation monitor_spec' := (monitor_spec idle_sec hard_sec start).
Local Abbreviation monitor' := (monitor idle_sec hard_sec start).

Lemma cycle_spec_effects c st t ctl :
  cycle_spec' c st t ctl → Forall loop_effect t.
Proof.
  unfold loop_effect.
  destruct 1 as [?|? ? ?|t st' code (_ & _ & Hw & _) _|t st' (_ & _ & Hw & _) _].
  - constructor; [auto | constructor].
  - constructor; [auto | constructor].
  - eapply Forall_impl; [exact Hw|]. auto.
  - eapply Forall_impl; [exact Hw|]. auto.
Qed.

Lemma monitor_spec_effects script st t r :
  monitor_spec' script st t r → Forall loop_effect t.
Proof.
  induction 1 as [|c script st t st' Hc|c script st t st' t' r Hc _ IH].
  - constructor.
  - eapply cycle_spec_effects; eauto.
  - apply Forall_app. split; [eapply cycle_spec_effects; eauto | exact IH].
Qed.

Lemma monitor_spec_outcome script st t r :
  monitor_spec' script st t r →
  returncode st = None → timed_out st = false →
  match r with
  | Done st' => ∃ o, ended t st' o
  | Raised _ => False
  | Monitoring => Forall is_write t
  end.
Proof.
  induction 1 as [|c script st t st' Hc|c script st t st' t' r Hc _ IH];
    intros Hrc Hto.
  - constructor.
  - inversion Hc as [Hh|Hh Hev Hi|t0 st0 code Hp Hcode|]; subst.
    + exists HardTimeout. constructor; auto.
    + exists IdleTimeout. constructor; auto.
    + destruct Hp as (_ & _ & Hw & _ & Hto' & _).
      exists (NormalExit code). constructor; auto.
      * now apply timeouts_writes.
      * congruence.
  - inversion Hc as [| | |t0 st0 Hp Hnone]; subst.
    destruct Hp as (_ & _ & Hw & _ & Hto' & _).
    assert (Hr : match r with
                 | Done st'0 => ∃ o, ended t' st'0 o
                 | Raised _ => False
                 | Monitoring => Forall is_write t'
                 end) by (apply IH; congruence).
    destruct r as [st1|e|]; [|exact Hr|].
    + destruct Hr as [o Ho]. exists o.
      destruct Ho as [H1 H2 H3|H1 H2 H3|code H1 H2 H3];
        constructor; auto; rewrite timeouts_app, (timeouts_writes t Hw); auto.
    + apply Forall_app. auto.
Qed.

End OutcomeFacts.

(** ** The escalation (lines 125-149) *)

Section Escalation.
Variables (sample_on_timeout : bool) (sample_seconds : Z) (w : world).

Local Abbreviation sample_step' :=
  (sample_step sample_on_timeout sample_seconds w).
Local Abbreviation terminate' := (terminate sample_on_timeout sample_seconds w).
Local Abbreviation terminate_spec' :=
  (terminate_spec sample_on_timeout sample_seconds w).

Lemma poll_None (st : state) : returncode st = None → poll None st = st.
Proof. destruct st; simpl; intros ->; reflexivity. Qed.

Lemma pid_exists_eq (pid : Z) :
  pid_exists w pid = ([Probe pid], Done (alive w pid)).
Proof. unfold pid_exists, alive. cbn. destruct (w_kill0 w pid); reflexivity. Qed.

Lemma sample_pid_Done (pid seconds : Z) :
  result_of (sample_pid w pid seconds) = Done tt.
Proof.
  unfold sample_pid. destruct (w_sample w) as [[]|]; reflexivity.
Qed.

Lemma choose_child_Done :
  ∃ t o, choose_child sample_seconds w = (t, Done o).
Proof.
  unfold choose_child. rewrite pid_exists_eq, bind_Done.
  destruct (alive w (w_pid w)); eexists _, _; reflexivity.
Qed.

Lemma choose_target_Done (st : state) :
  ∃ t o, choose_target sample_seconds w st = (t, Done o).
Proof.
  unfold choose_target. destruct (xctest_pid st) as [p|];
    [|apply choose_child_Done].
  destruct (Py.truthy_int p); [|apply choose_child_Done].
  rewrite pid_exists_eq, bind_Done. destruct (alive w p).
  - eexists _, _; reflexivity.
  - destruct choose_child_Done as (t & o & ->). eexists _, _; reflexivity.
Qed.

Lemma sample_step_Done (st : state) : result_of (sample_step' st) = Done tt.
Proof.
  unfold sample_step. destruct sample_on_timeout; [|reflexivity].
  destruct (choose_target_Done st) as (t & o & ->). rewrite bind_Done.
  cbn [result_of snd]. destruct o as [p|]; [|reflexivity].
  destruct (Py.truthy_int p); [apply sample_pid_Done | reflexivity].
Qed.

Lemma grace_wait_spec (n i : nat) (st : state) :
  returncode st = None →
  ∃ k st', grace_wait w n i st = (replicate k Sleep, Done st')
    ∧ (k ≤ n)%nat
    ∧ timed_out st' = timed_out st
    ∧ (returncode st' = None → k = n)
    ∧ (returncode st' = None
       ↔ ∀ j, (j < n)%nat → w_grace_polls w (i + j) = None).
Proof.
  revert i st. induction n as [|n IH]; intros i st Hrc; simpl.
  - exists 0%nat, st. repeat split; auto; intros; lia.
  - destruct (returncode (poll (w_grace_polls w i) st)) as [code|] eqn:E.
    + exists 0%nat, (poll (w_grace_polls w i) st).
      split; [reflexivity|]. split; [lia|].
      split; [apply timed_out_poll|]. split; [congruence|].
      split; [congruence|]. intros H. specialize (H 0%nat ltac:(lia)).
      rewrite Nat.add_0_r in H. rewrite returncode_poll, Hrc in E. congruence.
    + destruct (IH (S i) (poll (w_grace_polls w i) st) E)
        as (k & st' & Eg & Hk & Hto & Hn & Hiff).
      exists (S k), st'. rewrite Eg.
      split; [reflexivity|]. split; [lia|].
      split; [rewrite Hto; apply timed_out_poll|].
      split; [intros H; rewrite (Hn H); reflexivity|].
      split.
      * intros H j Hj. destruct j as [|j].
        -- rewrite returncode_poll, Hrc in E. now rewrite Nat.add_0_r.
        -- replace (i + S j)%nat with (S i + j)%nat by lia.
           apply Hiff; [exact H | lia].
      * intros H. apply Hiff. intros j Hj.
        replace (S i + j)%nat with (i + S j)%nat by lia. apply H. lia.
Qed.

Lemma terminate_spec_eq (st : state) (t t' : trace) (r r' : result state) :
  terminate_spec' st t r → t = t' → r = r' → terminate_spec' st t' r'.
Proof. intros H <- <-. exact H. Qed.

Lemma handler_eq (st : state) :
  (_ ← kill_tree (w_pid w) SIGKILL (w_killpg_handler w); mret st)
  = ([Killpg (w_pid w) SIGKILL], handler_result w st).
Proof.
  rewrite kill_tree_eq. unfold handler_result.
  destruct (w_killpg_handler w) as [[]|]; reflexivity.
Qed.

Lemma terminate_sound (st : state) :
  ∃ t r, terminate' st = (t, r) ∧ terminate_spec' st t r.
Proof.
  unfold terminate. destruct (timed_out st) eqn:Hto.
  2:{ eexists _, _. split; [reflexivity|]. now apply term_no_timeout. }
  destruct (returncode (poll (w_poll_guard w) st)) as [code|] eqn:E.
  { eexists _, _. split; [reflexivity|]. eapply term_exited; eauto. }
  assert (Hrc : returncode st = None).
  { rewrite returncode_poll in E. destruct (returncode st); congruence. }
  assert (Hg : w_poll_guard w = None).
  { rewrite returncode_poll, Hrc in E. exact E. }
  rewrite Hg, (poll_None st Hrc), handler_eq.
  pose proof (sample_step_Done st) as Hs.
  destruct (sample_step' st) as [ts rs] eqn:Es. cbn in Hs. subst rs.
  rewrite bind_Done, emit_bind, answer_bind.
  destruct (w_killpg_term w) as [e|] eqn:Et.
  - cbn [trace_of result_of fst snd]. rewrite try_except_Raised.
    cbn [trace_of result_of fst snd].
    eexists _, _. split; [reflexivity|].
    eapply terminate_spec_eq; [eapply term_sigterm_raises; eauto | |].
    + rewrite Es. cbn. rewrite <- app_assoc. reflexivity.
    + reflexivity.
  - destruct (grace_wait_spec 10 0 st Hrc) as (k & st' & Eg & Hk & _ & Hn & _).
    rewrite Eg, bind_Done.
    destruct (returncode (poll (w_poll_after w) st')) as [code|] eqn:Ea.
    + cbn [mret M_ret trace_of result_of fst snd]. rewrite try_except_Done.
      eexists _, _. split; [reflexivity|].
      eapply terminate_spec_eq; [eapply term_graceful; eauto | |reflexivity].
      rewrite Es. cbn. rewrite ?app_nil_r. reflexivity.
    + assert (Hst' : returncode st' = None).
      { rewrite returncode_poll in Ea. destruct (returncode st'); congruence. }
      specialize (Hn Hst'). subst k. rewrite kill_tree_eq.
      destruct (w_killpg_kill w) as [e|] eqn:Ek.
      * destruct (decide (e = ProcessLookupError)) as [->|Hne].
        -- rewrite bind_Done. cbn [mret M_ret trace_of result_of fst snd].
           rewrite try_except_Done.
           eexists _, _. split; [reflexivity|].
           eapply terminate_spec_eq;
             [eapply term_killed; eauto; right; exact Ek | |reflexivity].
           rewrite Es. cbn. reflexivity.
        -- assert (Er : match e with
                        | ProcessLookupError => Done ()
                        | _ => Raised e
                        end = Raised e) by (destruct e; congruence).
           rewrite Er, bind_Raised. cbn [trace_of result_of fst snd].
           rewrite try_except_Raised. cbn [trace_of result_of fst snd].
           eexists _, _. split; [reflexivity|].
           eapply terminate_spec_eq;
             [eapply term_kill_raises; eauto | |reflexivity].
           rewrite Es. cbn. rewrite <- app_assoc. reflexivity.
      * rewrite bind_Done. cbn [mret M_ret trace_of result_of fst snd].
        rewrite try_except_Done.
        eexists _, _. split; [reflexivity|].
        eapply terminate_spec_eq;
          [eapply term_killed; eauto; left; exact Ek | |reflexivity].
        rewrite Es. cbn. reflexivity.
Qed.

(** The sampling step sends no signal, records no timeout and does not
    sleep; it runs the tool at most once. *)
Lemma sample_step_quiet (st : state) :
  let ts := trace_of (sample_step' st) in
  signals ts = [] ∧ timeouts ts = [] ∧ sleeps ts = 0%nat
  ∧ (length (samples ts) ≤ 1)%nat.
Proof.
  unfold sample_step, choose_target, choose_child, sample_pid.
  destruct sample_on_timeout; [|cbn; repeat split; try reflexivity; lia].
  repeat match goal with
    | |- context [pid_exists w ?q] => rewrite (pid_exists_eq q)
    | |- context [if Py.truthy_int ?q then _ else _] =>
        destruct (Py.truthy_int q)
    | |- context [if alive w ?q then _ else _] => destruct (alive w q)
    | |- context [match xctest_pid st with _ => _ end] =>
        destruct (xctest_pid st)
    | |- context [answer (w_sample w)] => destruct (w_sample w) as [[]|]
    | _ => rewrite bind_Done
    | _ => progress cbn
    end;
    repeat split; try reflexivity; lia.
Qed.

(** The target that the code samples is the preferred one. *)
Lemma sample_step_target (st : state) :
  sample_on_timeout = true →
  xctest_pid st ≠ Some 0 → w_pid w ≠ 0 →
  samples (trace_of (sample_step' st))
  = match preferred_target w (xctest_pid st) with
    | Some p => [(p, sample_seconds)]
    | None => []
    end.
Proof.
  intros -> Hx Hp.
  assert (Hpid : Py.truthy_int (w_pid w) = true).
  { unfold Py.truthy_int. apply negb_true_iff, Z.eqb_neq, Hp. }
  unfold sample_step, choose_target, choose_child, sample_pid,
    preferred_target.
  destruct (xctest_pid st) as [p|].
  - assert (Hp' : Py.truthy_int p = true).
    { unfold Py.truthy_int. apply negb_true_iff, Z.eqb_neq. congruence. }
    repeat match goal with
      | |- context [pid_exists w ?q] => rewrite (pid_exists_eq q)
      | |- context [Py.truthy_int p] => rewrite Hp'
      | |- context [Py.truthy_int (w_pid w)] => rewrite Hpid
      | |- context [if alive w ?q then _ else _] => destruct (alive w q)
      | |- context [answer (w_sample w)] => destruct (w_sample w) as [[]|]
      | _ => rewrite bind_Done
      | _ => progress cbn
      end; reflexivity.
  - repeat match goal with
      | |- context [pid_exists w ?q] => rewrite (pid_exists_eq q)
      | |- context [Py.truthy_int (w_pid w)] => rewrite Hpid
      | |- context [if alive w ?q then _ else _] => destruct (alive w q)
      | |- context [answer (w_sample w)] => destruct (w_sample w) as [[]|]
      | _ => rewrite bind_Done
      | _ => progress cbn
      end; reflexivity.
Qed.

End Escalation.

(** ** Draining (lines 151-159) and the exit code (lines 161-163) *)

Lemma drain_eq (w : world) (st : state) :
  drain w st = (drained w, Done (after_drain w st)).
Proof.
  unfold drain, drained, forwarded, after_drain.
  destruct (w_communicate w) as [out err status|e].
  - destruct (Py.truthy_str out), (Py.truthy_str err); reflexivity.
  - reflexivity.
Qed.

Lemma drained_writes (w : world) : Forall is_write (drained w).
Proof.
  unfold drained, forwarded. destruct (w_communicate w) as [out err status|e];
    [|constructor].
  destruct (Py.truthy_str out), (Py.truthy_str err);
    repeat constructor.
Qed.

Lemma or_zero_Some (n : Z) : Py.or_zero (Some n) = n.
Proof.
  unfold Py.or_zero, Py.truthy_int. destruct (Z.eqb_spec n 0); simpl; congruence.
Qed.

(** Once the loop has ended, the drain does not change the exit code. *)
Lemma drain_exit_code (w : world) (st : state) :
  timed_out st = true ∨ (∃ code, returncode st = Some code) →
  exit_code (after_drain w st) = exit_code st.
Proof.
  intros H. unfold after_drain.
  destruct (w_communicate w) as [out err status|e]; [|reflexivity].
  unfold exit_code. rewrite timed_out_poll.
  destruct H as [->|[code Hc]]; [reflexivity|].
  rewrite returncode_poll, Hc. reflexivity.
Qed.

Lemma signals_app (t t' : trace) : signals (t ++ t') = signals t ++ signals t'.
Proof. apply omap_app. Qed.

Lemma samples_app (t t' : trace) : samples (t ++ t') = samples t ++ samples t'.
Proof. apply omap_app. Qed.

Lemma sleeps_app (t t' : trace) : sleeps (t ++ t') = (sleeps t + sleeps t')%nat.
Proof. unfold sleeps. rewrite omap_app, length_app. reflexivity. Qed.

Lemma writes_quiet (t : trace) :
  Forall is_write t →
  signals t = [] ∧ samples t = [] ∧ sleeps t = 0%nat ∧ timeouts t = [].
Proof.
  induction 1 as [|e t He _ IH]; [repeat split|].
  destruct e; try destruct He. exact IH.
Qed.

Lemma loop_effects_quiet (t : trace) :
  Forall loop_effect t →
  signals t = [] ∧ samples t = [] ∧ sleeps t = 0%nat.
Proof.
  induction 1 as [|e t He _ IH]; [repeat split|].
  destruct He as [He|[->| ->]]; [|exact IH..].
  destruct e; try destruct He. exact IH.
Qed.

Lemma signals_sleep (k : nat) :
  signals (replicate k Sleep) = [] ∧ sleeps (replicate k Sleep) = k
  ∧ timeouts (replicate k Sleep) = [] ∧ samples (replicate k Sleep) = [].
Proof.
  induction k as [|k (H1 & H2 & H3 & H4)]; [repeat split|].
  repeat split; auto. unfold sleeps in *. cbn. now rewrite H2.
Qed.

(** ** The whole run *)

Lemma grace_wait_keeps (w : world) (n i : nat) (st : state) :
  ∃ t st', grace_wait w n i st = (t, Done st')
           ∧ timed_out st' = timed_out st.
Proof.
  revert i st. induction n as [|n IH]; intros i st; cbn [grace_wait].
  - eexists _, _. split; reflexivity.
  - destruct (returncode (poll (w_grace_polls w i) st)).
    + eexists _, _. split; [reflexivity | apply timed_out_poll].
    + destruct (IH (S i) (poll (w_grace_polls w i) st)) as (t & st' & E & H).
      rewrite emit_bind, E. eexists _, _. split; [reflexivity|].
      rewrite H. apply timed_out_poll.
Qed.

Lemma handler_result_Done (w : world) (st st' : state) :
  handler_result w st = Done st' → st' = st ∧ benign (w_killpg_handler w).
Proof.
  unfold handler_result, benign.
  destruct (w_killpg_handler w) as [[]|]; intros [=]; auto.
Qed.

Lemma handler_result_Raised (w : world) (st : state) (e : exn) :
  handler_result w st = Raised e →
  w_killpg_handler w = Some e ∧ e ≠ ProcessLookupError.
Proof.
  unfold handler_result.
  destruct (w_killpg_handler w) as [[]|]; intros [=]; subst; auto.
Qed.

Lemma handler_result_not_Monitoring (w : world) (st : state) :
  handler_result w st ≠ Monitoring.
Proof.
  unfold handler_result. destruct (w_killpg_handler w) as [[]|]; discriminate.
Qed.

Section RunFacts.
Variables (idle_sec hard_sec : Z) (sample_on_timeout : bool)
          (sample_seconds : Z) (cmd : list string) (w : world).

Local Abbreviation loop :=
  (monitor idle_sec hard_sec (w_start w) (w_script w) (fresh w)).
Local Abbreviation run :=
  (run_with_timeouts idle_sec hard_sec sample_on_timeout sample_seconds cmd w).
Local Abbreviation terminate' := (terminate sample_on_timeout sample_seconds w).
Local Abbreviation terminate_spec' :=
  (terminate_spec sample_on_timeout sample_seconds w).

Lemma terminate_spec_timed_out (st st' : state) (t : trace) :
  terminate_spec' st t (Done st') → timed_out st' = timed_out st.
Proof.
  inversion 1 as [Hto|code Hto Hc|e Hto Hrc Hg He Ht Hr
                 |k st1 code Hto Hrc Hg He Eg Hc
                 |st1 Hto Hrc Hg He Eg Hc Hb
                 |st1 e Hto Hrc Hg He Eg Hc Hk Hne Ht Hr]; subst.
  - reflexivity.
  - apply timed_out_poll.
  - apply handler_result_Done in Hr as [-> _]. reflexivity.
  - rewrite timed_out_poll.
    destruct (grace_wait_keeps w 10 0 st) as (t' & st2 & E & H').
    congruence.
  - rewrite timed_out_poll.
    destruct (grace_wait_keeps w 10 0 st) as (t' & st2 & E & H').
    congruence.
  - apply handler_result_Done in Hr as [-> _]. reflexivity.
Qed.

Lemma terminate_spec_not_Monitoring (st : state) (t : trace) :
  ¬ terminate_spec' st t Monitoring.
Proof.
  inversion 1 as [| |e Hto Hrc Hg He Ht Hr| |
                 |st1 e Hto Hrc Hg He Eg Hc Hk Hne Ht Hr];
    now apply handler_result_not_Monitoring in Hr.
Qed.

(** The run is the loop, the escalation, the drain and the exit code. *)
Lemma run_pending (t : trace) : loop = (t, Monitoring) → run = (t, Monitoring).
Proof. unfold run_with_timeouts, fresh. intros ->. reflexivity. Qed.

Lemma run_ended (t1 t2 : trace) (st1 : state) (r2 : result state) :
  loop = (t1, Done st1) → terminate' st1 = (t2, r2) →
  run = match r2 with
        | Done st2 =>
            (t1 ++ t2 ++ drained w, Done (exit_code (after_drain w st2)))
        | Raised e => (t1 ++ t2, Raised e)
        | Monitoring => (t1 ++ t2, Monitoring)
        end.
Proof.
  unfold run_with_timeouts, fresh. intros -> H2.
  rewrite bind_Done, H2. destruct r2 as [st2|e|].
  - rewrite bind_Done, drain_eq, bind_Done. cbn. rewrite app_nil_r.
    reflexivity.
  - reflexivity.
  - reflexivity.
Qed.

End RunFacts.

(** ** The loop stops at the first condition it detects *)

Section Prefix.
Variables (idle_sec hard_sec : Z) (start : Q).

Local Abbreviation monitor' := (monitor idle_sec hard_sec start).

(** Cycles after the one that ends the loop are never run. *)
Lemma monitor_app_Done (pre rest : list cycle) (st st' : state) (t : trace) :
  monitor' pre st = (t, Done st') → monitor' (pre ++ rest) st = (t, Done st').
Proof.
  revert st t. induction pre as [|c pre IH]; intros st t; cbn [monitor app].
  - discriminate.
  - destruct (cycle_body_spec idle_sec hard_sec start c st)
      as (tc & ctl & E & _).
    rewrite E, !bind_Done. destruct ctl as [st1|st1].
    + trivial.
    + destruct (monitor' pre st1) as [t1 r1] eqn:E1.
      cbn [trace_of result_of fst snd]. intros [= <- ->].
      rewrite (IH _ _ E1). reflexivity.
Qed.

(** A loop that has not ended goes on with the cycles that follow. *)
Lemma monitor_app_Monitoring (pre : list cycle) (st : state) (t : trace) :
  monitor' pre st = (t, Monitoring) →
  ∃ st_k, timed_out st_k = timed_out st
    ∧ (returncode st = None → returncode st_k = None)
    ∧ last st_k = last_output pre (last st)
    ∧ ∀ rest, monitor' (pre ++ rest) st
              = (t ++ trace_of (monitor' rest st_k),
                 result_of (monitor' rest st_k)).
Proof.
  revert st t. induction pre as [|c pre IH]; intros st t;
    cbn [monitor app last_output fold_left].
  - intros [= <-]. exists st. repeat split; auto. intros rest.
    symmetry. apply M_eta.
  - destruct (cycle_body_spec idle_sec hard_sec start c st)
      as (tc & ctl & E & Hc).
    rewrite E, bind_Done. destruct ctl as [st1|st1]; [discriminate|].
    destruct (monitor' pre st1) as [t1 r1] eqn:E1.
    cbn [trace_of result_of fst snd]. intros [= <- ->].
    destruct (IH _ _ E1) as (st_k & Hto & Hrc & Hlast & Happ).
    inversion Hc as [| | |t0 st0 (_ & _ & _ & _ & Hto1 & _ & Hl1) Hnone]; subst.
    exists st_k. split; [congruence|]. split; [auto|].
    split; [rewrite Hlast, Hl1; reflexivity|].
    intros rest. rewrite bind_Done, Happ. cbn [trace_of result_of fst snd].
    rewrite app_assoc. reflexivity.
Qed.

Lemma cycle_body_hard (c : cycle) (st : state) :
  hard_exceeded hard_sec start c = true →
  cycle_body idle_sec hard_sec start c st
  = ([Print HardLimitExceeded], Done (Break (set_timed_out st))).
Proof. unfold cycle_body. intros ->. reflexivity. Qed.

Lemma cycle_body_idle (c : cycle) (st : state) :
  hard_exceeded hard_sec start c = false → cy_events c = [] →
  idle_exceeded idle_sec c st = true →
  cycle_body idle_sec hard_sec start c st
  = ([Print IdleLimitExceeded], Done (Break (set_timed_out st))).
Proof.
  unfold cycle_body. intros -> -> ->. reflexivity.
Qed.

End Prefix.

(** ** A [readline()] that does not return *)

Section Upto.
Variables (idle_sec hard_sec : Z) (start : Q).

Local Abbreviation monitor' := (monitor idle_sec hard_sec start).
Local Abbreviation monitor_upto' := (monitor_upto idle_sec hard_sec start).

Lemma monitor_upto_None (script : list cycle) (st : state) :
  monitor_upto' script None st = monitor' script st.
Proof.
  revert st. induction script as [|c script IH]; intros st;
    cbn [monitor monitor_upto]; [reflexivity|].
  destruct (cycle_body idle_sec hard_sec start c st) as [t [[st'|st']|e|]];
    rewrite ?bind_Done, ?IH; reflexivity.
Qed.

(** An interruption after the cycle that ends the loop is never met. *)
Lemma monitor_upto_Done (script : list cycle) (i : option interruption)
    (st st' : state) (t : trace) :
  monitor' script st = (t, Done st') →
  monitor_upto' script i st = (t, Done st').
Proof.
  revert st t. induction script as [|c script IH]; intros st t;
    cbn [monitor monitor_upto].
  - discriminate.
  - destruct (cycle_body_spec idle_sec hard_sec start c st)
      as (tc & ctl & E & _).
    rewrite E, !bind_Done. destruct ctl as [st1|st1].
    + trivial.
    + destruct (monitor' script st1) as [t1 r1] eqn:E1.
      cbn [trace_of result_of fst snd]. intros [= <- ->].
      rewrite (IH _ _ E1). reflexivity.
Qed.

(** A loop that has not ended after its cycles meets the interruption. *)
Lemma monitor_upto_Monitoring (script : list cycle) (st : state) (t : trace) :
  monitor' script st = (t, Monitoring) →
  ∃ st_k,
    (∀ i, monitor_upto' script (Some i) st
          = (t ++ trace_of (interrupted hard_sec start i st_k),
             result_of (interrupted hard_sec start i st_k)))
    ∧ ∀ rest, monitor' (script ++ rest) st
              = (t ++ trace_of (monitor' rest st_k),
                 result_of (monitor' rest st_k)).
Proof.
  revert st t. induction script as [|c script IH]; intros st t;
    cbn [monitor monitor_upto app].
  - intros [= <-]. exists st. split; intros x; symmetry; apply M_eta.
  - destruct (cycle_body_spec idle_sec hard_sec start c st)
      as (tc & ctl & E & Hc).
    rewrite E, bind_Done. destruct ctl as [st1|st1]; [discriminate|].
    destruct (monitor' script st1) as [t1 r1] eqn:E1.
    cbn [trace_of result_of fst snd]. intros [= <- ->].
    destruct (IH _ _ E1) as (st_k & Hup & Happ).
    exists st_k. split.
    + intros i. rewrite bind_Done, Hup. cbn [trace_of result_of fst snd].
      rewrite app_assoc. reflexivity.
    + intros rest. rewrite bind_Done, Happ. cbn [trace_of result_of fst snd].
      rewrite app_assoc. reflexivity.
Qed.

End Upto.

Section RunUpto.
Variables (idle_sec hard_sec : Z) (sample_on_timeout : bool)
          (sample_seconds : Z) (cmd : list string) (w : world).

Local Abbreviation loop :=
  (monitor idle_sec hard_sec (w_start w) (w_script w) (fresh w)).
Local Abbreviation run :=
  (run_with_timeouts idle_sec hard_sec sample_on_timeout sample_seconds cmd w).
Local Abbreviation run_upto :=
  (run_with_timeouts_upto idle_sec hard_sec sample_on_timeout sample_seconds
     cmd w).

Lemma run_upto_None : run_upto None = run.
Proof.
  unfold run_with_timeouts_upto, run_with_timeouts.
  rewrite monitor_upto_None. reflexivity.
Qed.

(** A run whose loop ends within the cycles of the world is the same
    whatever follows them. *)
Lemma run_upto_Done (i : option interruption) (st : state) :
  result_of loop = Done st → run_upto i = run.
Proof.
  intros Er. destruct loop as [t r] eqn:El. cbn [result_of snd] in Er.
  subst r. unfold run_with_timeouts_upto, run_with_timeouts. unfold fresh in El.
  rewrite El, (monitor_upto_Done _ _ _ _ i _ _ _ El). reflexivity.
Qed.

End RunUpto.

(** ** Timeouts of the run *)

Section SingleOutcome.
Variables (idle_sec hard_sec : Z) (sample_on_timeout : bool)
          (sample_seconds : Z) (cmd : list string) (w : world).

Local Abbreviation loop :=
  (monitor idle_sec hard_sec (w_start w) (w_script w) (fresh w)).
Local Abbreviation run :=
  (run_with_timeouts idle_sec hard_sec sample_on_timeout sample_seconds cmd w).

(** The escalation records no timeout. *)
Lemma terminate_spec_timeouts (st : state) (t : trace) (r : result state) :
  terminate_spec sample_on_timeout sample_seconds w st t r → timeouts t = [].
Proof.
  pose proof (sample_step_quiet sample_on_timeout sample_seconds w st)
    as (_ & Hs & _).
  destruct 1; rewrite ?timeouts_app, ?Hs; try reflexivity.
  cbn. apply (signals_sleep k).
Qed.

(** How the loop ends, from the state on entry. *)
Lemma loop_outcome :
  match result_of loop with
  | Done st => ∃ o, ended (trace_of loop) st o
  | Raised _ => False
  | Monitoring => Forall is_write (trace_of loop)
  end.
Proof.
  destruct (monitor_sound idle_sec hard_sec (w_start w) (w_script w) (fresh w))
    as (t & r & E & Hm).
  rewrite E. eapply monitor_spec_outcome; [exact Hm | reflexivity..].
Qed.

Lemma run_timeouts : timeouts (trace_of run) = timeouts (trace_of loop).
Proof.
  pose proof loop_outcome as Ho.
  destruct loop as [t1 [st1|e|]] eqn:El; cbn [trace_of result_of fst snd] in *.
  - destruct (terminate_sound sample_on_timeout sample_seconds w st1)
      as (t2 & r2 & E2 & H2).
    rewrite (run_ended _ _ _ _ _ _ _ _ _ _ El E2).
    pose proof (terminate_spec_timeouts _ _ _ H2) as Ht2.
    destruct r2 as [st2|e|]; cbn [trace_of fst];
      rewrite !timeouts_app, Ht2, ?app_nil_r; try reflexivity.
    destruct (writes_quiet _ (drained_writes w)) as (_ & _ & _ & ->).
    now rewrite app_nil_r.
  - destruct Ho.
  - rewrite (run_pending _ _ _ _ _ _ _ El). reflexivity.
Qed.

End SingleOutcome.

(** ** The run seen from the escalation *)

Section RunView.
Variables (idle_sec hard_sec : Z) (sample_on_timeout : bool)
          (sample_seconds : Z) (cmd : list string) (w : world).

Local Abbreviation loop :=
  (monitor idle_sec hard_sec (w_start w) (w_script w) (fresh w)).
Local Abbreviation run :=
  (run_with_timeouts idle_sec hard_sec sample_on_timeout sample_seconds cmd w).
Local Abbreviation terminate_spec' :=
  (terminate_spec sample_on_timeout sample_seconds w).

(** The loop and the drain send no signal, take no sample and do not sleep:
    what the run does of these, the escalation does. *)
Lemma run_view (st1 : state) :
  result_of loop = Done st1 →
  ∃ t2 r2, terminate_spec' st1 t2 r2
    ∧ signals (trace_of run) = signals t2
    ∧ sleeps (trace_of run) = sleeps t2
    ∧ samples (trace_of run) = samples t2
    ∧ result_of run
      = match r2 with
        | Done st2 => Done (exit_code (after_drain w st2))
        | Raised e => Raised e
        | Monitoring => Monitoring
        end.
Proof.
  intros Er.
  destruct (monitor_sound idle_sec hard_sec (w_start w) (w_script w) (fresh w))
    as (t1 & r1 & El & Hm).
  rewrite El in Er. cbn in Er. subst r1.
  destruct (loop_effects_quiet _ (monitor_spec_effects _ _ _ _ _ _ _ Hm))
    as (Hs1 & Hp1 & Hz1).
  destruct (terminate_sound sample_on_timeout sample_seconds w st1)
    as (t2 & r2 & E2 & H2).
  exists t2, r2. split; [exact H2|].
  rewrite (run_ended _ _ _ _ _ _ _ _ _ _ El E2).
  destruct (writes_quiet _ (drained_writes w)) as (Hs3 & Hp3 & Hz3 & _).
  destruct r2 as [st2|e|]; cbn [trace_of result_of fst snd];
    rewrite ?signals_app, ?sleeps_app, ?samples_app, ?Hs1, ?Hp1, ?Hz1,
      ?Hs3, ?Hp3, ?Hz3, ?app_nil_r, ?Nat.add_0_r; auto.
Qed.

End RunView.

(** ** The end of the escalation *)

Section Escalated.
Variables (sample_on_timeout : bool) (sample_seconds : Z) (w : world).

Local Abbreviation terminate_spec' :=
  (terminate_spec sample_on_timeout sample_seconds w).

(** After a timeout, with the child still running, the first signal is
    SIGTERM; with the child gone, there is none. *)
Lemma terminate_spec_first_signal (st : state) (t : trace) (r : result state) :
  terminate_spec' st t r → timed_out st = true → returncode st = None →
  match w_poll_guard w with
  | None => head (signals t) = Some SIGTERM
  | Some _ => signals t = []
  end.
Proof.
  pose proof (sample_step_quiet sample_on_timeout sample_seconds w st)
    as (Hs & _).
  destruct 1 as [Hto|code Hto Hc|e Hto Hrc Hg He
                |k st1 code Hto Hrc Hg He Eg Hc
                |st1 Hto Hrc Hg He Eg Hc Hb
                |st1 e Hto Hrc Hg He Eg Hc Hk Hne]; intros Hto' Hrc';
    try rewrite Hg; rewrite ?signals_app, ?Hs; try reflexivity.
  - congruence.
  - rewrite returncode_poll, Hrc' in Hc. rewrite Hc. reflexivity.
Qed.

(** The escalation ends; it raises only what the handler's signal raises. *)
Lemma terminate_spec_result (st : state) (t : trace) (r : result state) :
  terminate_spec' st t r →
  match r with
  | Done st' => timed_out st' = timed_out st
  | Raised e => w_killpg_handler w = Some e ∧ e ≠ ProcessLookupError
  | Monitoring => False
  end.
Proof.
  intros H. destruct r as [st'|e|].
  - eapply terminate_spec_timed_out; eauto.
  - inversion H as [| |e' Hto Hrc Hg He Ht Hr| |
                   |st1 e' Hto Hrc Hg He Eg Hc Hk Hne Ht Hr];
      eapply handler_result_Raised; eauto.
  - eapply terminate_spec_not_Monitoring; eauto.
Qed.

Lemma terminate_spec_benign (st : state) (t : trace) (r : result state) :
  terminate_spec' st t r → benign (w_killpg_handler w) →
  ∃ st', r = Done st' ∧ timed_out st' = timed_out st.
Proof.
  intros H Hb. pose proof (terminate_spec_result _ _ _ H) as Hr.
  destruct r as [st'|e|].
  - eauto.
  - destruct Hr as [He Hne]. destruct Hb as [Hb|Hb]; congruence.
  - destruct Hr.
Qed.

End Escalated.

Lemma exit_code_timed_out (w : world) (st : state) :
  timed_out st = true → exit_code (after_drain w st) = 124.
Proof.
  intros H. rewrite drain_exit_code by auto. unfold exit_code. now rewrite H.
Qed.

Section Firing.
Variables (idle_sec hard_sec : Z) (start : Q).

Local Abbreviation monitor' := (monitor idle_sec hard_sec start).

(** A loop still running after the cycles [pre] has only forwarded output. *)
Lemma monitor_pending_state (pre : list cycle) (st : state) :
  result_of (monitor' pre st) = Monitoring →
  returncode st = None → timed_out st = false →
  ∃ t st_k, Forall is_write t
    ∧ returncode st_k = None ∧ timed_out st_k = false
    ∧ last st_k = last_output pre (last st)
    ∧ ∀ rest, monitor' (pre ++ rest) st
              = (t ++ trace_of (monitor' rest st_k),
                 result_of (monitor' rest st_k)).
Proof.
  intros Hr Hrc Hto.
  destruct (monitor_sound idle_sec hard_sec start pre st) as (t & r & E & Hm).
  rewrite E in Hr. cbn in Hr. subst r.
  pose proof (monitor_spec_outcome _ _ _ _ _ _ _ Hm Hrc Hto) as Hw.
  destruct (monitor_app_Monitoring _ _ _ _ _ _ E)
    as (st_k & H1 & H2 & H3 & H4).
  exists t, st_k. repeat split; auto. congruence.
Qed.

(** The cycle in which the hard limit is found exceeded ends the loop. *)
Lemma monitor_hard (pre post : list cycle) (c : cycle) (st : state) :
  result_of (monitor' pre st) = Monitoring →
  returncode st = None → timed_out st = false →
  hard_exceeded hard_sec start c = true →
  ∃ t st', Forall is_write t
    ∧ returncode st' = None ∧ timed_out st' = true
    ∧ monitor' (pre ++ c :: post) st = (t ++ [Print HardLimitExceeded], Done st').
Proof.
  intros Hr Hrc Hto Hh.
  destruct (monitor_pending_state pre st Hr Hrc Hto)
    as (t & st_k & Hw & Hrck & Htok & _ & Happ).
  exists t, (set_timed_out st_k). repeat split; auto.
  rewrite Happ. cbn [monitor]. rewrite (cycle_body_hard _ _ _ _ _ Hh).
  reflexivity.
Qed.

(** The cycle with nothing to read in which the idle limit is found exceeded
    (and the hard limit was not) ends the loop. *)
Lemma monitor_idle (pre post : list cycle) (c : cycle) (st : state) :
  result_of (monitor' pre st) = Monitoring →
  returncode st = None → timed_out st = false →
  hard_exceeded hard_sec start c = false → cy_events c = [] →
  idle_sec ≠ 0 →
  (inject_Z idle_sec < cy_now_idle c - last_output pre (last st))%Q →
  ∃ t st', Forall is_write t
    ∧ returncode st' = None ∧ timed_out st' = true
    ∧ monitor' (pre ++ c :: post) st = (t ++ [Print IdleLimitExceeded], Done st').
Proof.
  intros Hr Hrc Hto Hh Hev Hn Hlt.
  destruct (monitor_pending_state pre st Hr Hrc Hto)
    as (t & st_k & Hw & Hrck & Htok & Hlast & Happ).
  exists t, (set_timed_out st_k). repeat split; auto.
  rewrite Happ. cbn [monitor].
  rewrite (cycle_body_idle _ _ _ _ _ Hh Hev); [reflexivity|].
  unfold idle_exceeded, Py.truthy_int. apply andb_true_iff. split.
  - now apply negb_true_iff, Z.eqb_neq.
  - apply Qgtb_spec. now rewrite Hlast.
Qed.

End Firing.

Lemma hard_exceeded_true (hard_sec : Z) (start : Q) (c : cycle) :
  hard_sec ≠ 0 → (inject_Z hard_sec < cy_now c - start)%Q →
  hard_exceeded hard_sec start c = true.
Proof.
  intros Hn Hlt. unfold hard_exceeded, Py.truthy_int.
  apply andb_true_iff. split.
  - now apply negb_true_iff, Z.eqb_neq.
  - now apply Qgtb_spec.
Qed.

(** ** The status of a normal exit *)

Section ExitStatus.
Variables (idle_sec hard_sec : Z) (start : Q).

(** The status of a normal exit is the answer of a poll of the loop. *)
Lemma monitor_spec_status script st t st' code :
  monitor_spec idle_sec hard_sec start script st t (Done st') →
  returncode st = None → returncode st' = Some code →
  ∃ c, c ∈ script ∧ cy_poll c = Some code.
Proof.
  intros H. remember (Done st') as r eqn:Er.
  revert st' Er.
  induction H as [|c script st t st1 Hc|c script st t st1 t' r Hc _ IH];
    intros st' Er Hrc Hcode.
  - discriminate.
  - injection Er as ->.
    inversion Hc as [Hh|Hh Hev Hi|t0 st0 code0 Hp Hcode0|]; subst.
    + cbn in Hcode. congruence.
    + cbn in Hcode. congruence.
    + destruct Hp as (_ & _ & _ & _ & _ & Hrc' & _).
      rewrite Hrc in Hrc'. exists c. split; [left|congruence].
  - inversion Hc as [| | |t0 st0 Hp Hnone]; subst.
    destruct (IH st' eq_refl Hnone Hcode) as (c' & Hin & Hpoll).
    exists c'. split; [right; exact Hin | exact Hpoll].
Qed.

End ExitStatus.

(** ** The grace window *)

Lemma alive_after_grace_spec (w : world) :
  alive_after_grace w = true
  ↔ (∀ j, (j < 10)%nat → w_grace_polls w j = None) ∧ w_poll_after w = None.
Proof.
  unfold alive_after_grace. cbn [forallb seq].
  rewrite !andb_true_iff, !bool_decide_eq_true. split.
  - intros [(H0 & H1 & H2 & H3 & H4 & H5 & H6 & H7 & H8 & H9 & _) Ha].
    split; [|exact Ha]. intros j Hj.
    do 10 (destruct j as [|j]; [assumption|]). lia.
  - intros [H Ha]. split; [|exact Ha].
    repeat split; apply H; lia.
Qed.

Section Grace.
Variables (sample_on_timeout : bool) (sample_seconds : Z) (w : world).

Local Abbreviation terminate_spec' :=
  (terminate_spec sample_on_timeout sample_seconds w).

(** The child is found running after the grace window exactly when every
    poll of the window, and the poll after it, found it running. *)
Lemma grace_alive (k : nat) (st st' : state) :
  returncode st = None →
  grace_wait w 10 0 st = (replicate k Sleep, Done st') →
  (k ≤ 10)%nat
  ∧ (returncode (poll (w_poll_after w) st') = None
     ↔ alive_after_grace w = true).
Proof.
  intros Hrc Eg.
  destruct (grace_wait_spec w 10 0 st Hrc)
    as (k' & st'' & Eg' & Hk & _ & _ & Hiff).
  rewrite Eg in Eg'. injection Eg' as Hrep <-.
  apply (f_equal length) in Hrep. rewrite !length_replicate in Hrep. subst k'.
  split; [exact Hk|].
  rewrite alive_after_grace_spec, returncode_poll.
  destruct (returncode st') as [c|] eqn:E.
  - split; [discriminate|]. intros [H _]. apply Hiff in H. discriminate.
  - split.
    + intros Ha. split; [|exact Ha]. now apply Hiff.
    + tauto.
Qed.

Lemma terminate_spec_escalation (st : state) (t : trace) (r : result state) :
  terminate_spec' st t r →
  timed_out st = true → returncode st = None → w_poll_guard w = None →
  match w_killpg_term w with
  | Some _ => signals t = [SIGTERM; SIGKILL] ∧ sleeps t = 0%nat
  | None =>
      if alive_after_grace w
      then sleeps t = 10%nat
           ∧ (signals t = [SIGTERM; SIGKILL]
              ∨ signals t = [SIGTERM; SIGKILL; SIGKILL])
      else signals t = [SIGTERM] ∧ (sleeps t ≤ 10)%nat
  end.
Proof.
  pose proof (sample_step_quiet sample_on_timeout sample_seconds w st)
    as (Hs & _ & Hz & _).
  destruct 1 as [Hto|code Hto Hc|e Hto Hrc Hg He
                |k st1 code Hto Hrc Hg He Eg Hc
                |st1 Hto Hrc Hg He Eg Hc Hb
                |st1 e Hto Hrc Hg He Eg Hc Hk Hne]; intros Hto' Hrc' Hg'.
  - congruence.
  - rewrite returncode_poll, Hrc', Hg' in Hc. discriminate.
  - rewrite He, signals_app, sleeps_app, Hs, Hz. split; reflexivity.
  - rewrite He. destruct (grace_alive _ _ _ Hrc Eg) as [Hk Hiff].
    destruct (alive_after_grace w).
    + destruct Hiff as [_ Hiff]. rewrite Hiff in Hc by reflexivity.
      discriminate.
    + rewrite signals_app, sleeps_app, Hs, Hz.
      change (Killpg (w_pid w) SIGTERM :: replicate k Sleep)
        with ([Killpg (w_pid w) SIGTERM] ++ replicate k Sleep).
      rewrite signals_app, sleeps_app.
      destruct (signals_sleep k) as (-> & -> & _). split; [reflexivity|].
      cbn. lia.
  - rewrite He. destruct (grace_alive _ _ _ Hrc Eg) as [_ Hiff].
    apply Hiff in Hc. rewrite Hc.
    rewrite signals_app, sleeps_app, Hs, Hz. split; [reflexivity|].
    left. reflexivity.
  - rewrite He. destruct (grace_alive _ _ _ Hrc Eg) as [_ Hiff].
    apply Hiff in Hc. rewrite Hc.
    rewrite signals_app, sleeps_app, Hs, Hz. split; [reflexivity|].
    right. reflexivity.
Qed.

Lemma terminate_spec_no_signal (st : state) (t : trace) (r : result state) :
  terminate_spec' st t r →
  timed_out st = false ∨ (∃ code, w_poll_guard w = Some code) →
  returncode st = None ∨ timed_out st = false →
  t = [].
Proof.
  destruct 1 as [Hto|code Hto Hc|e Hto Hrc Hg He
                |k st1 code Hto Hrc Hg He Eg Hc
                |st1 Hto Hrc Hg He Eg Hc Hb
                |st1 e Hto Hrc Hg He Eg Hc Hk Hne];
    intros [H|[code' H]] H'; try reflexivity; congruence.
Qed.

End Grace.

(** ** The run after a timeout *)

(** What a run does after the loop has recorded a timeout: the escalation
    by the answers of the world, and 124 unless the handler's SIGKILL
    raises. *)
Lemma run_after_timeout (idle_sec hard_sec : Z) (sample_on_timeout : bool)
    (sample_seconds : Z) (cmd : list string) (w : world) (st : state) :
  let loop := monitor idle_sec hard_sec (w_start w) (w_script w) (fresh w) in
  let run := run_with_timeouts idle_sec hard_sec sample_on_timeout
               sample_seconds cmd w in
  let t := trace_of run in
  result_of loop = Done st → timed_out st = true → returncode st = None →
  match w_poll_guard w with
  | Some _ => signals t = [] ∧ sleeps t = 0%nat
  | None =>
      match w_killpg_term w with
      | Some _ => signals t = [SIGTERM; SIGKILL] ∧ sleeps t = 0%nat
      | None =>
          if alive_after_grace w
          then sleeps t = 10%nat
               ∧ (signals t = [SIGTERM; SIGKILL]
                  ∨ signals t = [SIGTERM; SIGKILL; SIGKILL])
          else signals t = [SIGTERM] ∧ (sleeps t ≤ 10)%nat
      end
  end
  ∧ (benign (w_killpg_handler w) → result_of run = Done 124)
  ∧ (result_of run = Done 124
     ∨ ∃ e, result_of run = Raised e
            ∧ w_killpg_handler w = Some e ∧ e ≠ ProcessLookupError).
Proof.
  intros loop run t Er Hto Hrc.
  destruct (run_view idle_sec hard_sec sample_on_timeout sample_seconds cmd w
              st Er) as (t2 & r2 & H2 & Hsig & Hsl & _ & Hres).
  fold run in Hsig, Hsl, Hres. fold t in Hsig, Hsl. rewrite Hsig, Hsl, Hres.
  pose proof (terminate_spec_result _ _ _ _ _ _ H2) as Hr2.
  split; [|split].
  - destruct (w_poll_guard w) as [code|] eqn:Hg.
    + rewrite (terminate_spec_no_signal _ _ _ _ _ _ H2
                 (or_intror (ex_intro _ code Hg)) (or_introl Hrc)).
      split; reflexivity.
    + apply (terminate_spec_escalation _ _ _ _ _ _ H2 Hto Hrc Hg).
  - intros Hb.
    destruct (terminate_spec_benign _ _ _ _ _ _ H2 Hb) as (st2 & -> & Hto2).
    rewrite exit_code_timed_out; [reflexivity | congruence].
  - destruct r2 as [st2|e|].
    + left. rewrite exit_code_timed_out; [reflexivity | congruence].
    + right. exists e. split; [reflexivity | exact Hr2].
    + destruct Hr2.
Qed.

(** X1: the idle timeout where the code does fire it. In the first cycle in
    which [select] reports nothing ready and the clock, read after the wait,
    exceeds the time of the last line by more than a configured idle limit
    (the hard limit not being exceeded at the start of the cycle), the loop
    records the idle timeout and nothing else, and SIGTERM is the first
    signal to the group of a child still running. The run returns 124,
    unless the SIGKILL of the exception handler raises an error other than
    ProcessLookupError: that error reaches the caller. *)
Lemma idle_timeout_fires (idle_sec hard_sec : Z) (sample_on_timeout : bool)
    (sample_seconds : Z) (cmd : list string) (w : world)
    (pre post : list cycle) (c : cycle) :
  idle_sec ≠ 0 →
  w_script w = pre ++ c :: post →
  result_of (monitor idle_sec hard_sec (w_start w) pre (fresh w)) = Monitoring →
  hard_exceeded hard_sec (w_start w) c = false →
  cy_events c = [] →
  (inject_Z idle_sec < cy_now_idle c - last_output pre (w_start w))%Q →
  let run := run_with_timeouts idle_sec hard_sec sample_on_timeout
               sample_seconds cmd w in
  timeouts (trace_of run) = [IdleTimeout]
  ∧ match w_poll_guard w with
    | None => head (signals (trace_of run)) = Some SIGTERM
    | Some _ => signals (trace_of run) = []
    end
  ∧ (benign (w_killpg_handler w) → result_of run = Done 124)
  ∧ (result_of run = Done 124
     ∨ ∃ e, result_of run = Raised e
            ∧ w_killpg_handler w = Some e ∧ e ≠ ProcessLookupError).
Proof.
  intros Hn Hscript Hpre Hh Hev Hlt run.
  destruct (monitor_idle idle_sec hard_sec (w_start w) pre post c (fresh w)
              Hpre eq_refl eq_refl Hh Hev Hn Hlt)
    as (t & st1 & Hw & Hrc1 & Hto1 & El).
  rewrite <- Hscript in El.
  assert (Er : result_of (monitor idle_sec hard_sec (w_start w) (w_script w)
                            (fresh w)) = Done st1) by (rewrite El; reflexivity).
  destruct (run_view idle_sec hard_sec sample_on_timeout sample_seconds cmd w
              st1 Er) as (t2 & r2 & H2 & Hsig & _).
  destruct (run_after_timeout idle_sec hard_sec sample_on_timeout
              sample_seconds cmd w st1 Er Hto1 Hrc1) as (_ & Hb & Hres).
  split; [|split; [|split; [exact Hb | exact Hres]]].
  - unfold run. rewrite run_timeouts, El. cbn [trace_of fst].
    rewrite timeouts_app, (timeouts_writes _ Hw). reflexivity.
  - fold run in Hsig. rewrite Hsig.
    apply (terminate_spec_first_signal _ _ _ _ _ _ H2 Hto1 Hrc1).
Qed.

(** ** The sampling step in the escalation *)

Section Sampling.
Variables (sample_on_timeout : bool) (sample_seconds : Z) (w : world).

(** After a timeout with the child still running, the escalation is the
    sampling step followed by signals and sleeps, SIGTERM first. *)
Lemma terminate_spec_sample (st : state) (t : trace) (r : result state) :
  terminate_spec sample_on_timeout sample_seconds w st t r →
  timed_out st = true → returncode st = None → w_poll_guard w = None →
  ∃ rest, t = trace_of (sample_step sample_on_timeout sample_seconds w st)
              ++ rest
    ∧ samples rest = [] ∧ head (signals rest) = Some SIGTERM.
Proof.
  destruct 1 as [Hto|code Hto Hc|e Hto Hrc Hg He
                |k st1 code Hto Hrc Hg He Eg Hc
                |st1 Hto Hrc Hg He Eg Hc Hb
                |st1 e Hto Hrc Hg He Eg Hc Hk Hne]; intros Hto' Hrc' Hg'.
  - congruence.
  - rewrite returncode_poll, Hrc', Hg' in Hc. discriminate.
  - eexists. split; [reflexivity|]. split; reflexivity.
  - eexists. split; [reflexivity|]. split; [|reflexivity].
    change (Killpg (w_pid w) SIGTERM :: replicate k Sleep)
      with ([Killpg (w_pid w) SIGTERM] ++ replicate k Sleep).
    rewrite samples_app. destruct (signals_sleep k) as (_ & _ & _ & ->).
    reflexivity.
  - eexists. split; [reflexivity|]. split; reflexivity.
  - eexists. split; [reflexivity|]. split; reflexivity.
Qed.

End Sampling.

(** In the run: the sample comes before any signal. *)
Lemma run_sample_before_signal (idle_sec hard_sec sample_seconds : Z)
    (cmd : list string) (w : world) (st : state) :
  let loop := monitor idle_sec hard_sec (w_start w) (w_script w) (fresh w) in
  let run := run_with_timeouts idle_sec hard_sec true sample_seconds cmd w in
  result_of loop = Done st → timed_out st = true → w_poll_guard w = None →
  xctest_pid st ≠ Some 0 → w_pid w ≠ 0 →
  ∃ before after,
    trace_of run = before ++ after
    ∧ signals before = []
    ∧ samples before
      = match preferred_target w (xctest_pid st) with
        | Some p => [(p, sample_seconds)]
        | None => []
        end
    ∧ samples after = []
    ∧ head (signals after) = Some SIGTERM.
Proof.
  intros loop run Er Hto Hg Hx Hp.
  destruct (monitor_sound idle_sec hard_sec (w_start w) (w_script w) (fresh w))
    as (t1 & r1 & El & Hm).
  fold loop in El. rewrite El in Er. cbn in Er. subst r1.
  destruct (monitor_spec_outcome _ _ _ _ _ _ _ Hm eq_refl eq_refl) as [o Ho].
  assert (Hrc : returncode st = None).
  { destruct Ho as [_ _ H|_ _ H|code _ H _]; congruence. }
  destruct (loop_effects_quiet _ (monitor_spec_effects _ _ _ _ _ _ _ Hm))
    as (Hs1 & Hp1 & _).
  destruct (terminate_sound true sample_seconds w st) as (t2 & r2 & E2 & H2).
  destruct (terminate_spec_sample _ _ _ _ _ _ H2 Hto Hrc Hg)
    as (rest & -> & Hprest & Hsrest).
  pose proof (sample_step_quiet true sample_seconds w st) as (Hss & _).
  pose proof (sample_step_target true sample_seconds w st eq_refl Hx Hp)
    as Htarget.
  destruct (writes_quiet _ (drained_writes w)) as (Hs3 & Hp3 & _).
  unfold run. rewrite (run_ended _ _ _ _ _ _ _ _ _ _ El E2).
  set (ts := trace_of (sample_step true sample_seconds w st)) in *.
  exists (t1 ++ ts),
    (rest ++ match r2 with Done _ => drained w | _ => [] end).
  split; [|split; [|split; [|split]]].
  - destruct r2; cbn [trace_of fst]; rewrite <- ?app_assoc, ?app_nil_r;
      reflexivity.
  - rewrite signals_app, Hs1, Hss. reflexivity.
  - rewrite samples_app, Hp1, Htarget. reflexivity.
  - rewrite samples_app, Hprest. destruct r2; auto.
  - rewrite signals_app. destruct (signals rest); [discriminate|exact Hsrest].
Qed.

(** ** The exit code is settled before the drain *)

Section Settled.
Variables (sample_on_timeout : bool) (sample_seconds : Z) (w : world).

(** When the escalation returns, the exit code is settled: the drain cannot
    change it, whatever [proc.communicate] answers. *)
Lemma exit_code_settled (t t2 : trace) (st st2 : state) (o : outcome)
    (c : communicated) :
  ended t st o →
  terminate_spec sample_on_timeout sample_seconds w st t2 (Done st2) →
  exit_code (after_drain (with_communicate c w) st2) = exit_code st.
Proof.
  intros Ho H2.
  pose proof (terminate_spec_timed_out _ _ _ _ _ _ H2) as Hto2.
  destruct Ho as [_ Hto _|_ Hto _|code _ Hto Hcode].
  - rewrite drain_exit_code by (left; congruence).
    unfold exit_code. now rewrite Hto2, Hto.
  - rewrite drain_exit_code by (left; congruence).
    unfold exit_code. now rewrite Hto2, Hto.
  - inversion H2 as [Hno| | | | |]; try congruence. subst.
    apply drain_exit_code. eauto.
Qed.

End Settled.

Lemma with_communicate_same (w : world) :
  with_communicate (w_communicate w) w = w.
Proof. destruct w; reflexivity. Qed.

(** ** The pattern of line 46 *)

Lemma match_at_sound {R : Type} (r : Re.regex) :
  ∀ (s : list ascii) (g : Re.groups) (k : Re.cont) (x : R),
    Re.match_at r s g k = Some x →
    ∃ s1 g1, matches r s g s1 g1 ∧ k s1 g1 = Some x.
Proof.
  induction r as [|c| |r1 IH1 r2 IH2|n r IH|r IH]; intros s g k x;
    cbn [Re.match_at].
  - intros H. exists s, g. split; [constructor | exact H].
  - destruct s as [|c' s]; [discriminate|].
    destruct (Ascii.eqb_spec c c') as [<-|]; [|discriminate].
    intros H. exists s, g. split; [constructor | exact H].
  - destruct s as [|c' s]; [discriminate|].
    destruct (Py.is_digit c') eqn:Hd; [|discriminate].
    intros H. exists s, g. split; [now constructor | exact H].
  - intros H. apply IH1 in H as (s1 & g1 & H1 & H).
    apply IH2 in H as (s2 & g2 & H2 & H).
    exists s2, g2. split; [econstructor; eauto | exact H].
  - intros H. apply IH in H as (s1 & g1 & H1 & H).
    eexists _, _. split; [constructor; exact H1 | exact H].
  - generalize (length s) at 1. intros n. revert s g.
    induction n as [|n IHn]; intros s g H; apply IH in H as (s1 & g1 & H1 & H).
    + exists s1, g1. split; [now constructor | exact H].
    + destruct (length s1 <? length s)%nat.
      * match type of H with
        | match ?it with _ => _ end = _ => destruct it as [x'|] eqn:E
        end.
        -- injection H as ->. apply IHn in E as (s2 & g2 & H2 & E).
           exists s2, g2. split; [eapply matches_plus_more; eauto | exact E].
        -- exists s1, g1. split; [now constructor | exact H].
      * exists s1, g1. split; [now constructor | exact H].
Qed.

Lemma matches_length r s g s1 g1 :
  matches r s g s1 g1 → (length s1 ≤ length s)%nat.
Proof. induction 1; cbn [length] in *; lia. Qed.

Lemma search_from_sound (r : Re.regex) (s : list ascii) (m : Re.groups) :
  Re.search_from r s = Some m → ∃ s' s1, matches r s' ∅ s1 m.
Proof.
  induction s as [|c s IH]; cbn [Re.search_from].
  - destruct (Re.match_at r [] ∅ (λ _ caps, Some caps)) as [caps|] eqn:E;
      [|discriminate].
    intros [= <-]. apply match_at_sound in E as (s1 & g1 & H & [= <-]). eauto.
  - destruct (Re.match_at r (c :: s) ∅ (λ _ caps, Some caps)) as [caps|] eqn:E.
    + intros [= <-]. apply match_at_sound in E as (s1 & g1 & H & [= <-]).
      eauto.
    + exact IH.
Qed.

(** The pattern as compiled: after the literal [xctest ] it asks for a
    backslash; its first group is a backslash, letters [d] and a backslash. *)
Lemma xctest_pid_re_eq :
  xctest_pid_re
  = Re.Cat (Re.Char "x") (Re.Cat (Re.Char "c") (Re.Cat (Re.Char "t")
      (Re.Cat (Re.Char "e") (Re.Cat (Re.Char "s") (Re.Cat (Re.Char "t")
      (Re.Cat (Re.Char " ") (Re.Cat (Re.Char "\")
      (Re.Cat
         (Re.Group 1
            (Re.Cat
               (Re.Group 2
                  (Re.Cat (Re.Char "\")
                     (Re.Cat (Re.Plus (Re.Char "d")) Re.Empty)))
               (Re.Cat (Re.Char "\") Re.Empty)))
         Re.Empty)))))))).
Proof. reflexivity. Qed.

Ltac invert_matches :=
  repeat match goal with
    | H : matches (Re.Cat _ _) _ _ _ _ |- _ => inversion H; subst; clear H
    | H : matches (Re.Char _) _ _ _ _ |- _ => inversion H; subst; clear H
    | H : matches Re.Empty _ _ _ _ |- _ => inversion H; subst; clear H
    | H : matches (Re.Group _ _) _ _ _ _ |- _ => inversion H; subst; clear H
    end.

(** The first group of every match of the pattern starts with a backslash. *)
Lemma xctest_pid_re_group (s s1 : list ascii) (g m : Re.groups) :
  matches xctest_pid_re s g s1 m →
  ∃ l, Re.group m 1 = string_of_list_ascii ("\"%char :: l).
Proof.
  rewrite xctest_pid_re_eq. intros H. invert_matches.
  match goal with
  | H : matches (Re.Plus _) ?sa _ _ _ |- _ =>
      apply matches_length in H; cbn [length] in H
  end.
  unfold Re.group. rewrite lookup_insert_eq. cbn [default].
  unfold Re.consumed. cbn [length].
  match goal with
  | |- context [take (S ?a - ?b) _] =>
      replace (S a - b)%nat with (S (a - b)) by lia
  end.
  cbn [take]. eauto.
Qed.

Lemma lstrip_split (l : list Z) :
  ∃ pre, l = pre ++ Py.lstrip l ∧ Forall (λ c, Py.is_space c = true) pre.
Proof.
  induction l as [|c l (pre & E & Hpre)]; cbn [Py.lstrip].
  - exists []. split; [reflexivity | constructor].
  - destruct (Py.is_space c) eqn:Hc.
    + exists (c :: pre). split; [cbn; congruence | now constructor].
    + exists []. split; [reflexivity | constructor].
Qed.

(** White space is stripped around a backslash, not the backslash. *)
Lemma strip_backslash (cs : list Z) : ∃ t, Py.strip (92 :: cs) = 92 :: t.
Proof.
  unfold Py.strip. cbn [Py.lstrip].
  change (Py.is_space 92) with false. cbn iota.
  destruct (lstrip_split (rev (92 :: cs))) as (pre & E & Hpre).
  apply (f_equal (@rev Z)) in E. rewrite rev_involutive, rev_app_distr in E.
  destruct (rev (Py.lstrip (rev (92 :: cs)))) as [|c t] eqn:Et.
  - cbn [app] in E. apply Forall_rev in Hpre. rewrite <- E in Hpre.
    inversion Hpre as [|? ? Hc _]. discriminate Hc.
  - cbn [app] in E. injection E as <- _. eauto.
Qed.

(** [int] refuses every string that starts with a backslash. *)
Lemma int_backslash (l : list ascii) :
  Py.int (string_of_list_ascii ("\"%char :: l)) = None.
Proof.
  unfold Py.int, Py.bytes.
  rewrite list_ascii_of_string_of_list_ascii, fmap_cons.
  change (Z.of_nat (nat_of_ascii "\")) with 92.
  cbn [Py.decode]. change (92 <? 128) with true. cbn iota.
  destruct (Py.decode _) as [cps|]; [|reflexivity].
  cbn [fmap option_fmap option_map mbind option_bind mapM].
  change (Py.to_ascii 92) with (Some 92).
  cbn [mbind option_bind].
  destruct (mapM Py.to_ascii cps) as [cs|]; [|reflexivity].
  cbn [mbind option_bind mret option_ret].
  destruct (strip_backslash cs) as [t ->].
  destruct (_ <=? _)%nat; reflexivity.
Qed.

(** No line ever sets [xctest_pid]. *)
Lemma scan_pid_never (line : string) (st : state) :
  scan_pid xctest_pid_re line st = st.
Proof.
  unfold scan_pid, Re.search.
  destruct (Re.search_from xctest_pid_re (list_ascii_of_string line))
    as [m|] eqn:E; [|reflexivity].
  apply search_from_sound in E as (s' & s1 & H).
  apply xctest_pid_re_group in H as [l ->].
  now rewrite int_backslash.
Qed.

(** ** Truth of strings *)

Lemma truthy_str_spec (s : string) : Py.truthy_str s = true ↔ s ≠ EmptyString.
Proof. destruct s; cbn; split; congruence. Qed.

(** ** Runs without a timeout *)

(** A run that ends with no timeout returns the status that a poll of the
    loop collected, and has sent no signal. *)
Lemma run_natural_exit (idle_sec hard_sec : Z) (sample_on_timeout : bool)
    (sample_seconds : Z) (cmd : list string) (w : world) (st : state) :
  let loop := monitor idle_sec hard_sec (w_start w) (w_script w) (fresh w) in
  let run := run_with_timeouts idle_sec hard_sec sample_on_timeout
               sample_seconds cmd w in
  result_of loop = Done st → timed_out st = false →
  signals (trace_of run) = []
  ∧ ∃ code c, c ∈ w_script w ∧ cy_poll c = Some code
              ∧ result_of run = Done code.
Proof.
  intros loop run Er Hto.
  destruct (monitor_sound idle_sec hard_sec (w_start w) (w_script w) (fresh w))
    as (t1 & r1 & El & Hm).
  fold loop in El. rewrite El in Er. cbn in Er. subst r1.
  destruct (monitor_spec_outcome _ _ _ _ _ _ _ Hm eq_refl eq_refl) as [o Ho].
  destruct (run_view idle_sec hard_sec sample_on_timeout sample_seconds cmd w
              st) as (t2 & r2 & H2 & Hsig & _ & _ & Hres).
  { fold loop. rewrite El. reflexivity. }
  fold run in Hres, Hsig.
  rewrite (terminate_spec_no_signal _ _ _ _ _ _ H2 (or_introl Hto)
             (or_intror Hto)) in Hsig.
  split; [exact Hsig|].
  destruct Ho as [_ Hto' _|_ Hto' _|code _ _ Hcode]; try congruence.
  destruct (monitor_spec_status _ _ _ _ _ _ _ code Hm eq_refl Hcode)
    as (c & Hin & Hpoll).
  exists code, c. split; [exact Hin|]. split; [exact Hpoll|].
  inversion H2 as [Hno| | | | |]; try congruence. subst.
  rewrite Hres, drain_exit_code by eauto.
  unfold exit_code. rewrite Hto, Hcode. now rewrite or_zero_Some.
Qed.

(** With no hard limit, a loop whose every [select] reports a file object
    ready records no timeout: the idle limit is only tested in the [else] of
    [if events]. *)
Lemma monitor_spec_ready (idle_sec : Z) (start : Q) script st t r :
  monitor_spec idle_sec 0 start script st t r →
  Forall (λ c, cy_events c ≠ []) script →
  Forall is_write t
  ∧ ∀ st', r = Done st' → timed_out st' = timed_out st.
Proof.
  induction 1 as [|c script st t st' Hc|c script st t st' t' r Hc _ IH];
    intros Hready.
  - split; [constructor | discriminate].
  - apply Forall_cons in Hready as [Hev _].
    inversion Hc as [Hh|Hh Hev' Hi|t0 st0 code Hp Hcode|]; subst.
    + discriminate Hh.
    + congruence.
    + destruct Hp as (_ & _ & Hw & _ & Hto & _).
      split; [exact Hw|]. intros st'' [= <-]. exact Hto.
  - apply Forall_cons in Hready as [Hev Hready].
    inversion Hc as [| | |t0 st0 Hp Hnone]; subst.
    destruct Hp as (_ & _ & Hw & _ & Hto & _).
    destruct (IH Hready) as [Hw' Hto']. split.
    + apply Forall_app. auto.
    + intros st'' Hr. rewrite (Hto' _ Hr). exact Hto.
Qed.

(** * The properties of the specification *)

(** ** C1: the idle timeout *)

(** C1. With an idle limit and no hard limit, in every run in which each
    [select] of the loop reports a file object ready (as it does for a stream
    at end of stream, on which [readline] returns the empty string), no
    timeout is recorded and no signal is sent, however long the child has
    been silent: the run is still in its loop, or it returns the exit status
    of the child. *)
Theorem C1_idle_timeout_missed (idle_sec : Z) (sample_on_timeout : bool)
    (sample_seconds : Z) (cmd : list string) (w : world) :
  Forall (λ c, cy_events c ≠ []) (w_script w) →
  let run := run_with_timeouts idle_sec 0 sample_on_timeout sample_seconds
               cmd w in
  timeouts (trace_of run) = []
  ∧ signals (trace_of run) = []
  ∧ (result_of run = Monitoring
     ∨ ∃ code c, c ∈ w_script w ∧ cy_poll c = Some code
                 ∧ result_of run = Done code).
Proof.
  intros Hready run.
  destruct (monitor_sound idle_sec 0 (w_start w) (w_script w) (fresh w))
    as (t1 & r1 & El & Hm).
  destruct (monitor_spec_ready _ _ _ _ _ _ Hm Hready) as [Hw Hto].
  pose proof (monitor_spec_outcome _ _ _ _ _ _ _ Hm eq_refl eq_refl) as Ho.
  split.
  { unfold run. rewrite run_timeouts, El. now apply timeouts_writes. }
  destruct r1 as [st1|e|].
  - destruct (run_natural_exit idle_sec 0 sample_on_timeout sample_seconds
                cmd w st1) as [Hsig Hex].
    + rewrite El. reflexivity.
    + apply (Hto st1 eq_refl).
    + split; [exact Hsig | right; exact Hex].
  - destruct Ho.
  - unfold run. rewrite (run_pending _ _ _ _ _ _ _ El). cbn [trace_of fst].
    destruct (writes_quiet _ Hw) as (-> & _). split; [reflexivity | now left].
Qed.

Lemma C1_idle_timeout_missed_witness :
  timeouts (trace_of (run_with_timeouts 2 0 false 8
                        ["sh"; "-c"; "exec >&- 2>&-; sleep 10"]
                        closed_streams_world)) = []
  ∧ signals (trace_of (run_with_timeouts 2 0 false 8
                         ["sh"; "-c"; "exec >&- 2>&-; sleep 10"]
                         closed_streams_world)) = []
  ∧ (result_of (run_with_timeouts 2 0 false 8
                  ["sh"; "-c"; "exec >&- 2>&-; sleep 10"]
                  closed_streams_world) = Monitoring
     ∨ ∃ code c, c ∈ w_script closed_streams_world ∧ cy_poll c = Some code
                 ∧ result_of (run_with_timeouts 2 0 false 8
                                ["sh"; "-c"; "exec >&- 2>&-; sleep 10"]
                                closed_streams_world) = Done code).
Proof.
  apply (C1_idle_timeout_missed 2 false 8
           ["sh"; "-c"; "exec >&- 2>&-; sleep 10"] closed_streams_world).
  repeat constructor; discriminate.
Defined.

(** The run of that child returns 0 after ten seconds of silence. *)
Example closed_streams_run :
  run_with_timeouts 2 0 false 8 ["sh"; "-c"; "exec >&- 2>&-; sleep 10"]
    closed_streams_world = ([], Done 0).
Proof. reflexivity. Qed.

(** The same silence with the streams open: [select] times out each second
    with nothing ready, and the idle limit fires in the third cycle. *)
Example open_streams_run :
  run_with_timeouts 2 0 false 8 ["sleep"; "10"] silent_world
  = ([Print IdleLimitExceeded; Killpg 700 SIGTERM], Done 124).
Proof. reflexivity. Qed.

(** ** C2: the hard timeout *)

(** The elapsed time passes the hard limit of ten seconds while [select]
    waits, and line 99 of that cycle, at 10.6 s, finds the idle limit of
    five seconds exceeded: the timeout recorded is the idle one. Both
    signals are refused, and the run returns no exit code. *)
Lemma C2_idle_recorded_past_hard_limit :
  let run := run_with_timeouts 5 10 false 8 ["xcodebuild"; "test"]
               crossing_world in
  w_script crossing_world !! 10%nat = Some (quiet_cycle (96 # 10))
  ∧ (inject_Z 10
     < cy_now_idle (quiet_cycle (96 # 10)) - w_start crossing_world)%Q
  ∧ timeouts (trace_of run) = [IdleTimeout]
  ∧ result_of run = Raised PermissionError.
Proof.
  split; [reflexivity|]. split; [vm_compute; reflexivity|].
  split; reflexivity.
Qed.

(** C2 (amended). The hard condition is the first test of every cycle (line
    68, on its own reading of the clock), before any output is read and
    before the idle condition (line 99, on a later reading). In every run in
    which the loop starts a cycle with that reading more than a configured
    hard limit past the start, whatever the child has written, whether or
    not the idle limit is exceeded too and whatever a later [readline()]
    would do, the loop records the hard timeout and no other, and the child
    is terminated as the answers of the system prescribe: no signal when the
    child has exited at line 125; otherwise SIGTERM to its group, then
    SIGKILL unless a poll of the grace window or the poll after it finds the
    child exited, and SIGKILL at once when the SIGTERM call raises. The run
    returns 124, except that an error other than ProcessLookupError of the
    handler's SIGKILL reaches the caller instead. *)
Theorem C2_hard_timeout (idle_sec hard_sec : Z) (sample_on_timeout : bool)
    (sample_seconds : Z) (cmd : list string) (w : world)
    (i : option interruption) (pre post : list cycle) (c : cycle) :
  hard_sec ≠ 0 →
  w_script w = pre ++ c :: post →
  result_of (monitor idle_sec hard_sec (w_start w) pre (fresh w)) = Monitoring →
  (inject_Z hard_sec < cy_now c - w_start w)%Q →
  let run := run_with_timeouts_upto idle_sec hard_sec sample_on_timeout
               sample_seconds cmd w i in
  let t := trace_of run in
  timeouts t = [HardTimeout]
  ∧ match w_poll_guard w with
    | Some _ => signals t = [] ∧ sleeps t = 0%nat
    | None =>
        match w_killpg_term w with
        | Some _ => signals t = [SIGTERM; SIGKILL] ∧ sleeps t = 0%nat
        | None =>
            if alive_after_grace w
            then sleeps t = 10%nat
                 ∧ (signals t = [SIGTERM; SIGKILL]
                    ∨ signals t = [SIGTERM; SIGKILL; SIGKILL])
            else signals t = [SIGTERM] ∧ (sleeps t ≤ 10)%nat
        end
    end
  ∧ (benign (w_killpg_handler w) → result_of run = Done 124)
  ∧ (result_of run = Done 124
     ∨ ∃ e, result_of run = Raised e
            ∧ w_killpg_handler w = Some e ∧ e ≠ ProcessLookupError).
Proof.
  intros Hn Hscript Hpre Hlt run t.
  destruct (monitor_hard idle_sec hard_sec (w_start w) pre post c (fresh w)
              Hpre eq_refl eq_refl (hard_exceeded_true _ _ _ Hn Hlt))
    as (t1 & st1 & Hw & Hrc1 & Hto1 & El).
  rewrite <- Hscript in El.
  assert (Er : result_of (monitor idle_sec hard_sec (w_start w) (w_script w)
                            (fresh w)) = Done st1) by (rewrite El; reflexivity).
  subst t run.
  rewrite (run_upto_Done idle_sec hard_sec sample_on_timeout sample_seconds
             cmd w i st1 Er).
  split.
  - rewrite run_timeouts, El. cbn [trace_of fst].
    rewrite timeouts_app, (timeouts_writes _ Hw). reflexivity.
  - apply (run_after_timeout idle_sec hard_sec sample_on_timeout
             sample_seconds cmd w st1 Er Hto1 Hrc1).
Qed.

(** The hard limit and the idle limit are both three seconds and the child
    is silent; the child is followed to the cycle that starts at 3.001 s,
    and ends on SIGTERM. *)
Lemma C2_hard_timeout_witness :
  timeouts (trace_of (run_with_timeouts_upto 3 3 true 8
                        ["xcodebuild"; "test"] both_limits_world None))
  = [HardTimeout]
  ∧ (signals (trace_of (run_with_timeouts_upto 3 3 true 8
                          ["xcodebuild"; "test"] both_limits_world None))
     = [SIGTERM]
     ∧ (sleeps (trace_of (run_with_timeouts_upto 3 3 true 8
                            ["xcodebuild"; "test"] both_limits_world None))
        ≤ 10)%nat)
  ∧ (benign (w_killpg_handler both_limits_world) →
     result_of (run_with_timeouts_upto 3 3 true 8 ["xcodebuild"; "test"]
                  both_limits_world None) = Done 124)
  ∧ (result_of (run_with_timeouts_upto 3 3 true 8 ["xcodebuild"; "test"]
                  both_limits_world None) = Done 124
     ∨ ∃ e, result_of (run_with_timeouts_upto 3 3 true 8
                         ["xcodebuild"; "test"] both_limits_world None)
            = Raised e
            ∧ w_killpg_handler both_limits_world = Some e
            ∧ e ≠ ProcessLookupError).
Proof.
  apply (C2_hard_timeout 3 3 true 8 ["xcodebuild"; "test"] both_limits_world
           None [quiet_cycle 0; quiet_cycle 1; quiet_cycle 2] []
           (quiet_cycle (3001 # 1000))).
  - lia.
  - reflexivity.
  - vm_compute. reflexivity.
  - vm_compute. reflexivity.
Defined.

(** The run of that child. *)
Example both_limits_run :
  run_with_timeouts 3 3 false 8 ["xcodebuild"; "test"] both_limits_world
  = ([Print HardLimitExceeded; Killpg 700 SIGTERM], Done 124).
Proof. reflexivity. Qed.

(** With the signals refused the hard timeout is recorded, both signals are
    sent, and the error of the second reaches the caller. *)
Example hard_timeout_signals_refused :
  run_with_timeouts 3 3 false 8 ["xcodebuild"; "test"]
    (with_killpg (Some PermissionError) None (Some PermissionError)
       both_limits_world)
  = ([Print HardLimitExceeded; Killpg 700 SIGTERM; Killpg 700 SIGKILL],
     Raised PermissionError).
Proof. reflexivity. Qed.

(** Where [readline()] does not return, the loop does not come back to line
    68. A child that writes a word without an end of line and sleeps: the
    run stays in the loop and records nothing, whatever the hard limit. A
    child that writes bytes that are not text: the error reaches the caller;
    no signal is sent and nothing is drained. *)
Example partial_line_run :
  run_with_timeouts_upto 2 3 false 8 ["sh"; "-c"; "printf partial; sleep 60"]
    base_world (Some partial_line) = ([], Monitoring).
Proof. reflexivity. Qed.

Example bad_bytes_run :
  run_with_timeouts_upto 2 3 false 8 ["make"]
    (with_script [quiet_cycle 0] base_world) (Some bad_bytes)
  = ([Write Stderr "warning"], Raised UnicodeDecodeError).
Proof. reflexivity. Qed.

(** ** C3: the exit code *)

(** The exit code is 124 although no timeout was recorded. *)
Lemma C3_exit_124_without_timeout :
  result_of (run_with_timeouts 0 0 false 8 ["sh"; "-c"; "exit 124"]
               exit_124_world) = Done 124
  ∧ timeouts (trace_of (run_with_timeouts 0 0 false 8
                          ["sh"; "-c"; "exit 124"] exit_124_world)) = [].
Proof. split; reflexivity. Qed.

(** C3 (amended). The result of [run_with_timeouts] is a function of how the
    loop ended. With a timeout recorded it is 124, whatever the child has
    done since (the only other end is the exception of the handler's
    SIGKILL, when that is not ProcessLookupError). With no timeout recorded
    it is the status that [proc.poll()] collected in the loop, unchanged:
    0, a failure code, and also 124 when the child exits with 124. *)
Theorem C3_exit_code (idle_sec hard_sec : Z) (sample_on_timeout : bool)
    (sample_seconds : Z) (cmd : list string) (w : world) (st : state) :
  let loop := monitor idle_sec hard_sec (w_start w) (w_script w) (fresh w) in
  let run := run_with_timeouts idle_sec hard_sec sample_on_timeout
               sample_seconds cmd w in
  result_of loop = Done st →
  (timed_out st = true ↔ timeouts (trace_of run) ≠ [])
  ∧ (timed_out st = true →
       result_of run = Done 124
       ∨ ∃ e, result_of run = Raised e ∧ w_killpg_handler w = Some e
              ∧ e ≠ ProcessLookupError)
  ∧ (timed_out st = false →
       ∃ code c, c ∈ w_script w ∧ cy_poll c = Some code
                 ∧ result_of run = Done code).
Proof.
  intros loop run Er.
  pose proof (loop_outcome idle_sec hard_sec w) as Ho. fold loop in Ho.
  rewrite Er in Ho. destruct Ho as [o Ho].
  destruct (run_view idle_sec hard_sec sample_on_timeout sample_seconds cmd w
              st Er) as (t2 & r2 & H2 & _ & _ & _ & Hres).
  fold run in Hres.
  pose proof (terminate_spec_result _ _ _ _ _ _ H2) as Hr2.
  split; [|split].
  - unfold run. rewrite run_timeouts. fold loop.
    destruct Ho as [-> -> _| -> -> _|code -> -> _]; split; congruence.
  - intros Hto. destruct r2 as [st2|e|].
    + left. rewrite Hres, exit_code_timed_out; [reflexivity | congruence].
    + right. exists e. tauto.
    + destruct Hr2.
  - intros Hto.
    apply (run_natural_exit idle_sec hard_sec sample_on_timeout sample_seconds
             cmd w st Er Hto).
Qed.

Lemma C3_exit_code_witness :
  (∃ code c, c ∈ w_script exit_124_world ∧ cy_poll c = Some code
             ∧ result_of (run_with_timeouts 0 0 false 8
                            ["sh"; "-c"; "exit 124"] exit_124_world)
               = Done code)
  ∧ (result_of (run_with_timeouts 2 0 false 8 ["sleep"; "10"]
                  silent_world) = Done 124
     ∨ ∃ e, result_of (run_with_timeouts 2 0 false 8 ["sleep"; "10"]
                         silent_world) = Raised e
            ∧ w_killpg_handler silent_world = Some e
            ∧ e ≠ ProcessLookupError).
Proof.
  split.
  - apply (C3_exit_code 0 0 false 8 ["sh"; "-c"; "exit 124"] exit_124_world
             (State 0 None (Some 124) false)); reflexivity.
  - apply (C3_exit_code 2 0 false 8 ["sleep"; "10"] silent_world
             (State 0 None None true)); reflexivity.
Defined.

(** ** C4: the discovery of the process id *)

(** C4. With the pattern of line 46 the line [xctest (81823)] does not set
    [xctest_pid], and neither does a later line [xctest (99)]: the pattern
    does not match them (it asks for a backslash after [xctest ]), and no
    line at all changes the variable. *)
Theorem C4_xctest_pid_never_set :
  let st1 := scan_pid xctest_pid_re "xctest (81823)" (State 0 None None false) in
  Re.search xctest_pid_re "xctest (81823)" = None
  ∧ xctest_pid st1 = None
  ∧ xctest_pid (scan_pid xctest_pid_re "xctest (99)" st1) = None
  ∧ ∀ line st, scan_pid xctest_pid_re line st = st.
Proof.
  repeat split; try reflexivity. apply scan_pid_never.
Qed.

(** The pattern with single backslashes, [xctest \((\d+)\)], finds the
    process id in the line of the comment on line 80, and a later line
    overwrites it. *)
Example single_backslash_pattern :
  let re := default Re.Empty (Re.compile "xctest \((\d+)\)") in
  let st1 := scan_pid re "xctest (81823)" (State 0 None None false) in
  xctest_pid st1 = Some 81823
  ∧ xctest_pid (scan_pid re "xctest (99)" st1) = Some 99.
Proof. split; reflexivity. Qed.

(** The scenario of the specification: the child writes [xctest (4242)] and
    then hangs past the idle limit, with sampling enabled. The sample is
    taken of the child (process 700), not of process 4242. *)
Example sample_after_discovery :
  samples (trace_of (run_with_timeouts 2 100 true 8 ["xcodebuild"; "test"]
                       (with_script [line_cycle 0 "xctest (4242)" None;
                                     quiet_cycle 1; quiet_cycle 2;
                                     quiet_cycle 3] base_world)))
  = [(700, 8)].
Proof. reflexivity. Qed.

(** ** C5: the order of the escalation *)

(** SIGKILL is sent although no grace window has passed (the supervisor has
    not slept), where the child would not have been found alive after it. *)
Lemma C5_sigkill_without_grace_window :
  signals (trace_of (run_with_timeouts 2 0 false 8 ["sleep"; "10"]
                       sigterm_refused_world)) = [SIGTERM; SIGKILL]
  ∧ sleeps (trace_of (run_with_timeouts 2 0 false 8 ["sleep"; "10"]
                        sigterm_refused_world)) = 0%nat
  ∧ alive_after_grace sigterm_refused_world = false.
Proof. repeat split. Qed.

(** C5 (amended). In every termination after a timeout SIGTERM is sent to the
    process group before any SIGKILL. When the SIGTERM call returns, SIGKILL
    follows only if the child has not exited at any of the ten polls of the
    grace window, one sleep of 0.2 s apart, nor at the poll after it; when
    the SIGTERM call raises, the handler sends SIGKILL at once, with no grace
    window. A run that ends by the natural exit of the child, and a timeout
    that finds the child already exited, send no signal at all. *)
Theorem C5_escalation_order (idle_sec hard_sec : Z) (sample_on_timeout : bool)
    (sample_seconds : Z) (cmd : list string) (w : world) (st : state) :
  let loop := monitor idle_sec hard_sec (w_start w) (w_script w) (fresh w) in
  let t := trace_of (run_with_timeouts idle_sec hard_sec sample_on_timeout
                       sample_seconds cmd w) in
  result_of loop = Done st →
  (timed_out st = false → signals t = [] ∧ sleeps t = 0%nat)
  ∧ (timed_out st = true →
       match w_poll_guard w with
       | Some _ => signals t = [] ∧ sleeps t = 0%nat
       | None =>
           match w_killpg_term w with
           | Some _ => signals t = [SIGTERM; SIGKILL] ∧ sleeps t = 0%nat
           | None =>
               if alive_after_grace w
               then sleeps t = 10%nat
                    ∧ (signals t = [SIGTERM; SIGKILL]
                       ∨ signals t = [SIGTERM; SIGKILL; SIGKILL])
               else signals t = [SIGTERM] ∧ (sleeps t ≤ 10)%nat
           end
       end).
Proof.
  intros loop t Er.
  pose proof (loop_outcome idle_sec hard_sec w) as Ho. fold loop in Ho.
  rewrite Er in Ho. destruct Ho as [o Ho].
  destruct (run_view idle_sec hard_sec sample_on_timeout sample_seconds cmd w
              st Er) as (t2 & r2 & H2 & Hsig & Hsl & _ & _).
  fold t in Hsig, Hsl. rewrite Hsig, Hsl. split.
  - intros Hto.
    rewrite (terminate_spec_no_signal _ _ _ _ _ _ H2 (or_introl Hto)
               (or_intror Hto)).
    split; reflexivity.
  - intros Hto.
    assert (Hrc : returncode st = None).
    { destruct Ho as [_ _ H|_ _ H|code _ H _]; congruence. }
    destruct (w_poll_guard w) as [code|] eqn:Hg.
    + rewrite (terminate_spec_no_signal _ _ _ _ _ _ H2
                 (or_intror (ex_intro _ code Hg)) (or_introl Hrc)).
      split; reflexivity.
    + apply (terminate_spec_escalation _ _ _ _ _ _ H2 Hto Hrc Hg).
Qed.

(** The three ways of the escalation: the child exits on SIGTERM; the child
    ignores SIGTERM through the ten polls and is sent SIGKILL; the SIGTERM
    call raises and SIGKILL follows at once. *)
Lemma C5_escalation_order_witness :
  (signals (trace_of (run_with_timeouts 2 0 false 8 ["sleep"; "10"]
                        silent_world)) = [SIGTERM]
   ∧ (sleeps (trace_of (run_with_timeouts 2 0 false 8 ["sleep"; "10"]
                          silent_world)) ≤ 10)%nat)
  ∧ (sleeps (trace_of (run_with_timeouts 2 0 false 8 ["sleep"; "10"]
                         stubborn_world)) = 10%nat
     ∧ (signals (trace_of (run_with_timeouts 2 0 false 8 ["sleep"; "10"]
                             stubborn_world)) = [SIGTERM; SIGKILL]
        ∨ signals (trace_of (run_with_timeouts 2 0 false 8 ["sleep"; "10"]
                               stubborn_world))
          = [SIGTERM; SIGKILL; SIGKILL]))
  ∧ (signals (trace_of (run_with_timeouts 2 0 false 8 ["sleep"; "10"]
                          sigterm_refused_world)) = [SIGTERM; SIGKILL]
     ∧ sleeps (trace_of (run_with_timeouts 2 0 false 8 ["sleep"; "10"]
                           sigterm_refused_world)) = 0%nat).
Proof.
  split; [|split].
  - apply (C5_escalation_order 2 0 false 8 ["sleep"; "10"] silent_world
             (State 0 None None true)); reflexivity.
  - apply (C5_escalation_order 2 0 false 8 ["sleep"; "10"] stubborn_world
             (State 0 None None true)); reflexivity.
  - apply (C5_escalation_order 2 0 false 8 ["sleep"; "10"]
             sigterm_refused_world (State 0 None None true)); reflexivity.
Defined.

(** The trace of the child that ignores SIGTERM. *)
Example stubborn_run :
  run_with_timeouts 2 0 false 8 ["sleep"; "10"] stubborn_world
  = (Print IdleLimitExceeded :: Killpg 700 SIGTERM :: replicate 10 Sleep
     ++ [Killpg 700 SIGKILL], Done 124).
Proof. reflexivity. Qed.

(** ** C6: the sample *)



(** The discovered process is gone and the child is alive: the child is
    sampled. Neither is alive: no sample, and SIGTERM is still sent. *)
Example sample_falls_back_to_child :
  samples (trace_of (terminate true 8
                       (with_kill0 (λ pid, if pid =? 4242 then ProbeNoProcess
                                           else ProbeOk) base_world)
                       (State 0 (Some 4242) None true)))
  = [(700, 8)].
Proof. reflexivity. Qed.

Example sample_skipped :
  trace_of (terminate true 8 (with_kill0 (λ _, ProbeNoProcess) base_world)
              (State 0 (Some 4242) None true))
  = [Probe 4242; Probe 700; Killpg 700 SIGTERM].
Proof. reflexivity. Qed.

(** ** C7: one outcome *)

(** C7. In every run at most one outcome among IdleTimeout, HardTimeout and
    NormalExit is recorded by the monitoring loop, and exactly one when the
    loop ends; the loop stops at the cycle that detects it (the cycles that
    would follow are never run), and nothing after the loop records a
    timeout. *)
Theorem C7_single_outcome (idle_sec hard_sec : Z) (sample_on_timeout : bool)
    (sample_seconds : Z) (cmd : list string) (w : world) :
  let loop := monitor idle_sec hard_sec (w_start w) (w_script w) (fresh w) in
  let run := run_with_timeouts idle_sec hard_sec sample_on_timeout
               sample_seconds cmd w in
  (length (recorded loop) ≤ 1)%nat
  ∧ timeouts (trace_of run) = timeouts (trace_of loop)
  ∧ ∀ st, result_of loop = Done st →
      length (recorded loop) = 1%nat
      ∧ ∀ later, monitor idle_sec hard_sec (w_start w)
                   (w_script w ++ later) (fresh w) = loop.
Proof.
  intros loop run.
  pose proof (loop_outcome idle_sec hard_sec w) as Ho. fold loop in Ho.
  split; [|split].
  - unfold recorded. destruct (result_of loop) as [st|e|] eqn:Er.
    + destruct Ho as [o Ho]. cbn [exit_of].
      destruct Ho as [-> _ ->| -> _ ->| code -> _ ->]; cbn; lia.
    + destruct Ho.
    + rewrite (timeouts_writes _ Ho). cbn. lia.
  - apply run_timeouts.
  - intros st Er. rewrite Er in Ho. destruct Ho as [o Ho]. split.
    + unfold recorded. rewrite Er. cbn [exit_of].
      destruct Ho as [-> _ ->| -> _ ->| code -> _ ->]; reflexivity.
    + intros later. rewrite <- (M_eta loop), Er.
      apply monitor_app_Done. rewrite <- Er. symmetry. apply M_eta.
Qed.

(** For the silent child the loop records the idle timeout and nothing else,
    and further cycles change nothing. *)
Lemma C7_single_outcome_witness :
  length (recorded (monitor 2 0 (w_start silent_world) (w_script silent_world)
                      (fresh silent_world))) = 1%nat
  ∧ ∀ later,
      monitor 2 0 (w_start silent_world) (w_script silent_world ++ later)
        (fresh silent_world)
      = monitor 2 0 (w_start silent_world) (w_script silent_world)
          (fresh silent_world).
Proof.
  pose proof (C7_single_outcome 2 0 false 8 ["sleep"; "10"] silent_world)
    as (_ & _ & H).
  apply (H (State 0 None None true)). reflexivity.
Defined.

(** ** C8: errors of the signals *)

(** The error of the handler's SIGKILL reaches the caller: the run returns
    no exit code. *)
Lemma C8_permission_error_propagates :
  result_of (run_with_timeouts 2 0 false 8 ["sleep"; "10"]
               signals_refused_world) = Raised PermissionError.
Proof. reflexivity. Qed.

(** C8 (amended). A ProcessLookupError of any termination signal is
    swallowed, and so is any error of the SIGTERM call and of the first
    SIGKILL call, which the handler answers with a SIGKILL: whenever the
    handler's own SIGKILL returns or raises ProcessLookupError, the run
    completes with its normal exit code. An exception reaches the caller
    only as the error, other than ProcessLookupError, of the handler's
    SIGKILL. *)
Theorem C8_signal_errors (idle_sec hard_sec : Z) (sample_on_timeout : bool)
    (sample_seconds : Z) (cmd : list string) (w : world) (st : state) :
  let loop := monitor idle_sec hard_sec (w_start w) (w_script w) (fresh w) in
  let run := run_with_timeouts idle_sec hard_sec sample_on_timeout
               sample_seconds cmd w in
  result_of loop = Done st →
  (benign (w_killpg_handler w) → result_of run = Done (exit_code st))
  ∧ (∀ e, result_of run = Raised e →
          w_killpg_handler w = Some e ∧ e ≠ ProcessLookupError).
Proof.
  intros loop run Er.
  pose proof (loop_outcome idle_sec hard_sec w) as Ho. fold loop in Ho.
  rewrite Er in Ho. destruct Ho as [o Ho].
  destruct (run_view idle_sec hard_sec sample_on_timeout sample_seconds cmd w
              st Er) as (t2 & r2 & H2 & _ & _ & _ & Hres).
  fold run in Hres. rewrite Hres.
  pose proof (terminate_spec_result _ _ _ _ _ _ H2) as Hr2.
  split.
  - intros Hb.
    destruct (terminate_spec_benign _ _ _ _ _ _ H2 Hb) as (st2 & -> & _).
    f_equal. rewrite <- (with_communicate_same w) at 1.
    eapply exit_code_settled; eauto.
  - intros e He. destruct r2 as [st2|e'|]; try discriminate.
    injection He as ->. exact Hr2.
Qed.

Lemma C8_signal_errors_witness :
  result_of (run_with_timeouts 2 0 false 8 ["sleep"; "10"] group_gone_world)
  = Done 124.
Proof.
  apply (C8_signal_errors 2 0 false 8 ["sleep"; "10"] group_gone_world
           (State 0 None None true)).
  - reflexivity.
  - right. reflexivity.
Defined.

(** ** C9: the drain *)

(** The failed drain leaves no trace: the supervisor prints nothing. *)
Lemma C9_drain_failure_not_logged :
  run_with_timeouts 0 0 false 8 ["true"] drain_timeout_world = ([], Done 0).
Proof. reflexivity. Qed.

(** C9 (amended). When the run returns, its trace ends with what the drain
    writes: what [proc.communicate(timeout=3)] returned for the standard
    output, then what it returned for the standard error, each when it is
    not empty; when [communicate] raises (the bounded wait is exceeded)
    nothing is written and nothing is logged. Whatever [communicate]
    answers, the exit code is the same. *)
Theorem C9_drain (idle_sec hard_sec : Z) (sample_on_timeout : bool)
    (sample_seconds : Z) (cmd : list string) (w : world) (code : Z) :
  result_of (run_with_timeouts idle_sec hard_sec sample_on_timeout
               sample_seconds cmd w) = Done code →
  ∃ t, ∀ c,
    run_with_timeouts idle_sec hard_sec sample_on_timeout sample_seconds cmd
      (with_communicate c w)
    = (t ++ forwarded c, Done code).
Proof.
  intros Hrun.
  destruct (monitor_sound idle_sec hard_sec (w_start w) (w_script w) (fresh w))
    as (t1 & r1 & El & Hm).
  pose proof (monitor_spec_outcome _ _ _ _ _ _ _ Hm eq_refl eq_refl) as Ho.
  destruct r1 as [st1|e|].
  2:{ destruct Ho. }
  2:{ rewrite (run_pending _ _ _ _ _ _ _ El) in Hrun. discriminate. }
  destruct Ho as [o Ho].
  destruct (terminate_sound sample_on_timeout sample_seconds w st1)
    as (t2 & r2 & E2 & H2).
  rewrite (run_ended _ _ _ _ _ _ _ _ _ _ El E2) in Hrun.
  destruct r2 as [st2|e|]; try discriminate.
  cbn in Hrun. injection Hrun as Hcode.
  exists (t1 ++ t2). intros c.
  assert (El' : monitor idle_sec hard_sec (w_start (with_communicate c w))
                  (w_script (with_communicate c w))
                  (fresh (with_communicate c w)) = (t1, Done st1))
    by exact El.
  assert (E2' : terminate sample_on_timeout sample_seconds
                  (with_communicate c w) st1 = (t2, Done st2)) by exact E2.
  rewrite (run_ended _ _ _ _ _ _ _ _ _ _ El' E2').
  unfold drained. cbn [w_communicate with_communicate].
  rewrite app_assoc. f_equal. f_equal.
  rewrite (exit_code_settled _ _ _ _ _ _ _ _ c Ho H2).
  rewrite <- Hcode, <- (with_communicate_same w) at 1.
  symmetry. eapply exit_code_settled; eauto.
Qed.

Lemma C9_drain_witness :
  ∃ t, ∀ c,
    run_with_timeouts 0 0 false 8 ["true"]
      (with_communicate c drain_timeout_world)
    = (t ++ forwarded c, Done 0).
Proof.
  apply (C9_drain 0 0 false 8 ["true"] drain_timeout_world 0).
  reflexivity.
Defined.

(** ** C10: the options of the sampling *)

(** C10. Sampling is enabled exactly when [--sample] is passed or
    WITH_TIMEOUT_SAMPLE_ON_TIMEOUT is set to a string that is not empty; the
    values [0] and [false] enable it. When WITH_TIMEOUT_SAMPLE_SECONDS is set
    to something that [int] refuses, whatever the [int] of the interpreter
    accepts, it is ignored, and the duration is the one of
    [--sample-seconds], 8 by default; when [int] accepts it, the duration is
    its value. These are the values that [main] passes to
    [run_with_timeouts]. *)
Theorem C10_sampling_options (int : string → option Z) (cl : cmdline)
    (argv : list string) (environ : gmap string string) (w : world)
    (i : option interruption) :
  let args := parse_known_args cl in
  let enabled := sample args || env_sample_on_timeout environ in
  (enabled = true
   ↔ cl_sample cl = true
     ∨ ∃ v, environ !! "WITH_TIMEOUT_SAMPLE_ON_TIMEOUT" = Some v
            ∧ v ≠ EmptyString)
  ∧ (environ !! "WITH_TIMEOUT_SAMPLE_ON_TIMEOUT" = Some "0" → enabled = true)
  ∧ (environ !! "WITH_TIMEOUT_SAMPLE_ON_TIMEOUT" = Some "false" →
       enabled = true)
  ∧ (∀ v, environ !! "WITH_TIMEOUT_SAMPLE_SECONDS" = Some v →
          int v = None →
          effective_sample_seconds int args environ
          = default 8 (cl_sample_seconds cl))
  ∧ (∀ v n, environ !! "WITH_TIMEOUT_SAMPLE_SECONDS" = Some v →
            v ≠ EmptyString → int v = Some n →
            effective_sample_seconds int args environ = n)
  ∧ (environ !! "WITH_TIMEOUT_SAMPLE_SECONDS" = None →
       effective_sample_seconds int args environ
       = default 8 (cl_sample_seconds cl))
  ∧ (∀ cmd, command args argv = cmd → cmd ≠ [] →
       main int cl argv environ w i
       = (rc ← run_with_timeouts_upto (idle args) (hard args) enabled
                 (effective_sample_seconds int args environ) cmd w i;
          mret (SysExit rc))).
Proof.
  intros args enabled.
  assert (Hen : enabled = true
                ↔ cl_sample cl = true
                  ∨ ∃ v, environ !! "WITH_TIMEOUT_SAMPLE_ON_TIMEOUT" = Some v
                         ∧ v ≠ EmptyString).
  { unfold enabled, env_sample_on_timeout. cbn [sample args parse_known_args].
    rewrite orb_true_iff, truthy_str_spec. split.
    - intros [H|H]; [left; exact H|right].
      destruct (environ !! "WITH_TIMEOUT_SAMPLE_ON_TIMEOUT") as [v|];
        [eauto | now destruct H].
    - intros [H|(v & -> & H)]; [left; exact H | right; exact H]. }
  split; [exact Hen|]. split; [|split; [|split; [|split; [|split]]]].
  - intros H. apply Hen. right. exists "0". split; [exact H | discriminate].
  - intros H. apply Hen. right. exists "false". split; [exact H | discriminate].
  - intros v Hv Hint. unfold effective_sample_seconds. rewrite Hv, Hint.
    destruct (Py.truthy_str v); reflexivity.
  - intros v n Hv Hne Hint. unfold effective_sample_seconds.
    rewrite Hv, Hint. apply truthy_str_spec in Hne. rewrite Hne. reflexivity.
  - intros Hv. unfold effective_sample_seconds. rewrite Hv. reflexivity.
  - intros cmd Hcmd Hne. unfold main. fold args. rewrite Hcmd.
    destruct cmd; [congruence | reflexivity].
Qed.

(** With the [int] of CPython: [0] enables the sampling, and [eight] leaves
    the duration at 8. *)
Lemma C10_sampling_options_witness :
  (false || env_sample_on_timeout sample_environ = true
   ↔ false = true
     ∨ ∃ v, sample_environ !! "WITH_TIMEOUT_SAMPLE_ON_TIMEOUT" = Some v
            ∧ v ≠ EmptyString)
  ∧ false || env_sample_on_timeout sample_environ = true
  ∧ effective_sample_seconds Py.int (parse_known_args plain_cmdline)
      sample_environ = 8.
Proof.
  pose proof (C10_sampling_options Py.int plain_cmdline
                ["with-timeout.py"; "--idle"; "120"; "--hard"; "1800"; "--";
                 "xcodebuild"; "test"] sample_environ base_world None)
    as (H1 & H2 & _ & H4 & _).
  split; [exact H1|]. split.
  - apply H2. reflexivity.
  - apply (H4 "eight"); reflexivity.
Defined.

(** What the [int] of CPython accepts and refuses. The separators FS to US
    are not white space for it; white space and decimal digits outside
    ASCII are; a literal of more than 4300 digits is refused. *)
Example int_literals :
  Py.int " 12_0 " = Some 120
  ∧ Py.int "-7" = Some (-7)
  ∧ Py.int "1__0" = None
  ∧ Py.int "0x10" = None
  ∧ Py.int (String (ascii_of_nat 31) "5") = None
  ∧ Py.int (String (ascii_of_nat 194) (String (ascii_of_nat 160) "5"))
    = Some 5
  ∧ Py.int (String (ascii_of_nat 217) (String (ascii_of_nat 163) ""))
    = Some 3
  ∧ Py.int (string_of_list_ascii (replicate 4300 "1"%char)) ≠ None
  ∧ Py.int (string_of_list_ascii (replicate 4301 "1"%char)) = None.
Proof.
  repeat split; try (vm_compute; reflexivity).
  vm_compute. discriminate.
Qed.

(** * Further properties of the code *)

(** ** scripts/with-timeout.py: the output of the loop *)

Lemma read_events_written (evs : list event) (st : state) :
  ∃ st', read_events xctest_pid_re evs st = (written evs, Done st')
    ∧ xctest_pid st' = xctest_pid st
    ∧ returncode st' = returncode st
    ∧ timed_out st' = timed_out st.
Proof.
  revert st. induction evs as [|ev evs IH]; intros st.
  - exists st. repeat split; reflexivity.
  - cbn [read_events]. unfold read_event, written. cbn [omap list_omap].
    destruct (Py.truthy_str (ev_line ev)) eqn:E.
    + rewrite scan_pid_never, emit_bind.
      destruct (IH (set_last (ev_now ev) st)) as (st' & Heq & Hx & Hrc & Hto).
      exists st'. cbn [trace_of result_of mret M_ret fst snd].
      rewrite bind_Done, Heq. auto.
    + rewrite mret_bind. apply IH.
Qed.

Section LoopOutput.
Variables (idle_sec hard_sec : Z) (start : Q).

Local Abbreviation monitor' := (monitor idle_sec hard_sec start).

(** A cycle that fires no timeout writes the lines it reads, then polls. *)
Lemma cycle_body_written (c : cycle) (st : state) :
  hard_exceeded hard_sec start c = false →
  cy_events c ≠ [] ∨ idle_exceeded idle_sec c st = false →
  ∃ st', cycle_body idle_sec hard_sec start c st
         = (written (cy_events c),
            Done (if returncode st' is Some _ then Break st' else Continue st'))
    ∧ xctest_pid st' = xctest_pid st
    ∧ timed_out st' = timed_out st.
Proof.
  intros Hh Hq. unfold cycle_body. rewrite Hh.
  destruct (cy_events c) as [|ev evs] eqn:Hev.
  - destruct Hq as [Hq|Hq]; [congruence|]. rewrite Hq.
    exists (poll (cy_poll c) st). split; [reflexivity|].
    split; [|apply timed_out_poll].
    unfold poll. destruct (returncode st); reflexivity.
  - destruct (read_events_written (ev :: evs) st) as (st' & Heq & Hx & _ & Hto).
    rewrite Heq, bind_Done. exists (poll (cy_poll c) st').
    cbn [trace_of result_of mret M_ret fst snd]. rewrite app_nil_r.
    split; [reflexivity|]. rewrite timed_out_poll. split; [|exact Hto].
    rewrite <- Hx. unfold poll. destruct (returncode st'); reflexivity.
Qed.

(** The trace of the loop: the lines of the cycles it has read, then at
    most one timeout line, printed for the first cycle that it has not
    read. *)
Lemma monitor_written (script : list cycle) (st : state) :
  ∃ n tail, (n ≤ length script)%nat
    ∧ trace_of (monitor' script st) = loop_writes (take n script) ++ tail
    ∧ match result_of (monitor' script st) with
      | Monitoring => n = length script ∧ tail = []
      | Done st' =>
          xctest_pid st' = xctest_pid st
          ∧ (tail = [] ∧ timed_out st' = timed_out st ∧ (0 < n)%nat
             ∨ tail = [Print HardLimitExceeded] ∧ timed_out st' = true
               ∧ hard_sec ≠ 0
               ∧ (∃ c, script !! n = Some c
                       ∧ hard_exceeded hard_sec start c = true)
             ∨ tail = [Print IdleLimitExceeded] ∧ timed_out st' = true
               ∧ idle_sec ≠ 0
               ∧ (∃ c, script !! n = Some c ∧ cy_events c = []
                       ∧ hard_exceeded hard_sec start c = false))
      | Raised _ => False
      end.
Proof.
  revert st. induction script as [|c script IH]; intros st.
  - exists 0%nat, []. cbn. auto.
  - cbn [monitor].
    destruct (hard_exceeded hard_sec start c) eqn:Hh.
    { rewrite (cycle_body_hard _ _ _ _ _ Hh), bind_Done.
      exists 0%nat, [Print HardLimitExceeded].
      cbn. split; [lia|]. split; [reflexivity|]. split; [reflexivity|].
      right; left. split; [reflexivity|]. split; [reflexivity|]. split.
      - unfold hard_exceeded in Hh. intros ->. discriminate Hh.
      - exists c. auto. }
    assert (Hstep : ∀ st' n tail,
      xctest_pid st' = xctest_pid st → timed_out st' = timed_out st →
      match result_of (monitor' script st') with
      | Monitoring => n = length script ∧ tail = []
      | Done st'' =>
          xctest_pid st'' = xctest_pid st'
          ∧ (tail = [] ∧ timed_out st'' = timed_out st' ∧ (0 < n)%nat
             ∨ tail = [Print HardLimitExceeded] ∧ timed_out st'' = true
               ∧ hard_sec ≠ 0
               ∧ (∃ c, script !! n = Some c
                       ∧ hard_exceeded hard_sec start c = true)
             ∨ tail = [Print IdleLimitExceeded] ∧ timed_out st'' = true
               ∧ idle_sec ≠ 0
               ∧ (∃ c, script !! n = Some c ∧ cy_events c = []
                       ∧ hard_exceeded hard_sec start c = false))
      | Raised _ => False
      end →
      match result_of (monitor' script st') with
      | Monitoring => S n = length (c :: script) ∧ tail = []
      | Done st'' =>
          xctest_pid st'' = xctest_pid st
          ∧ (tail = [] ∧ timed_out st'' = timed_out st ∧ (0 < S n)%nat
             ∨ tail = [Print HardLimitExceeded] ∧ timed_out st'' = true
               ∧ hard_sec ≠ 0
               ∧ (∃ c', (c :: script) !! S n = Some c'
                        ∧ hard_exceeded hard_sec start c' = true)
             ∨ tail = [Print IdleLimitExceeded] ∧ timed_out st'' = true
               ∧ idle_sec ≠ 0
               ∧ (∃ c', (c :: script) !! S n = Some c' ∧ cy_events c' = []
                        ∧ hard_exceeded hard_sec start c' = false))
      | Raised _ => False
      end).
    { intros st' n tail Hx Hto Hr.
      destruct (result_of (monitor' script st')) as [st''| |].
      - destruct Hr as (Hx' & [(-> & Hto' & _)|[Hr|Hr]]).
        + split; [congruence|]. left.
          split; [reflexivity|]. split; [congruence | lia].
        + split; [congruence|]. right; left. exact Hr.
        + split; [congruence|]. right; right. exact Hr.
      - exact Hr.
      - destruct Hr as [-> ->]. auto. }
    destruct (cy_events c) as [|ev evs] eqn:Hev.
    + destruct (idle_exceeded idle_sec c st) eqn:Hi.
      { rewrite (cycle_body_idle _ _ _ _ _ Hh Hev Hi), bind_Done.
        exists 0%nat, [Print IdleLimitExceeded].
        cbn. split; [lia|]. split; [reflexivity|]. split; [reflexivity|].
        right; right. split; [reflexivity|]. split; [reflexivity|]. split.
        - unfold idle_exceeded in Hi. intros ->. discriminate Hi.
        - exists c. auto. }
      destruct (cycle_body_written c st Hh (or_intror Hi))
        as (st' & Heq & Hx & Hto).
      rewrite Heq, bind_Done, Hev. cbn [written omap list_omap app].
      destruct (returncode st') eqn:Hrc.
      * exists 1%nat, []. cbn. rewrite Hev. cbn.
        split; [lia|]. split; [reflexivity|]. split; [exact Hx|].
        left. split; [reflexivity|]. split; [exact Hto | lia].
      * destruct (IH st') as (n & tail & Hn & Ht & Hr).
        exists (S n), tail. cbn [length take loop_writes map concat].
        rewrite Hev. cbn [written omap list_omap app].
        split; [lia|]. split; [exact Ht|].
        exact (Hstep st' n tail Hx Hto Hr).
    + assert (Hne : cy_events c ≠ []) by (rewrite Hev; discriminate).
      destruct (cycle_body_written c st Hh (or_introl Hne))
        as (st' & Heq & Hx & Hto).
      rewrite Heq, bind_Done.
      destruct (returncode st') eqn:Hrc.
      * exists 1%nat, []. cbn [take loop_writes map concat length].
        rewrite !app_nil_r. cbn. split; [lia|]. split; [reflexivity|].
        split; [exact Hx|].
        left. split; [reflexivity|]. split; [exact Hto | lia].
      * destruct (IH st') as (n & tail & Hn & Ht & Hr).
        exists (S n), tail. cbn [length take loop_writes map concat].
        fold (loop_writes (take n script)).
        split; [lia|]. split.
        -- rewrite Ht, app_assoc. reflexivity.
        -- exact (Hstep st' n tail Hx Hto Hr).
Qed.

End LoopOutput.

(** ** The sampling step and the rest of the escalation *)

Lemma try_except_prefix {A : Type} (ts t : trace) (r : result A)
    (h : exn → M A) :
  try_except (ts ++ t, r) h
  = (ts ++ trace_of (try_except (t, r) h), result_of (try_except (t, r) h)).
Proof.
  destruct r as [a|e|]; try reflexivity.
  cbn. destruct (h e) as [t' r']. cbn. rewrite app_assoc. reflexivity.
Qed.

Ltac step_sampling w st :=
  repeat match goal with
    | |- context [pid_exists w ?q] => rewrite (pid_exists_eq w q)
    | |- context [if Py.truthy_int ?q then _ else _] =>
        destruct (Py.truthy_int q)
    | |- context [if alive w ?q then _ else _] => destruct (alive w q)
    | |- context [match xctest_pid st with _ => _ end] =>
        destruct (xctest_pid st)
    | |- context [answer (w_sample w)] => destruct (w_sample w) as [[]|]
    | _ => rewrite bind_Done
    | _ => progress cbn
    end.

Section SamplingStep.
Variables (sample_on_timeout : bool) (sample_seconds : Z) (w : world).

Local Abbreviation sample_step' :=
  (sample_step sample_on_timeout sample_seconds w).

Lemma sample_step_effects (st : state) :
  Forall (λ e, sampling_effect e = true) (trace_of (sample_step' st)).
Proof.
  unfold sample_step, choose_target, choose_child, sample_pid.
  destruct sample_on_timeout; [|constructor].
  step_sampling w st; repeat constructor.
Qed.

Lemma sample_step_child (st : state) :
  xctest_pid st = None →
  Forall (only_child w sample_seconds) (trace_of (sample_step' st)).
Proof.
  intros Hx.
  unfold sample_step, choose_target, choose_child, sample_pid.
  rewrite Hx.
  destruct sample_on_timeout; [|constructor].
  step_sampling w st; repeat constructor.
Qed.

(** The escalation is the sampling step, when it is reached, followed by
    the escalation of a run that does not sample. *)
Lemma terminate_split (st : state) :
  ∃ ts,
    terminate sample_on_timeout sample_seconds w st
    = (ts ++ trace_of (terminate false sample_seconds w st),
       result_of (terminate false sample_seconds w st))
    ∧ (ts = []
       ∨ timed_out st = true
         ∧ ts = trace_of (sample_step' (poll (w_poll_guard w) st))).
Proof.
  unfold terminate. destruct (timed_out st) eqn:Hto.
  2:{ exists []. split; [reflexivity | left; reflexivity]. }
  destruct (returncode (poll (w_poll_guard w) st)) as [code|] eqn:E.
  { exists []. split; [reflexivity | left; reflexivity]. }
  set (st0 := poll (w_poll_guard w) st).
  exists (trace_of (sample_step' st0)). split; [|right; auto].
  pose proof (sample_step_Done sample_on_timeout sample_seconds w st0) as Hs.
  destruct (sample_step' st0) as [ts rs] eqn:Es.
  cbn [result_of snd] in Hs. subst rs.
  rewrite bind_Done.
  change (sample_step false sample_seconds w st0) with (mret tt : M unit).
  rewrite mret_bind.
  match goal with
  | |- try_except (ts ++ trace_of ?m, result_of ?m) ?h = _ =>
      rewrite (try_except_prefix ts (trace_of m) (result_of m) h);
      rewrite (M_eta m)
  end.
  reflexivity.
Qed.

End SamplingStep.

(** The escalation of a run that does not sample only signals and sleeps. *)
Lemma terminate_plain_effects (sample_seconds : Z) (w : world) (st : state) :
  Forall escalation_effect (trace_of (terminate false sample_seconds w st)).
Proof.
  destruct (terminate_sound false sample_seconds w st) as (t & r & -> & H).
  cbn [trace_of fst].
  inversion H; subst; cbn [sample_step trace_of mret M_ret fst app];
    repeat first [ apply Forall_nil_2 | apply Forall_cons_2; [exact I|]
                 | apply Forall_app_2 | apply Forall_replicate; exact I ].
Qed.

Section Anatomy.
Variables (idle_sec hard_sec : Z) (sample_on_timeout : bool)
          (sample_seconds : Z) (cmd : list string) (w : world).

Local Abbreviation loop :=
  (monitor idle_sec hard_sec (w_start w) (w_script w) (fresh w)).
Local Abbreviation run :=
  (run_with_timeouts idle_sec hard_sec sample_on_timeout sample_seconds cmd w).
Local Abbreviation plain :=
  (run_with_timeouts idle_sec hard_sec false sample_seconds cmd w).

(** A run is its loop, then the sampling step when the escalation reaches
    it, then what the same run does without sampling. *)
Lemma run_anatomy :
  ∃ ts rest,
    trace_of run = trace_of loop ++ ts ++ rest
    ∧ trace_of plain = trace_of loop ++ rest
    ∧ result_of run = result_of plain
    ∧ Forall plain_effect rest
    ∧ (ts = []
       ∨ ∃ st, result_of loop = Done st ∧ timed_out st = true
           ∧ ts = trace_of (sample_step sample_on_timeout sample_seconds w
                              (poll (w_poll_guard w) st))).
Proof.
  destruct loop as [t1 [st1|e|]] eqn:El.
  - destruct (terminate_split sample_on_timeout sample_seconds w st1)
      as (ts & Et & Hts).
    destruct (terminate false sample_seconds w st1) as [t2 r2] eqn:Ep.
    cbn [trace_of result_of fst snd] in Et.
    pose proof (terminate_plain_effects sample_seconds w st1) as Hesc.
    rewrite Ep in Hesc. cbn [trace_of fst] in Hesc.
    rewrite (run_ended idle_sec hard_sec sample_on_timeout sample_seconds
               cmd w _ _ _ _ El Et).
    rewrite (run_ended idle_sec hard_sec false sample_seconds
               cmd w _ _ _ _ El Ep).
    assert (Hesc' : Forall plain_effect t2).
    { eapply Forall_impl; [exact Hesc|]. intros e He. right. exact He. }
    assert (Hd : Forall plain_effect (drained w)).
    { eapply Forall_impl; [apply drained_writes|]. intros e He. left. exact He. }
    assert (Hts' : ts = []
       ∨ ∃ st, Done st1 = Done st ∧ timed_out st = true
           ∧ ts = trace_of (sample_step sample_on_timeout sample_seconds w
                              (poll (w_poll_guard w) st))).
    { destruct Hts as [->|[Hto ->]]; [left; reflexivity|].
      right. exists st1. auto. }
    cbn [trace_of result_of fst snd].
    destruct r2 as [st2|e|]; cbn [trace_of result_of fst snd].
    + exists ts, (t2 ++ drained w). rewrite <- ?app_assoc.
      repeat split; auto. apply Forall_app. auto.
    + exists ts, t2. rewrite <- ?app_assoc. repeat split; auto.
    + exists ts, t2. rewrite <- ?app_assoc. repeat split; auto.
  - exists [], []. unfold run_with_timeouts. fold (fresh w). rewrite El.
    cbn. rewrite app_nil_r. repeat split; auto.
  - exists [], [].
    rewrite (run_pending idle_sec hard_sec sample_on_timeout sample_seconds
               cmd w _ El).
    rewrite (run_pending idle_sec hard_sec false sample_seconds cmd w _ El).
    cbn. rewrite app_nil_r. repeat split; auto.
Qed.

End Anatomy.

Lemma filter_all {A : Type} (f : A → bool) (l : list A) :
  Forall (λ x, f x = true) l → List.filter f l = l.
Proof.
  induction 1 as [|x l Hx _ IH]; [reflexivity|].
  cbn. rewrite Hx, IH. reflexivity.
Qed.

Lemma filter_none {A : Type} (f : A → bool) (l : list A) :
  Forall (λ x, f x = false) l → List.filter f l = [].
Proof.
  induction 1 as [|x l Hx _ IH]; [reflexivity|].
  cbn. rewrite Hx, IH. reflexivity.
Qed.

Lemma loop_effect_plain (e : effect) :
  loop_effect e → sampling_effect e = false ∧ e ≠ Print Usage
                  ∧ ∀ w s, only_child w s e.
Proof.
  intros [H|[->| ->]]; [|repeat split; discriminate ..].
  destruct e; try contradiction. repeat split. discriminate.
Qed.

Lemma plain_effect_plain (e : effect) :
  plain_effect e → sampling_effect e = false ∧ e ≠ Print Usage
                   ∧ (∀ w s, only_child w s e)
                   ∧ sample_of e = None ∧ timeout_of e = None.
Proof.
  intros [H|H]; destruct e; try contradiction; repeat split; discriminate.
Qed.

Lemma sampling_effect_print (e : effect) :
  sampling_effect e = true → e ≠ Print Usage.
Proof. intros H ->. discriminate H. Qed.

Lemma loop_effects (idle_sec hard_sec : Z) (start : Q) (script : list cycle)
    (st : state) :
  Forall loop_effect (trace_of (monitor idle_sec hard_sec start script st)).
Proof.
  destruct (monitor_sound idle_sec hard_sec start script st)
    as (t & r & -> & Hm).
  exact (monitor_spec_effects _ _ _ _ _ _ _ Hm).
Qed.

Lemma xctest_pid_poll (os : option Z) (st : state) :
  xctest_pid (poll os st) = xctest_pid st.
Proof. unfold poll. destruct (returncode st); reflexivity. Qed.

Lemma samples_none (t : trace) :
  Forall (λ e, sample_of e = None) t → samples t = [].
Proof.
  induction 1 as [|e t He _ IH]; [reflexivity|].
  unfold samples in *. cbn [omap list_omap]. rewrite He. exact IH.
Qed.

(** The polls of the grace window. *)
Lemma grace_wait_running (w : world) (n i : nat) (st : state) :
  returncode st = None →
  ∃ st', grace_wait w n i st
         = (replicate (running_polls w n i) Sleep, Done st').
Proof.
  revert i st. induction n as [|n IH]; intros i st Hrc.
  - exists st. reflexivity.
  - cbn [grace_wait running_polls].
    destruct (w_grace_polls w i) as [code|] eqn:E.
    + unfold poll. rewrite Hrc. cbn. eauto.
    + rewrite (poll_None st Hrc), Hrc, emit_bind.
      destruct (IH (S i) st Hrc) as (st' & ->). cbn. eauto.
Qed.

Lemma running_polls_le (w : world) (n i : nat) :
  (running_polls w n i ≤ n)%nat.
Proof.
  revert i. induction n as [|n IH]; intros i; cbn; [lia|].
  destruct (w_grace_polls w i); [lia|]. specialize (IH (S i)). lia.
Qed.

Section Runs.
Variables (idle_sec hard_sec : Z) (sample_on_timeout : bool)
          (sample_seconds : Z) (cmd : list string) (w : world).

Local Abbreviation loop :=
  (monitor idle_sec hard_sec (w_start w) (w_script w) (fresh w)).
Local Abbreviation run :=
  (run_with_timeouts idle_sec hard_sec sample_on_timeout sample_seconds cmd w).

(** A run whose loop ends without a timeout is the loop and the drain. *)
Lemma run_natural_trace (st : state) :
  result_of loop = Done st → timed_out st = false →
  trace_of run = trace_of loop ++ drained w.
Proof.
  intros Er Hto. destruct loop as [t1 r1] eqn:El.
  cbn [result_of snd] in Er. subst r1.
  assert (Et : terminate sample_on_timeout sample_seconds w st = ([], Done st)).
  { unfold terminate. rewrite Hto. reflexivity. }
  rewrite (run_ended idle_sec hard_sec sample_on_timeout sample_seconds
             cmd w _ _ _ _ El Et).
  reflexivity.
Qed.

(** No effect of a run is the usage line. *)
Lemma run_no_usage : Forall (λ e, e ≠ Print Usage) (trace_of run).
Proof.
  destruct (run_anatomy idle_sec hard_sec sample_on_timeout sample_seconds
              cmd w) as (ts & rest & -> & _ & _ & Hrest & Hts).
  apply Forall_app. split; [|apply Forall_app; split].
  - eapply Forall_impl; [apply loop_effects|].
    intros e He. apply loop_effect_plain, He.
  - destruct Hts as [->|(st & _ & _ & ->)]; [constructor|].
    eapply Forall_impl; [apply sample_step_effects|].
    intros e. apply sampling_effect_print.
  - eapply Forall_impl; [exact Hrest|].
    intros e He. apply plain_effect_plain, He.
Qed.

End Runs.

Section RunsUpto.
Variables (idle_sec hard_sec : Z) (sample_on_timeout : bool)
          (sample_seconds : Z) (cmd : list string) (w : world).

Local Abbreviation loop :=
  (monitor idle_sec hard_sec (w_start w) (w_script w) (fresh w)).
Local Abbreviation run_upto :=
  (run_with_timeouts_upto idle_sec hard_sec sample_on_timeout sample_seconds
     cmd w).

(** An interrupted cycle that starts with the hard limit exceeded is a cycle
    like any other: its [readline()] is not reached. *)
Lemma run_upto_hard (i : interruption) :
  result_of loop = Monitoring →
  hard_exceeded hard_sec (w_start w) (started i) = true →
  run_upto (Some i)
  = run_with_timeouts idle_sec hard_sec sample_on_timeout sample_seconds cmd
      (with_script (w_script w ++ [started i]) w).
Proof.
  intros Er Hh. destruct loop as [t r] eqn:El. cbn [result_of snd] in Er.
  subst r. unfold fresh in El.
  destruct (monitor_upto_Monitoring _ _ _ _ _ _ El) as (st_k & Hup & Happ).
  unfold run_with_timeouts_upto, run_with_timeouts.
  cbn [w_start w_script with_script].
  rewrite Hup, Happ. cbn [monitor].
  rewrite (cycle_body_hard _ _ _ _ _ Hh).
  unfold interrupted. unfold hard_exceeded, started in Hh. cbn [cy_now] in Hh.
  rewrite Hh. reflexivity.
Qed.

(** Otherwise the run writes the lines read before and stays in the
    [readline()], or leaves with its error. *)
Lemma run_upto_interrupted (i : interruption) :
  result_of loop = Monitoring →
  hard_exceeded hard_sec (w_start w) (started i) = false →
  run_upto (Some i)
  = (trace_of loop ++ interrupted_writes (Some i), interrupted_result (Some i)).
Proof.
  intros Er Hh. destruct loop as [t r] eqn:El. cbn [result_of snd] in Er.
  subst r. unfold fresh in El.
  destruct (monitor_upto_Monitoring _ _ _ _ _ _ El) as (st_k & Hup & _).
  unfold run_with_timeouts_upto. rewrite Hup.
  unfold interrupted. unfold hard_exceeded, started in Hh. cbn [cy_now] in Hh.
  rewrite Hh.
  destruct (read_events_written (int_events i) st_k) as (st' & -> & _).
  rewrite bind_Done. cbn [trace_of result_of fst snd interrupted_writes].
  destruct i as [now evs []]; cbn [int_fault int_events];
    cbn; rewrite ?app_nil_r; reflexivity.
Qed.

(** No effect of such a run is the usage line. *)
Lemma run_upto_no_usage (i : option interruption) :
  Forall (λ e, e ≠ Print Usage) (trace_of (run_upto i)).
Proof.
  destruct (result_of loop) as [st|e|] eqn:Er.
  - rewrite (run_upto_Done _ _ _ _ _ _ i st Er). apply run_no_usage.
  - pose proof (loop_outcome idle_sec hard_sec w) as Ho.
    rewrite Er in Ho. destruct Ho.
  - destruct i as [i|]; [|rewrite run_upto_None; apply run_no_usage].
    destruct (hard_exceeded hard_sec (w_start w) (started i)) eqn:Hh.
    + rewrite (run_upto_hard i Er Hh). apply run_no_usage.
    + rewrite (run_upto_interrupted i Er Hh). cbn [trace_of fst].
      apply Forall_app. split.
      * eapply Forall_impl; [apply loop_effects|].
        intros e He. apply loop_effect_plain, He.
      * unfold interrupted_writes, written. apply Forall_forall.
        intros e He. apply list_elem_of_omap in He as (ev & _ & Hev).
        destruct (Py.truthy_str (ev_line ev)); [|discriminate].
        injection Hev as <-. discriminate.
Qed.

End RunsUpto.

(** ** Properties of a run *)

(** X2: the loop writes what it reads and nothing else. Its trace is the
    lines, not empty, of the cycles it has read ([n] of them), each written
    to the stream it came from and in the order read, followed by at most one
    line of its own, the notice of the timeout; a loop that has not ended has
    read every cycle and printed nothing; the notice is there exactly when
    the loop ends with [timed_out] set; and the notice of the hard limit is
    printed for a cycle of which the loop has read nothing. *)
Theorem loop_output (idle_sec hard_sec : Z) (start : Q) (script : list cycle)
    (st : state) :
  let loop := monitor idle_sec hard_sec start script st in
  ∃ n tail, (n ≤ length script)%nat
    ∧ trace_of loop = loop_writes (take n script) ++ tail
    ∧ (tail = [] ∨ tail = [Print HardLimitExceeded]
       ∨ tail = [Print IdleLimitExceeded])
    ∧ (result_of loop = Monitoring → n = length script ∧ tail = [])
    ∧ (∀ st', result_of loop = Done st' → timed_out st = false →
         (timed_out st' = true ↔ tail ≠ []))
    ∧ (tail = [Print HardLimitExceeded] →
         ∃ c, script !! n = Some c ∧ hard_exceeded hard_sec start c = true)
    ∧ (tail = [Print IdleLimitExceeded] →
         ∃ c, script !! n = Some c ∧ cy_events c = []).
Proof.
  intros loop. subst loop.
  destruct (monitor_written idle_sec hard_sec start script st)
    as (n & tail & Hn & Ht & Hr).
  exists n, tail. split; [exact Hn|]. split; [exact Ht|].
  destruct (result_of (monitor idle_sec hard_sec start script st))
    as [st1|e|]; [|contradiction|].
  - destruct Hr as (_ & [(-> & Hto & _)
                        |[(-> & Hto & _ & c & Hc & Hh)
                         |(-> & Hto & _ & c & Hc & Hev & _)]]).
    + split; [auto|]. split; [discriminate|]. split; [|split; discriminate].
      intros st' [= <-] H0. rewrite Hto, H0. split; [discriminate|congruence].
    + split; [auto|]. split; [discriminate|]. split; [|split].
      * intros st' [= <-] _. split; [discriminate|auto].
      * intros _. exists c. auto.
      * discriminate.
    + split; [auto|]. split; [discriminate|]. split; [|split].
      * intros st' [= <-] _. split; [discriminate|auto].
      * discriminate.
      * intros _. exists c. auto.
  - destruct Hr as [-> ->]. split; [auto|]. split; [auto|].
    split; [discriminate|]. split; discriminate.
Qed.

(** X3: a run whose loop ends without a timeout passes the child through:
    what it emits is the lines read by the loop followed by what
    [communicate] returns, with no line, probe, sample, signal or sleep of
    its own, and it returns a status that [poll] collected in the loop. *)
Theorem natural_exit_passthrough (idle_sec hard_sec : Z)
    (sample_on_timeout : bool) (sample_seconds : Z) (cmd : list string)
    (w : world) (st : state) :
  let loop := monitor idle_sec hard_sec (w_start w) (w_script w) (fresh w) in
  let run := run_with_timeouts idle_sec hard_sec sample_on_timeout
               sample_seconds cmd w in
  result_of loop = Done st → timed_out st = false →
  ∃ n code c, (n ≤ length (w_script w))%nat
    ∧ c ∈ w_script w ∧ cy_poll c = Some code
    ∧ run = (loop_writes (take n (w_script w)) ++ drained w, Done code).
Proof.
  intros loop run Er Hto. subst loop run.
  destruct (run_natural_exit idle_sec hard_sec sample_on_timeout
              sample_seconds cmd w st Er Hto) as (_ & code & c & Hc & Hp & Hr).
  pose proof (run_natural_trace idle_sec hard_sec sample_on_timeout
                sample_seconds cmd w st Er Hto) as Ht.
  destruct (monitor_written idle_sec hard_sec (w_start w) (w_script w)
              (fresh w)) as (n & tail & Hn & Hl & Hres).
  rewrite Er in Hres.
  destruct Hres as (_ & [(-> & _)|[(_ & Hto' & _)|(_ & Hto' & _)]]);
    [|congruence ..].
  exists n, code, c. split; [exact Hn|]. split; [exact Hc|].
  split; [exact Hp|].
  rewrite <- (M_eta (run_with_timeouts _ _ _ _ _ _)), Ht, Hr, Hl, app_nil_r.
  reflexivity.
Qed.

Lemma natural_exit_passthrough_witness :
  ∃ n code c, (n ≤ 2)%nat
    ∧ c ∈ w_script chatty_world ∧ cy_poll c = Some code
    ∧ run_with_timeouts 2 100 false 8 ["make"] chatty_world
      = (loop_writes (take n (w_script chatty_world)) ++ drained chatty_world,
         Done code).
Proof.
  apply (natural_exit_passthrough 2 100 false 8 ["make"] chatty_world
           (State 1 None (Some 3) false)); reflexivity.
Defined.

(** A loop with both limits 0 has written the lines of the cycles it has
    read and fired no timeout. *)
Lemma unlimited_loop (w : world) :
  let loop := monitor 0 0 (w_start w) (w_script w) (fresh w) in
  loop = (loop_writes (w_script w), Monitoring)
  ∨ ∃ n st, (n ≤ length (w_script w))%nat
      ∧ loop = (loop_writes (take n (w_script w)), Done st)
      ∧ timed_out st = false.
Proof.
  intros loop. subst loop.
  destruct (monitor_written 0 0 (w_start w) (w_script w) (fresh w))
    as (n & tail & Hn & Hl & Hres).
  destruct (monitor 0 0 (w_start w) (w_script w) (fresh w)) as [t1 r1] eqn:El.
  cbn [trace_of result_of fst snd] in Hl, Hres.
  destruct r1 as [st|e|]; [|contradiction|].
  - right.
    destruct Hres as (_ & [(-> & Hto & _)|[(_ & _ & H0 & _)|(_ & _ & H0 & _)]]);
      [|congruence ..].
    exists n, st. rewrite Hl, app_nil_r. auto.
  - left. destruct Hres as [-> ->].
    rewrite Hl, app_nil_r, take_ge by lia. reflexivity.
Qed.

(** X4: with both limits 0 (the defaults of [--idle] and [--hard]) no
    timeout is ever detected, whatever the clock reads. The run writes the
    lines it reads, in the order read, and does nothing else, until the
    child's status is collected by a poll of the loop: it then writes what
    [communicate] returns and returns that status. Before that the run is in
    the loop, between two cycles or in a [readline()] that waits, unless a
    [readline()] raises [UnicodeDecodeError]: that error ends the run. *)
Theorem unlimited_run_is_transparent (sample_on_timeout : bool)
    (sample_seconds : Z) (cmd : list string) (w : world)
    (i : option interruption) :
  let run := run_with_timeouts_upto 0 0 sample_on_timeout sample_seconds
               cmd w i in
  run = (loop_writes (w_script w) ++ interrupted_writes i,
         interrupted_result i)
  ∨ ∃ n code c, (n ≤ length (w_script w))%nat
      ∧ c ∈ w_script w ∧ cy_poll c = Some code
      ∧ run = (loop_writes (take n (w_script w)) ++ drained w, Done code).
Proof.
  intros run. subst run.
  destruct (unlimited_loop w) as [El|(n & st & Hn & El & Hto)].
  - left.
    assert (Er : result_of (monitor 0 0 (w_start w) (w_script w) (fresh w))
                 = Monitoring) by (rewrite El; reflexivity).
    destruct i as [i|].
    + rewrite (run_upto_interrupted 0 0 sample_on_timeout sample_seconds cmd
                 w i Er eq_refl), El.
      reflexivity.
    + rewrite run_upto_None.
      rewrite (run_pending 0 0 sample_on_timeout sample_seconds cmd w _ El).
      cbn [interrupted_writes interrupted_result]. rewrite app_nil_r.
      reflexivity.
  - right.
    assert (Er : result_of (monitor 0 0 (w_start w) (w_script w) (fresh w))
                 = Done st) by (rewrite El; reflexivity).
    rewrite (run_upto_Done 0 0 sample_on_timeout sample_seconds cmd w i st Er).
    destruct (run_natural_exit 0 0 sample_on_timeout sample_seconds cmd w st
                Er Hto) as (_ & code & c & Hc & Hp & Hr).
    pose proof (run_natural_trace 0 0 sample_on_timeout sample_seconds cmd w
                  st Er Hto) as Ht.
    exists n, code, c. split; [exact Hn|]. split; [exact Hc|].
    split; [exact Hp|].
    rewrite <- (M_eta (run_with_timeouts _ _ _ _ _ _)), Ht, Hr, El.
    reflexivity.
Qed.

(** X19: a [readline()] that does not return (line 77). When the loop meets
    one in a cycle that it has started with the hard limit not exceeded, the
    run has written the lines read until then and nothing else: no timeout
    is recorded, then or later, and no signal is sent. If the [readline()]
    waits for the end of a line, the run stays in it, where neither limit is
    evaluated; if it raises [UnicodeDecodeError], the error leaves
    [run_with_timeouts]: the child is not terminated and nothing is
    drained. *)
Theorem readline_interrupts (idle_sec hard_sec : Z) (sample_on_timeout : bool)
    (sample_seconds : Z) (cmd : list string) (w : world) (i : interruption) :
  let loop := monitor idle_sec hard_sec (w_start w) (w_script w) (fresh w) in
  let run := run_with_timeouts_upto idle_sec hard_sec sample_on_timeout
               sample_seconds cmd w (Some i) in
  result_of loop = Monitoring →
  hard_exceeded hard_sec (w_start w) (started i) = false →
  run = (loop_writes (w_script w) ++ written (int_events i),
         match int_fault i with
         | Blocks => Monitoring
         | Undecodable => Raised UnicodeDecodeError
         end)
  ∧ timeouts (trace_of run) = []
  ∧ signals (trace_of run) = [].
Proof.
  intros loop run Er Hh. subst loop run.
  rewrite (run_upto_interrupted idle_sec hard_sec sample_on_timeout
             sample_seconds cmd w i Er Hh).
  destruct (monitor_written idle_sec hard_sec (w_start w) (w_script w)
              (fresh w)) as (n & tail & Hn & Hl & Hres).
  rewrite Er in Hres. destruct Hres as [-> ->].
  rewrite Hl, app_nil_r, take_ge by lia.
  cbn [trace_of fst interrupted_writes].
  assert (Hw : Forall is_write
                 (loop_writes (w_script w) ++ written (int_events i))).
  { apply Forall_app. split.
    - unfold loop_writes. apply Forall_concat, Forall_fmap, Forall_forall.
      intros c _. unfold written. apply Forall_forall. intros e He.
      apply list_elem_of_omap in He as (ev & _ & Hev).
      destruct (Py.truthy_str (ev_line ev)); [|discriminate].
      injection Hev as <-. exact I.
    - unfold written. apply Forall_forall. intros e He.
      apply list_elem_of_omap in He as (ev & _ & Hev).
      destruct (Py.truthy_str (ev_line ev)); [|discriminate].
      injection Hev as <-. exact I. }
  destruct (writes_quiet _ Hw) as (Hsig & _ & _ & Hto).
  split; [|split; [exact Hto | exact Hsig]].
  destruct i as [now evs []]; reflexivity.
Qed.

Lemma readline_interrupts_witness :
  run_with_timeouts_upto 2 3 false 8 ["make"]
    (with_script [quiet_cycle 0] base_world) (Some bad_bytes)
  = (loop_writes [quiet_cycle 0] ++ written (int_events bad_bytes),
     Raised UnicodeDecodeError)
  ∧ timeouts (trace_of (run_with_timeouts_upto 2 3 false 8 ["make"]
                          (with_script [quiet_cycle 0] base_world)
                          (Some bad_bytes))) = []
  ∧ signals (trace_of (run_with_timeouts_upto 2 3 false 8 ["make"]
                         (with_script [quiet_cycle 0] base_world)
                         (Some bad_bytes))) = [].
Proof.
  apply (readline_interrupts 2 3 false 8 ["make"]
           (with_script [quiet_cycle 0] base_world) bad_bytes); reflexivity.
Defined.

(** X5: whatever the child writes, a run probes and samples no process but
    the child itself, for the configured number of seconds, and never
    announces the sample of a discovered process: the pattern of line 46
    leaves [xctest_pid] at [None] in every run. *)
Theorem only_the_child_is_sampled (idle_sec hard_sec : Z)
    (sample_on_timeout : bool) (sample_seconds : Z) (cmd : list string)
    (w : world) :
  Forall (only_child w sample_seconds)
    (trace_of (run_with_timeouts idle_sec hard_sec sample_on_timeout
                 sample_seconds cmd w)).
Proof.
  destruct (run_anatomy idle_sec hard_sec sample_on_timeout sample_seconds
              cmd w) as (ts & rest & -> & _ & _ & Hrest & Hts).
  apply Forall_app. split; [|apply Forall_app; split].
  - eapply Forall_impl; [apply loop_effects|].
    intros e He. apply loop_effect_plain, He.
  - destruct Hts as [->|(st & Er & _ & ->)]; [constructor|].
    apply sample_step_child. rewrite xctest_pid_poll.
    destruct (monitor_written idle_sec hard_sec (w_start w) (w_script w)
                (fresh w)) as (n & tail & _ & _ & Hres).
    rewrite Er in Hres. destruct Hres as [-> _]. reflexivity.
  - eapply Forall_impl; [exact Hrest|].
    intros e He. apply plain_effect_plain, He.
Qed.

(** X6: sampling changes nothing else. Whether it is enabled, for how many
    seconds, whatever [os.kill(pid, 0)] answers and whether the [sample]
    tool runs, is missing or fails: the run returns (or raises) what the run
    without sampling does, and its trace without the probes, the sample and
    the lines about them is the trace of that run. *)
Theorem sampling_is_harmless (idle_sec hard_sec : Z)
    (sample_on_timeout : bool) (sample_seconds seconds' : Z)
    (cmd : list string) (w : world) (kill0 : Z → probe) (s : option exn) :
  let run := run_with_timeouts idle_sec hard_sec sample_on_timeout
               sample_seconds cmd (with_kill0 kill0 (with_sample s w)) in
  let plain := run_with_timeouts idle_sec hard_sec false seconds' cmd w in
  List.filter (λ e, negb (sampling_effect e)) (trace_of run) = trace_of plain
  ∧ result_of run = result_of plain.
Proof.
  intros run plain. subst run plain.
  set (w' := with_kill0 kill0 (with_sample s w)).
  destruct (run_anatomy idle_sec hard_sec sample_on_timeout sample_seconds
              cmd w') as (ts & rest & -> & Hp & -> & Hrest & Hts).
  change (run_with_timeouts idle_sec hard_sec false seconds' cmd w)
    with (run_with_timeouts idle_sec hard_sec false sample_seconds cmd w').
  split; [|reflexivity].
  rewrite Hp, !List.filter_app.
  rewrite (filter_none _ ts).
  2:{ destruct Hts as [->|(st & _ & _ & ->)]; [constructor|].
      eapply Forall_impl; [apply sample_step_effects|].
      intros e ->. reflexivity. }
  rewrite (filter_all _ rest).
  2:{ eapply Forall_impl; [exact Hrest|].
      intros e He. apply plain_effect_plain in He as [-> _]. reflexivity. }
  rewrite filter_all; [reflexivity|].
  eapply Forall_impl; [apply loop_effects|].
  intros e He. apply loop_effect_plain in He as [-> _]. reflexivity.
Qed.

(** X7: a run takes at most one sample; with sampling disabled, or with no
    timeout recorded, it probes no process, runs no sample and prints no
    line about one. *)
Theorem sample_at_most_once (idle_sec hard_sec : Z)
    (sample_on_timeout : bool) (sample_seconds : Z) (cmd : list string)
    (w : world) :
  let t := trace_of (run_with_timeouts idle_sec hard_sec sample_on_timeout
                       sample_seconds cmd w) in
  (length (samples t) ≤ 1)%nat
  ∧ (sample_on_timeout = false ∨ timeouts t = [] →
     List.filter sampling_effect t = []).
Proof.
  intros t. subst t.
  pose proof (run_timeouts idle_sec hard_sec sample_on_timeout sample_seconds
                cmd w) as Hrt.
  pose proof (loop_outcome idle_sec hard_sec w) as Hout.
  destruct (run_anatomy idle_sec hard_sec sample_on_timeout sample_seconds
              cmd w) as (ts & rest & Ht & _ & _ & Hrest & Hts).
  rewrite Ht in *. clear Ht.
  assert (Hl : Forall (λ e, sampling_effect e = false)
                 (trace_of (monitor idle_sec hard_sec (w_start w) (w_script w)
                              (fresh w)))).
  { eapply Forall_impl; [apply loop_effects|].
    intros e He. apply loop_effect_plain, He. }
  assert (Hr : Forall (λ e, sampling_effect e = false) rest).
  { eapply Forall_impl; [exact Hrest|].
    intros e He. apply plain_effect_plain, He. }
  split.
  - rewrite !samples_app.
    destruct (loop_effects_quiet _ (loop_effects idle_sec hard_sec (w_start w)
                                      (w_script w) (fresh w))) as (_ & -> & _).
    rewrite (samples_none rest).
    2:{ eapply Forall_impl; [exact Hrest|].
        intros e He. apply plain_effect_plain, He. }
    rewrite app_nil_r. cbn [app].
    destruct Hts as [->|(st & _ & _ & ->)]; [cbn; lia|].
    apply sample_step_quiet.
  - intros Hoff. rewrite !List.filter_app, (filter_none _ _ Hl),
      (filter_none _ _ Hr), app_nil_r. cbn [app].
    destruct Hts as [->|(st & Er & Hto & ->)]; [reflexivity|].
    destruct Hoff as [->|Hnone]; [reflexivity|].
    exfalso. rewrite Hnone in Hrt. rewrite Er in Hout.
    destruct Hout as (o & Ho). inversion Ho; congruence.
Qed.

(** X8: the length of the grace window. After a timeout, with the child
    running on line 125 and a SIGTERM call that returns, the run sleeps 0.2 s
    once for each poll that finds the child running before the first poll
    that finds it exited, ten times at most: it stops waiting as soon as the
    child is gone. *)
Theorem grace_window_sleeps (idle_sec hard_sec : Z)
    (sample_on_timeout : bool) (sample_seconds : Z) (cmd : list string)
    (w : world) (st : state) :
  let loop := monitor idle_sec hard_sec (w_start w) (w_script w) (fresh w) in
  let run := run_with_timeouts idle_sec hard_sec sample_on_timeout
               sample_seconds cmd w in
  result_of loop = Done st → timed_out st = true →
  w_poll_guard w = None → w_killpg_term w = None →
  sleeps (trace_of run) = running_polls w 10 0
  ∧ (running_polls w 10 0 ≤ 10)%nat.
Proof.
  intros loop run Er Hto Hg Hterm. subst loop run.
  split; [|apply running_polls_le].
  pose proof (loop_outcome idle_sec hard_sec w) as Hout.
  rewrite Er in Hout. destruct Hout as (o & Ho).
  assert (Hrc : returncode st = None) by (inversion Ho; congruence).
  destruct (run_view idle_sec hard_sec sample_on_timeout sample_seconds cmd w
              st Er) as (t2 & r2 & H2 & _ & -> & _).
  destruct (grace_wait_running w 10 0 st Hrc) as (st' & Eg).
  destruct (sample_step_quiet sample_on_timeout sample_seconds w st)
    as (_ & _ & Hz & _).
  assert (Hk : ∀ k st'', grace_wait w 10 0 st = (replicate k Sleep, Done st'')
                         → k = running_polls w 10 0).
  { intros k st'' E. rewrite Eg in E. injection E as E _.
    apply (f_equal length) in E. rewrite !length_replicate in E. auto. }
  inversion H2; subst; try congruence.
  - rewrite returncode_poll, Hrc, Hg in *. congruence.
  - rewrite sleeps_app, Hz. cbn [app].
    change (Killpg (w_pid w) SIGTERM :: replicate k Sleep)
      with ([Killpg (w_pid w) SIGTERM] ++ replicate k Sleep).
    rewrite sleeps_app. destruct (signals_sleep k) as (_ & -> & _).
    cbn. eauto.
  - rewrite sleeps_app, Hz. cbn [app].
    change (Killpg (w_pid w) SIGTERM :: replicate 10 Sleep
            ++ [Killpg (w_pid w) SIGKILL])
      with ([Killpg (w_pid w) SIGTERM] ++ replicate 10 Sleep
            ++ [Killpg (w_pid w) SIGKILL]).
    rewrite !sleeps_app. destruct (signals_sleep 10) as (_ & -> & _).
    cbn. eauto.
  - rewrite sleeps_app, Hz. cbn [app].
    change (Killpg (w_pid w) SIGTERM :: replicate 10 Sleep
            ++ [Killpg (w_pid w) SIGKILL; Killpg (w_pid w) SIGKILL])
      with ([Killpg (w_pid w) SIGTERM] ++ replicate 10 Sleep
            ++ [Killpg (w_pid w) SIGKILL; Killpg (w_pid w) SIGKILL]).
    rewrite !sleeps_app. destruct (signals_sleep 10) as (_ & -> & _).
    cbn. eauto.
Qed.

Lemma grace_window_sleeps_witness :
  sleeps (trace_of (run_with_timeouts 2 0 false 8 ["sleep"; "10"]
                      slow_exit_world)) = 3%nat
  ∧ (3 ≤ 10)%nat.
Proof.
  apply (grace_window_sleeps 2 0 false 8 ["sleep"; "10"] slow_exit_world
           (State 0 None None true)); reflexivity.
Defined.

(** ** The command line and the end of the script *)

Lemma after_dashdash_first (pre rest : list string) :
  "--" ∉ pre → after_dashdash (pre ++ "--" :: rest) = Some rest.
Proof.
  induction pre as [|a pre IH]; intros Hpre; [reflexivity|].
  apply not_elem_of_cons in Hpre as [Ha Hpre]. cbn [app after_dashdash].
  destruct (String.eqb_spec a "--") as [->|_]; [congruence|]. exact (IH Hpre).
Qed.

Lemma after_dashdash_None (argv : list string) :
  after_dashdash argv = None ↔ "--" ∉ argv.
Proof.
  induction argv as [|a argv IH]; cbn [after_dashdash].
  - split; [intros _; apply not_elem_of_nil | reflexivity].
  - destruct (String.eqb_spec a "--") as [->|Hne].
    + split; [discriminate|]. intros H. exfalso. apply H. left.
    + rewrite IH, not_elem_of_cons. split; [auto | intros [_ H]; exact H].
Qed.

Lemma after_dashdash_Some (argv rest : list string) :
  after_dashdash argv = Some rest →
  ∃ pre, argv = pre ++ "--" :: rest ∧ "--" ∉ pre.
Proof.
  induction argv as [|a argv IH]; cbn [after_dashdash]; [discriminate|].
  destruct (String.eqb_spec a "--") as [->|Hne].
  - intros [= ->]. exists []. split; [reflexivity | apply not_elem_of_nil].
  - intros H. destruct (IH H) as (pre & -> & Hpre).
    exists (a :: pre). split; [reflexivity|].
    apply not_elem_of_cons. auto.
Qed.

Lemma bind_mret_id {A : Type} (m : M A) : m ≫= mret = m.
Proof.
  destruct m as [t [a|e|]]; try reflexivity.
  rewrite bind_Done. cbn. rewrite app_nil_r. reflexivity.
Qed.



(** With no [--] on the command line the script prints the usage line and
    ends; with a command it passes on what the run returns. *)
Example script_without_command :
  run_as_script Py.int (Cmdline (Some 120) None false None None)
    ["with-timeout.py"; "--idle"; "120"] ∅ base_world None
  = ([Print Usage], Done Ends).
Proof. reflexivity. Qed.

Example script_with_command :
  run_as_script Py.int plain_cmdline
    ["with-timeout.py"; "--idle"; "120"; "--hard"; "1800"; "--";
     "xcodebuild"; "test"] sample_environ chatty_world None
  = ([Write Stdout "compiling"; Write Stderr "warning"; Write Stdout "done"],
     Done (Exits 3)).
Proof. reflexivity. Qed.

(** X10: the command, when argparse stores no word under [dashdash]: the
    words after the first [--] of [sys.argv], later [--] included; and none
    when [sys.argv] has no [--]. *)
Theorem command_after_first_dashdash (cl : cmdline) (pre rest : list string) :
  cl_dashdash cl = None ∨ cl_dashdash cl = Some []
  ∨ cl_dashdash cl = Some ["--"] →
  "--" ∉ pre →
  command (parse_known_args cl) (pre ++ "--" :: rest) = rest
  ∧ command (parse_known_args cl) pre = [].
Proof.
  intros Hdd Hpre. unfold command, parse_known_args. cbn [dashdash].
  assert (E : match cl_dashdash cl with
              | Some (d :: dd) => if String.eqb d "--" then dd else d :: dd
              | _ => []
              end = []).
  { destruct Hdd as [->|[->| ->]]; reflexivity. }
  rewrite E, (after_dashdash_first pre rest Hpre).
  split; [reflexivity|].
  apply after_dashdash_None in Hpre. rewrite Hpre. reflexivity.
Qed.

Lemma command_after_first_dashdash_witness :
  command (parse_known_args (Cmdline (Some 120) None false None None))
    (["with-timeout.py"; "--idle"; "120"]
     ++ "--" :: ["sh"; "-c"; "--"; "make"])
  = ["sh"; "-c"; "--"; "make"]
  ∧ command (parse_known_args (Cmdline (Some 120) None false None None))
      ["with-timeout.py"; "--idle"; "120"] = [].
Proof.
  apply (command_after_first_dashdash (Cmdline (Some 120) None false None None)
           ["with-timeout.py"; "--idle"; "120"] ["sh"; "-c"; "--"; "make"]).
  - left. reflexivity.
  - intros H. repeat (apply elem_of_cons in H as [H|H]; [discriminate H|]).
    apply elem_of_nil in H. exact H.
Defined.

Lemma idle_timeout_fires_witness :
  timeouts (trace_of (run_with_timeouts 2 0 false 8 ["sleep"; "10"]
                        silent_world)) = [IdleTimeout]
  ∧ head (signals (trace_of (run_with_timeouts 2 0 false 8 ["sleep"; "10"]
                               silent_world))) = Some SIGTERM
  ∧ (benign (w_killpg_handler silent_world) →
     result_of (run_with_timeouts 2 0 false 8 ["sleep"; "10"] silent_world)
     = Done 124)
  ∧ (result_of (run_with_timeouts 2 0 false 8 ["sleep"; "10"] silent_world)
     = Done 124
     ∨ ∃ e, result_of (run_with_timeouts 2 0 false 8 ["sleep"; "10"]
                         silent_world) = Raised e
            ∧ w_killpg_handler silent_world = Some e
            ∧ e ≠ ProcessLookupError).
Proof.
  apply (idle_timeout_fires 2 0 false 8 ["sleep"; "10"] silent_world
           [quiet_cycle 0; quiet_cycle 1] [] (quiet_cycle 2)).
  - lia.
  - reflexivity.
  - reflexivity.
  - reflexivity.
  - reflexivity.
  - vm_compute. reflexivity.
Defined.

(** ** scripts/xcodebuild-test-with-env.py *)

Section XcodebuildFacts.
Import XcodebuildTestWithEnv.

Lemma Forall_sublist {A : Type} (P : A → Prop) (l k : list A) :
  l `sublist_of` k → Forall P k → Forall P l.
Proof.
  induction 1 as [|x l k _ IH|x l k _ IH]; intros Hk.
  - constructor.
  - apply Forall_cons in Hk as [Hx Hk]. constructor; auto.
  - apply Forall_cons in Hk as [_ Hk]. auto.
Qed.

Lemma require_arg_value_spec (args : list string) (key : string) :
  match require_arg_value args key with
  | inr v => ∃ pre post, args = pre ++ key :: v :: post ∧ key ∉ pre
  | inl (MissingRequired k) => k = key ∧ key ∉ args
  | inl (MissingValueAfter k) =>
      k = key ∧ ∃ pre, args = pre ++ [key] ∧ key ∉ pre
  | inl (NoXctestrun _) => False
  end.
Proof.
  induction args as [|a args IH]; cbn [require_arg_value].
  - split; [reflexivity | apply not_elem_of_nil].
  - destruct (String.eqb_spec a key) as [->|Hne].
    + destruct args as [|v post].
      * split; [reflexivity|]. exists []. split; [reflexivity|].
        apply not_elem_of_nil.
      * exists [], post. split; [reflexivity | apply not_elem_of_nil].
    + destruct (require_arg_value args key) as [[k|k|s]|v].
      * destruct IH as [-> IH]. split; [reflexivity|].
        apply not_elem_of_cons. auto.
      * destruct IH as (-> & pre & -> & Hpre). split; [reflexivity|].
        exists (a :: pre). split; [reflexivity|].
        apply not_elem_of_cons. auto.
      * exact IH.
      * destruct IH as (pre & post & -> & Hpre).
        exists (a :: pre), post. split; [reflexivity|].
        apply not_elem_of_cons. auto.
Qed.

(** *** [filter_for_build_for_testing] *)

Lemma build_for_testing_loop_sublist (skip : bool) (args : list string) :
  build_for_testing_loop skip args `sublist_of` args.
Proof.
  revert skip. induction args as [|a rest IH]; intros skip; [constructor|].
  cbn [build_for_testing_loop].
  destruct skip; [apply sublist_cons, IH|].
  destruct (bool_decide (a ∈ test_only_flags)); [apply sublist_cons, IH|].
  destruct (existsb (startswith a) _); [apply sublist_cons, IH|].
  apply sublist_skip, IH.
Qed.

Lemma build_for_testing_loop_clean (skip : bool) (args : list string) :
  Forall (λ a, test_only a = false) (build_for_testing_loop skip args).
Proof.
  revert skip. induction args as [|a rest IH]; intros skip; [constructor|].
  cbn [build_for_testing_loop].
  destruct skip; [apply IH|].
  destruct (bool_decide (a ∈ test_only_flags)) eqn:E1; [apply IH|].
  destruct (existsb (startswith a) _) eqn:E2; [apply IH|].
  constructor; [|apply IH]. unfold test_only. rewrite E1, E2. reflexivity.
Qed.

Lemma build_for_testing_loop_id (args : list string) :
  Forall (λ a, test_only a = false) args →
  build_for_testing_loop false args = args.
Proof.
  induction 1 as [|a rest Ha _ IH]; [reflexivity|].
  cbn [build_for_testing_loop]. unfold test_only in Ha.
  apply orb_false_iff in Ha as [-> ->]. rewrite IH. reflexivity.
Qed.

(** The loop drops a word that looks like an option only when it takes it
    for an option of the tests. *)
Lemma build_for_testing_loop_options (skip : bool) (args : list string) :
  (skip = true → ∀ a rest, args = a :: rest → startswith a "-" = false) →
  List.filter other_option (build_for_testing_loop skip args)
  = List.filter other_option args.
Proof.
  revert skip. induction args as [|a rest IH]; intros skip Hskip;
    [reflexivity|].
  cbn [build_for_testing_loop List.filter].
  destruct skip.
  - assert (Ha : other_option a = false).
    { unfold other_option. rewrite (Hskip eq_refl a rest eq_refl).
      reflexivity. }
    rewrite Ha. apply IH. discriminate.
  - destruct (bool_decide (a ∈ test_only_flags)) eqn:E1.
    { assert (Ha : other_option a = false).
      { unfold other_option, test_only. rewrite E1.
        apply andb_false_r. }
      rewrite Ha. apply IH. intros Hs b rest' ->.
      apply negb_true_iff in Hs. exact Hs. }
    destruct (existsb (startswith a) _) eqn:E2.
    { assert (Ha : other_option a = false).
      { unfold other_option, test_only. rewrite E1, E2.
        apply andb_false_r. }
      rewrite Ha. apply IH. discriminate. }
    cbn [List.filter]. rewrite IH by discriminate. reflexivity.
Qed.

(** *** [filter_for_test_without_building] *)

Lemma test_without_building_loop_sublist (skip : bool) (args : list string) :
  test_without_building_loop skip args `sublist_of` args.
Proof.
  revert skip. induction args as [|a rest IH]; intros skip; [constructor|].
  cbn [test_without_building_loop].
  destruct skip; [apply sublist_cons, IH|].
  destruct (bool_decide (a ∈ skip_flags_with_value));
    [apply sublist_cons, IH|].
  apply sublist_skip, IH.
Qed.

Lemma test_without_building_loop_clean (skip : bool) (args : list string) :
  Forall (λ a, a ∉ skip_flags_with_value)
    (test_without_building_loop skip args).
Proof.
  revert skip. induction args as [|a rest IH]; intros skip; [constructor|].
  cbn [test_without_building_loop].
  destruct skip; [apply IH|].
  destruct (bool_decide_reflect (a ∈ skip_flags_with_value)) as [|Hn];
    [apply IH|].
  constructor; [exact Hn | apply IH].
Qed.

Lemma test_without_building_loop_id (args : list string) :
  Forall (λ a, a ∉ skip_flags_with_value) args →
  test_without_building_loop false args = args.
Proof.
  induction 1 as [|a rest Ha _ IH]; [reflexivity|].
  cbn [test_without_building_loop].
  rewrite (bool_decide_eq_false_2 _ Ha), IH. reflexivity.
Qed.

Lemma strip_build_actions_clean (args : list string) :
  Forall (λ a, a ∉ actions) (strip_build_actions args).
Proof.
  apply Forall_forall. intros a Ha.
  apply list_elem_of_filter in Ha as [Ha _]. exact Ha.
Qed.

Lemma test_without_building_loop_pair (pre rest : list string)
    (flag v : string) :
  Forall (λ a, a ∉ skip_flags_with_value) pre →
  flag ∈ skip_flags_with_value →
  test_without_building_loop false (pre ++ flag :: v :: rest)
  = pre ++ test_without_building_loop false rest.
Proof.
  intros Hpre Hflag. induction Hpre as [|a pre Ha _ IH].
  - cbn [app test_without_building_loop].
    rewrite (bool_decide_eq_true_2 _ Hflag). reflexivity.
  - cbn [app test_without_building_loop].
    rewrite (bool_decide_eq_false_2 _ Ha), IH. reflexivity.
Qed.

Lemma build_for_testing_loop_pair (pre rest : list string) (flag v : string) :
  Forall (λ a, test_only a = false) pre →
  flag ∈ test_only_flags →
  build_for_testing_loop false (pre ++ flag :: v :: rest)
  = pre ++ (if startswith v "-" then build_for_testing_loop false (v :: rest)
            else build_for_testing_loop false rest).
Proof.
  intros Hpre Hflag. induction Hpre as [|a pre Ha _ IH].
  - cbn [app]. change (build_for_testing_loop false (flag :: v :: rest))
      with (if bool_decide (flag ∈ test_only_flags)
            then build_for_testing_loop (negb (startswith v "-")) (v :: rest)
            else if existsb (startswith flag)
                      ["-only-testing:"; "-skip-testing:"]
                 then build_for_testing_loop false (v :: rest)
                 else flag :: build_for_testing_loop false (v :: rest)).
    rewrite (bool_decide_eq_true_2 _ Hflag).
    destruct (startswith v "-"); reflexivity.
  - cbn [app build_for_testing_loop]. unfold test_only in Ha.
    apply orb_false_iff in Ha as [-> ->]. rewrite IH. reflexivity.
Qed.

(** The two commands of [main]. *)
Lemma build_cmd_shape (cmd : list string) :
  ∃ mid, build_cmd cmd = "xcodebuild" :: mid ++ ["build-for-testing"]
    ∧ mid `sublist_of` tail cmd
    ∧ Forall (λ a, a ∉ actions) mid
    ∧ Forall (λ a, test_only a = false) mid.
Proof.
  exists (filter_for_build_for_testing (strip_build_actions (tail cmd))).
  split; [reflexivity|].
  pose proof (build_for_testing_loop_sublist false
                (strip_build_actions (tail cmd))) as Hs.
  split; [|split].
  - etrans; [exact Hs | apply sublist_filter].
  - exact (Forall_sublist _ _ _ Hs (strip_build_actions_clean _)).
  - apply build_for_testing_loop_clean.
Qed.

Lemma test_cmd_shape (cmd : list string) (patched : string) :
  ∃ mid, test_cmd cmd patched
         = "xcodebuild" :: "-xctestrun" :: patched
           :: mid ++ ["test-without-building"]
    ∧ mid `sublist_of` tail cmd
    ∧ Forall (λ a, a ∉ actions) mid
    ∧ Forall (λ a, a ∉ skip_flags_with_value) mid.
Proof.
  exists (filter_for_test_without_building (strip_build_actions (tail cmd))).
  split; [reflexivity|].
  pose proof (test_without_building_loop_sublist false
                (strip_build_actions (tail cmd))) as Hs.
  split; [|split].
  - etrans; [exact Hs | apply sublist_filter].
  - exact (Forall_sublist _ _ _ Hs (strip_build_actions_clean _)).
  - apply test_without_building_loop_clean.
Qed.

(** The variables that [main] collects (line 182). *)
Lemma collect_env_lookup (environ : gmap string string) (k v : string) :
  collect_env DEFAULT_PREFIXES environ !! k = Some v
  ↔ environ !! k = Some v
    ∧ (startswith k "LEXICAL_BENCH_" = true
       ∨ startswith k "LEXICAL_FORCE_" = true).
Proof.
  unfold collect_env. rewrite map_lookup_filter_Some.
  cbn [fst existsb DEFAULT_PREFIXES]. rewrite orb_false_r, orb_true_iff.
  reflexivity.
Qed.

End XcodebuildFacts.

Section PatchFacts.
Import XcodebuildTestWithEnv.

Lemma fold_env_lookup (env : gmap string string) (d : gmap string plist)
    (ek : string) :
  map_fold (λ ek ev d, <[ek := PString ev]> d) d env !! ek
  = match env !! ek with
    | Some ev => Some (PString ev)
    | None => d !! ek
    end.
Proof.
  apply (map_fold_weak_ind
           (λ r m, r !! ek = match m !! ek with
                             | Some ev => Some (PString ev)
                             | None => d !! ek
                             end)).
  - rewrite lookup_empty. reflexivity.
  - intros i x m r Hi IH. destruct (decide (i = ek)) as [->|Hne].
    + rewrite !lookup_insert_eq. reflexivity.
    + rewrite !lookup_insert_ne by exact Hne. exact IH.
Qed.

Lemma patch_target_spec (env : gmap string string) (t t' : plist) :
  patch_target env t = Some t' → patched_from env t t'.
Proof.
  destruct t as [td| | | | |]; try discriminate. intros [= <-].
  exists td, (foldl (patch_key env) td env_keys).
  split; [reflexivity|]. split; [reflexivity|].
  cbn [foldl env_keys]. unfold patch_key at 1. split.
  - intros key Hkey.
    apply elem_of_cons in Hkey as [->|Hkey];
      [|apply list_elem_of_singleton in Hkey as ->].
    + rewrite lookup_insert_ne by discriminate.
      unfold patch_key. rewrite lookup_insert_eq.
      eexists. split; [reflexivity|]. intros ek.
      rewrite fold_env_lookup. reflexivity.
    + rewrite lookup_insert_eq. eexists. split; [reflexivity|]. intros ek.
      rewrite fold_env_lookup. unfold patch_key, dict_at.
      rewrite lookup_insert_ne by discriminate. reflexivity.
  - intros k Hk. apply not_elem_of_cons in Hk as [Hk1 Hk].
    apply not_elem_of_cons in Hk as [Hk2 _].
    unfold patch_key. rewrite !lookup_insert_ne by congruence. reflexivity.
Qed.

Lemma for_items_spec (f : plist → option plist) (x x' : plist)
    (key : string) :
  for_items f x key = Some x' →
  Forall2 (λ y y', f y = Some y') (items x key) (items x' key).
Proof.
  unfold for_items, items. destruct x as [d| | | | |]; try discriminate.
  destruct (d !! key) as [v|] eqn:Ev.
  2:{ intros [= <-]. rewrite Ev. constructor. }
  destruct (truthy v) eqn:Ht.
  2:{ intros [= <-]. rewrite Ev. destruct v as [|l| | | |]; try constructor.
      destruct l as [|y l]; [constructor|]. cbn [truthy] in Ht.
      rewrite bool_decide_eq_false_2 in Ht by discriminate.
      discriminate Ht. }
  destruct v as [|l| | | |]; try discriminate.
  destruct (mapM f l) as [l'|] eqn:El; [|discriminate].
  intros [= <-]. rewrite lookup_insert_eq. apply mapM_Some, El.
Qed.

End PatchFacts.

Section XcodebuildProperties.
Import XcodebuildTestWithEnv.

(** X11: [split_after_dashdash] returns the words after the first [--],
    and the whole list when there is no [--]; what it returns is always a
    suffix of its argument. *)
Theorem split_after_dashdash_spec (argv : list string) :
  ("--" ∉ argv → split_after_dashdash argv = argv)
  ∧ (∀ pre rest, "--" ∉ pre →
       split_after_dashdash (pre ++ "--" :: rest) = rest)
  ∧ split_after_dashdash argv `suffix_of` argv.
Proof.
  unfold split_after_dashdash. split; [|split].
  - intros H. apply after_dashdash_None in H. rewrite H. reflexivity.
  - intros pre rest H. rewrite (after_dashdash_first pre rest H). reflexivity.
  - destruct (after_dashdash argv) as [rest|] eqn:E; [|reflexivity].
    apply after_dashdash_Some in E as (pre & -> & _).
    exists (pre ++ ["--"]). rewrite <- app_assoc. reflexivity.
Qed.

(** X12: [require_arg_value] returns the word after the first occurrence of
    the key, whatever that word is; it exits with the first message exactly
    when the key does not occur, and with the second exactly when its first
    occurrence is the last word. *)
Theorem require_arg_value_first (args : list string) (key : string) :
  match require_arg_value args key with
  | inr v => ∃ pre post, args = pre ++ key :: v :: post ∧ key ∉ pre
  | inl e =>
      (e = MissingRequired key ∧ key ∉ args)
      ∨ (e = MissingValueAfter key
         ∧ ∃ pre, args = pre ++ [key] ∧ key ∉ pre)
  end.
Proof.
  pose proof (require_arg_value_spec args key) as H.
  destruct (require_arg_value args key) as [[k|k|s]|v].
  - destruct H as [-> H]. left. auto.
  - destruct H as [-> H]. right. auto.
  - contradiction.
  - exact H.
Qed.

(** X13: [filter_for_build_for_testing] keeps the order of the words it
    keeps; keeps no flag of lines 83-94 and no word with a prefix of line
    106; keeps every other word that starts with [-]; leaves a list without
    such flags and words as it is, so that filtering twice is filtering once;
    and drops with the first flag the word after it only when that word does
    not start with [-]. *)
Theorem filter_for_build_for_testing_spec (args : list string) :
  let out := filter_for_build_for_testing args in
  out `sublist_of` args
  ∧ Forall (λ a, test_only a = false) out
  ∧ List.filter other_option out = List.filter other_option args
  ∧ (Forall (λ a, test_only a = false) args → out = args)
  ∧ filter_for_build_for_testing out = out
  ∧ (∀ pre flag v rest,
       args = pre ++ flag :: v :: rest →
       Forall (λ a, test_only a = false) pre → flag ∈ test_only_flags →
       out = pre ++ (if startswith v "-"
                     then filter_for_build_for_testing (v :: rest)
                     else filter_for_build_for_testing rest)).
Proof.
  intros out. subst out. unfold filter_for_build_for_testing.
  split; [apply build_for_testing_loop_sublist|].
  split; [apply build_for_testing_loop_clean|].
  split; [apply build_for_testing_loop_options; discriminate|].
  split; [apply build_for_testing_loop_id|].
  split; [apply build_for_testing_loop_id, build_for_testing_loop_clean|].
  intros pre flag v rest -> Hpre Hflag.
  apply build_for_testing_loop_pair; assumption.
Qed.

(** X14: [filter_for_test_without_building] keeps the order of the words it
    keeps; keeps none of [-workspace], [-project] and [-scheme]; leaves a
    list without them as it is, so that filtering twice is filtering once;
    and drops with the first of them the word after it, whatever that word
    is. *)
Theorem filter_for_test_without_building_spec (args : list string) :
  let out := filter_for_test_without_building args in
  out `sublist_of` args
  ∧ Forall (λ a, a ∉ skip_flags_with_value) out
  ∧ (Forall (λ a, a ∉ skip_flags_with_value) args → out = args)
  ∧ filter_for_test_without_building out = out
  ∧ (∀ pre flag v rest,
       args = pre ++ flag :: v :: rest →
       Forall (λ a, a ∉ skip_flags_with_value) pre →
       flag ∈ skip_flags_with_value →
       out = pre ++ filter_for_test_without_building rest).
Proof.
  intros out. subst out. unfold filter_for_test_without_building.
  split; [apply test_without_building_loop_sublist|].
  split; [apply test_without_building_loop_clean|].
  split; [apply test_without_building_loop_id|].
  split; [apply test_without_building_loop_id,
            test_without_building_loop_clean|].
  intros pre flag v rest -> Hpre Hflag.
  apply test_without_building_loop_pair; assumption.
Qed.

(** X15: what [main] runs. A command is run only when the words after [--]
    start with [xcodebuild] and give [-scheme] a value. It is [xcodebuild],
    words of the command line in their order, none of them a build action,
    and one action at the end: either [build-for-testing], after words that
    hold no option of the tests, as the first thing [main] does; or
    [test-without-building], after [-xctestrun] and the patched file and
    words that hold none of [-workspace], [-project] and [-scheme], and then
    the build has been run first and has returned 0 and the file has been
    patched. *)
Theorem main_commands (argv : list string) (environ : gmap string string)
    (w : world) (c : list string) :
  let cmd := split_after_dashdash (tail argv) in
  let t := (main argv environ w).1 in
  Run c ∈ t →
  head cmd = Some "xcodebuild"
  ∧ (∃ scheme, require_arg_value cmd "-scheme" = inr scheme)
  ∧ ∃ mid, mid `sublist_of` tail cmd
      ∧ Forall (λ a, a ∉ actions) mid
      ∧ (c = "xcodebuild" :: mid ++ ["build-for-testing"]
         ∧ Forall (λ a, test_only a = false) mid
         ∧ head t = Some (Run c)
         ∨ c = "xcodebuild" :: "-xctestrun" :: w_patched w
               :: mid ++ ["test-without-building"]
           ∧ Forall (λ a, a ∉ skip_flags_with_value) mid
           ∧ w_build w = inr 0 ∧ w_patch w = None
           ∧ head t = Some (Run (build_cmd cmd))).
Proof.
  intros cmd t. subst t. unfold main. fold cmd.
  destruct (build_cmd_shape cmd) as (mb & Eb & Hbs & Hba & Hbt).
  destruct (test_cmd_shape cmd (w_patched w))
    as (mt & Et & Hts & Hta & Htt).
  clearbody cmd.
  destruct cmd as [|c0 args];
    [|destruct (String.eqb_spec c0 "xcodebuild") as [->|Hne]; cbn [negb];
      [destruct (require_arg_value ("xcodebuild" :: args) "-scheme")
         as [e|scheme];
       [|destruct (w_build w) as [e|rc];
         [|destruct (Z.eqb_spec rc 0) as [->|Hrc]; cbn [negb];
           [destruct (w_xctestrun w) as [e|[path|]];
            [|cbv zeta; destruct (w_patch w) as [e|];
              [|destruct (w_test w) as [e|rc]]|]|]]]|]];
    cbn [fst app]; intros H;
    repeat (apply elem_of_cons in H as [H|H]; [try discriminate H|]);
    try (apply elem_of_nil in H; contradiction);
    injection H as ->;
    (split; [reflexivity|]); (split; [eexists; reflexivity|]).
  all: first [ exists mb; split; [assumption|]; split; [assumption|];
               left; split; [exact Eb|]; split; [assumption | reflexivity]
             | exists mt; split; [assumption|]; split; [assumption|];
               right; split; [exact Et|]; repeat split; assumption ].
Qed.

Lemma main_commands_witness :
  let argv := ["xcodebuild-test-with-env.py"; "--"; "xcodebuild";
               "-workspace"; "App.xcworkspace"; "-scheme"; "Lexical-Package";
               "-only-testing:LexicalTests/Benchmarks"; "test"] in
  let w := World (inr 0) (inr (Some "Products/L_L_1.xctestrun"))
             "Products/L-1.patched.xctestrun" None (inr 65) in
  let c := ["xcodebuild"; "-xctestrun"; "Products/L-1.patched.xctestrun";
            "-only-testing:LexicalTests/Benchmarks";
            "test-without-building"] in
  let cmd := split_after_dashdash (tail argv) in
  let t := (main argv ∅ w).1 in
  head cmd = Some "xcodebuild"
  ∧ (∃ scheme, require_arg_value cmd "-scheme" = inr scheme)
  ∧ ∃ mid, mid `sublist_of` tail cmd
      ∧ Forall (λ a, a ∉ actions) mid
      ∧ (c = "xcodebuild" :: mid ++ ["build-for-testing"]
         ∧ Forall (λ a, test_only a = false) mid
         ∧ head t = Some (Run c)
         ∨ c = "xcodebuild" :: "-xctestrun" :: w_patched w
               :: mid ++ ["test-without-building"]
           ∧ Forall (λ a, a ∉ skip_flags_with_value) mid
           ∧ w_build w = inr 0 ∧ w_patch w = None
           ∧ head t = Some (Run (build_cmd cmd))).
Proof.
  apply (main_commands
           ["xcodebuild-test-with-env.py"; "--"; "xcodebuild";
            "-workspace"; "App.xcworkspace"; "-scheme"; "Lexical-Package";
            "-only-testing:LexicalTests/Benchmarks"; "test"] ∅
           (World (inr 0) (inr (Some "Products/L_L_1.xctestrun"))
              "Products/L-1.patched.xctestrun" None (inr 65))).
  vm_compute. do 2 right. left.
Defined.

(** X17: what [main] patches. The test run file is patched only after a
    build that returned 0, from the file that [find_xctestrun] found to the
    patched path, and with exactly the variables of the environment whose
    names start with [LEXICAL_BENCH_] or [LEXICAL_FORCE_], each with its
    value. *)
Theorem main_patches_collected_env (argv : list string)
    (environ : gmap string string) (w : world) (in_path out_path : string)
    (env : gmap string string) :
  PatchXctestrun in_path out_path env ∈ (main argv environ w).1 →
  w_build w = inr 0
  ∧ w_xctestrun w = inr (Some in_path)
  ∧ out_path = w_patched w
  ∧ ∀ k v, env !! k = Some v
           ↔ environ !! k = Some v
             ∧ (startswith k "LEXICAL_BENCH_" = true
                ∨ startswith k "LEXICAL_FORCE_" = true).
Proof.
  unfold main.
  destruct (split_after_dashdash (tail argv)) as [|c0 args];
    [|destruct (String.eqb_spec c0 "xcodebuild") as [->|Hne]; cbn [negb];
      [destruct (require_arg_value ("xcodebuild" :: args) "-scheme")
         as [e|scheme];
       [|destruct (w_build w) as [e|rc];
         [|destruct (Z.eqb_spec rc 0) as [->|Hrc]; cbn [negb];
           [destruct (w_xctestrun w) as [e|[path|]];
            [|cbv zeta; destruct (w_patch w) as [e|];
              [|destruct (w_test w) as [e|rc]]|]|]]]|]];
    cbn [fst app]; intros H;
    repeat (apply elem_of_cons in H as [H|H]; [try discriminate H|]);
    try (apply elem_of_nil in H; contradiction);
    injection H as -> -> ->;
    (split; [reflexivity|]); (split; [reflexivity|]);
    (split; [reflexivity|]); apply collect_env_lookup.
Qed.

Lemma main_patches_collected_env_witness :
  let env : gmap string string :=
    {[ "LEXICAL_BENCH_BLOCKS" := "5000";
       "LEXICAL_FORCE_DFS_ORDER_SORT" := "1" ]} in
  let w := World (inr 0) (inr (Some "Products/L_L_1.xctestrun"))
             "Products/L-1.patched.xctestrun" None (inr 0) in
  w_build w = inr 0
  ∧ w_xctestrun w = inr (Some "Products/L_L_1.xctestrun")
  ∧ "Products/L-1.patched.xctestrun" = w_patched w
  ∧ ∀ k v, env !! k = Some v
           ↔ mixed_environ !! k = Some v
             ∧ (startswith k "LEXICAL_BENCH_" = true
                ∨ startswith k "LEXICAL_FORCE_" = true).
Proof.
  apply (main_patches_collected_env
           ["xcodebuild-test-with-env.py"; "--"; "xcodebuild"; "-scheme";
            "Lexical-Package"; "test"] mixed_environ
           (World (inr 0) (inr (Some "Products/L_L_1.xctestrun"))
              "Products/L-1.patched.xctestrun" None (inr 0))).
  vm_compute. right. left.
Defined.

(** X16: when [patch_xctestrun] writes its file, the data has the test
    targets it had, in the same order, and each is the target it was but for
    [EnvironmentVariables] and [TestingEnvironmentVariables]: under both
    there is a dictionary that maps every collected variable to its value
    and, for any other name, holds what the dictionary there held (nothing,
    where there was none). *)
Theorem patch_xctestrun_targets (data data' : plist)
    (env : gmap string string) :
  patch_xctestrun data env = Some data' →
  Forall2 (patched_from env) (test_targets data) (test_targets data').
Proof.
  intros H. apply for_items_spec in H. unfold test_targets.
  induction H as [|cfg cfg' cfgs cfgs' Hc _ IH]; [constructor|].
  cbn [mbind list_bind]. apply Forall2_app; [|exact IH].
  apply for_items_spec in Hc.
  eapply Forall2_impl; [exact Hc|]. intros t t'. apply patch_target_spec.
Qed.

Lemma patch_xctestrun_targets_witness :
  Forall2 (patched_from bench_env)
    (test_targets xctestrun_data) (test_targets xctestrun_patched).
Proof.
  apply (patch_xctestrun_targets xctestrun_data xctestrun_patched bench_env).
  vm_compute. reflexivity.
Defined.

End XcodebuildProperties.

(** ** scripts/benchmarks.py *)

Section BenchmarksFacts.
Import Benchmarks.
Context {Agg : Type}.
Implicit Types rows : list (AggKey * Agg).

Lemma slice_from_last {A : Type} (last : Z) (l : list A) :
  0 < last → slice_from (- last) l = recent (Z.to_nat last) l.
Proof.
  intros Hlast. unfold slice_from, recent.
  destruct (Z.ltb_spec (- last) 0) as [_|]; [|lia].
  f_equal. lia.
Qed.

Lemma slice_from_drop {A : Type} (last : Z) (l : list A) :
  last < 0 → slice_from (- last) l = drop (Z.to_nat (- last)) l.
Proof.
  intros Hlast. unfold slice_from.
  destruct (Z.ltb_spec (- last) 0) as [|_]; [lia | reflexivity].
Qed.

Lemma keep_last_runs_eq (last : Z) rows :
  0 < last →
  keep_last_runs last rows
  = filter (λ kv, run_id kv.1 ∈ (λ kv, run_id kv.1) <$> recent (Z.to_nat last) rows)
      rows.
Proof.
  intros Hlast. unfold keep_last_runs.
  assert (Ht : Py.truthy_int last = true).
  { unfold Py.truthy_int. apply negb_true_iff, Z.eqb_neq. lia. }
  rewrite Ht. cbv zeta. rewrite (slice_from_last _ _ Hlast).
  unfold recent. rewrite length_map, fmap_drop. reflexivity.
Qed.

Lemma filter_Forall_id {A : Type} (P : A → Prop) `{!∀ x, Decision (P x)}
    (l : list A) :
  Forall P l → filter P l = l.
Proof.
  induction 1 as [|x l Hx _ IH]; [reflexivity|].
  rewrite filter_cons_True by exact Hx. rewrite IH. reflexivity.
Qed.

(** X18: the rows that [report --last N] shows. They are rows of the table
    in their order, and all of them for [N = 0]. For [N > 0] they are the
    rows of the runs that have a row among the last [N] rows: these rows end
    the table shown, and it has at most [N] runs. For [N < 0] they are the
    rows of the runs that have a row after the first [-N]. *)
Theorem keep_last_runs_spec (last : Z) rows :
  let shown := keep_last_runs last rows in
  let latest := recent (Z.to_nat last) rows in
  shown `sublist_of` rows
  ∧ (last = 0 → shown = rows)
  ∧ (0 < last →
       (∀ kv, kv ∈ shown ↔
              kv ∈ rows ∧ ∃ kv', kv' ∈ latest ∧ run_id kv'.1 = run_id kv.1)
       ∧ latest `suffix_of` shown
       ∧ (length (remove_dups ((λ kv, run_id kv.1) <$> shown))
          ≤ Z.to_nat last)%nat)
  ∧ (last < 0 →
       ∀ kv, kv ∈ shown ↔
             kv ∈ rows ∧ ∃ kv', kv' ∈ drop (Z.to_nat (- last)) rows
                                ∧ run_id kv'.1 = run_id kv.1).
Proof.
  intros shown latest. subst shown latest. split; [|split; [|split]].
  - unfold keep_last_runs. destruct (Py.truthy_int last); [|reflexivity].
    apply sublist_filter.
  - intros ->. reflexivity.
  - intros Hlast. rewrite (keep_last_runs_eq _ _ Hlast).
    set (n := Z.to_nat last).
    set (ids := (λ kv : AggKey * Agg, run_id kv.1) <$> recent n rows).
    split; [|split].
    + intros kv. rewrite list_elem_of_filter. unfold ids.
      rewrite list_elem_of_fmap. split.
      * intros [(kv' & E & Hin) Hkv]. split; [exact Hkv|]. exists kv'. auto.
      * intros [Hkv (kv' & Hin & E)]. split; [|exact Hkv]. exists kv'. auto.
    + assert (Hall : filter (λ kv, run_id kv.1 ∈ ids) (recent n rows)
                     = recent n rows).
      { apply filter_Forall_id, Forall_forall. intros kv Hkv.
        unfold ids. apply list_elem_of_fmap. exists kv. auto. }
      unfold recent in Hall |- *.
      assert (E : filter (λ kv, run_id kv.1 ∈ ids) rows
                  = filter (λ kv, run_id kv.1 ∈ ids)
                      (take (length rows - n) rows)
                    ++ drop (length rows - n) rows).
      { rewrite <- Hall, <- filter_app, take_drop. reflexivity. }
      rewrite E. apply suffix_app_r. reflexivity.
    + assert (Hlen : (length ids ≤ n)%nat).
      { unfold ids, recent. rewrite length_fmap, length_drop. lia. }
      etrans; [|exact Hlen]. apply submseteq_length, NoDup_submseteq.
      * apply NoDup_remove_dups.
      * intros x Hx. rewrite elem_of_remove_dups in Hx.
        apply list_elem_of_fmap in Hx as (kv & -> & Hkv).
        apply list_elem_of_filter in Hkv as [Hkv _]. exact Hkv.
  - intros Hlast kv. unfold keep_last_runs.
    assert (Ht : Py.truthy_int last = true).
    { unfold Py.truthy_int. apply negb_true_iff, Z.eqb_neq. lia. }
    rewrite Ht. cbv zeta. rewrite (slice_from_drop _ _ Hlast).
    rewrite list_elem_of_filter, <- fmap_drop, list_elem_of_fmap. split.
    + intros [(kv' & E & Hin) Hkv]. split; [exact Hkv|]. exists kv'. auto.
    + intros [Hkv (kv' & Hin & E)]. split; [|exact Hkv]. exists kv'. auto.
Qed.

(** With [--last 2] only the newer of the two runs is shown. *)
Example last_two_rows_one_run :
  map (λ kv, run_id kv.1) (keep_last_runs 2 two_runs) = ["run-2"; "run-2"].
Proof. reflexivity. Qed.

End BenchmarksFacts.
